(** * Shellfast text engine: sort, diff, cmp, comm, cut, join and grep

    A shallow embedding of the text commands of
    [src/cpp/filesystem/filesystem.cpp] ([sort_impl], [diff_impl],
    [cmp_impl], [comm_impl], [cut_impl], [join_impl], [grep_impl] and the
    helper [read_lines]) together with the properties the specification
    states about them.

    Conventions.
    - A [std::string] is a [string]: a sequence of 8-bit characters.  The
      C++ [operator<] on strings compares bytes as unsigned values and then
      lengths; this is [String.ltb].
    - C++ [int] and [long] counters are integers of [Z], and indices into
      a [std::vector] are natural numbers.  A counter that is bounded by the
      number of lines or bytes of an input held in memory (a file of less
      than 2^31 lines or bytes) cannot wrap around, and no wrap-around is
      written out for it.  Where an [int] given by the caller enters the
      arithmetic, the overflow is written out: the difference [total - n]
      of [tail_impl] wraps around, and the loop counter of a range of
      [cut_impl] that ends at [INT_MAX] leaves the loop without an exit.
    - A function that throws returns a [result].
    - The file system is an explicit argument. *)

From Stdlib Require Import String Ascii ZArith Lia Bool Arith.
From Stdlib Require Import Permutation Sorted OrderedTypeEx DecimalString.
From Stdlib Require Import List.
Import ListNotations.

Local Open Scope string_scope.
Local Open Scope list_scope.

(** String concatenation, kept apart from list concatenation. *)
Infix "+:+" := String.append (at level 60, right associativity).

(** ** Exceptions *)

(** The ways a call ends without a result.  The exceptions the modelled
    code lets escape: [py::value_error] with its message, and the two
    exceptions of [std::stoi].  And [Undefined], which is no exception: the
    code has left the behaviour C++ defines (a signed counter has
    overflown), and the model says nothing of what follows. *)
Inductive exn : Type :=
| ValueError (msg : string)
| InvalidArgument
| OutOfRange
| Undefined.

Inductive result (A : Type) : Type :=
| Ok (a : A)
| Throw (e : exn).

Arguments Ok {A} a.
Arguments Throw {A} e.

Definition bind {A B : Type} (r : result A) (k : A -> result B) : result B :=
  match r with
  | Ok a => k a
  | Throw e => Throw e
  end.

Notation "x <- r ;; k" := (bind r (fun x => k))
  (at level 61, r at next level, right associativity).

(** [std::to_string] on an integer. *)
Definition to_string (z : Z) : string := NilZero.string_of_int (Z.to_int z).

(** ** Characters and streams *)

Definition newline : ascii := ascii_of_nat 10.

(** [std::isspace] in the "C" locale. *)
Definition isspace (c : ascii) : bool :=
  let n := nat_of_ascii c in
  (n =? 32)%nat || ((9 <=? n)%nat && (n <=? 13)%nat).

(** [::tolower] in the "C" locale. *)
Definition tolower (c : ascii) : ascii :=
  let n := nat_of_ascii c in
  if ((65 <=? n)%nat && (n <=? 90)%nat) then ascii_of_nat (n + 32) else c.

Fixpoint string_map (f : ascii -> ascii) (s : string) : string :=
  match s with
  | EmptyString => EmptyString
  | String c r => String (f c) (string_map f r)
  end.

(** [std::getline(stream, token, delim)] on the unread part [s] of a
    stream: [None] when nothing is left, else the token and the rest. *)
Fixpoint getline_token (delim : ascii) (s : string) : string * string :=
  match s with
  | EmptyString => (EmptyString, EmptyString)
  | String c r =>
      if Ascii.eqb c delim then (EmptyString, r)
      else let (tok, rest) := getline_token delim r in (String c tok, rest)
  end.

Definition getline (delim : ascii) (s : string) : option (string * string) :=
  match s with
  | EmptyString => None
  | _ => Some (getline_token delim s)
  end.

(** [while (std::getline(stream, token, delim)) out.push_back(token);] *)
Fixpoint getline_all (delim : ascii) (s : string) : list string :=
  match s with
  | EmptyString => []
  | String c r =>
      if Ascii.eqb c delim then EmptyString :: getline_all delim r
      else match getline_all delim r with
           | [] => [String c EmptyString]
           | tok :: toks => String c tok :: toks
           end
  end.

(** [stream >> token]: skip white space, then read up to the next white
    space; fails when no character is left. *)
Fixpoint skipws (s : string) : string :=
  match s with
  | EmptyString => EmptyString
  | String c r => if isspace c then skipws r else s
  end.

Fixpoint read_word (s : string) : string * string :=
  match s with
  | EmptyString => (EmptyString, EmptyString)
  | String c r =>
      if isspace c then (EmptyString, s)
      else let (w, rest) := read_word r in (String c w, rest)
  end.

Definition extract (s : string) : option (string * string) :=
  match skipws s with
  | EmptyString => None
  | s' => Some (read_word s')
  end.

(** [s.find(c)]: [None] is [npos]. *)
Fixpoint find (c : ascii) (s : string) : option nat :=
  match s with
  | EmptyString => None
  | String d r =>
      if Ascii.eqb d c then Some O
      else match find c r with
           | Some p => Some (S p)
           | None => None
           end
  end.

(** [s.substr(pos)] and [s.substr(0, len)]. *)
Fixpoint substr_from (pos : nat) (s : string) : string :=
  match pos, s with
  | O, _ => s
  | S p, String _ r => substr_from p r
  | S _, EmptyString => EmptyString
  end.

Fixpoint substr_to (len : nat) (s : string) : string :=
  match len, s with
  | S l, String c r => String c (substr_to l r)
  | _, _ => EmptyString
  end.

(** The field loops shared by [sort_impl] ([get_key]) and [join_impl]
    ([get_field]).

    White-space mode:
    [for (int i = 0; i < key; i++) if (!(iss >> token)) return "";] *)
Fixpoint nth_word (n : nat) (stream token : string) : string :=
  match n with
  | O => token
  | S n' =>
      match extract stream with
      | None => EmptyString
      | Some (tok, rest) => nth_word n' rest tok
      end
  end.

(** Separator mode:
    [for (int i = 1; i < key; i++) { pos = temp.find(sep); if (npos) return ""; temp = temp.substr(pos + 1); }] *)
Fixpoint skip_fields (n : nat) (sep : ascii) (temp : string) : option string :=
  match n with
  | O => Some temp
  | S n' =>
      match find sep temp with
      | None => None
      | Some pos => skip_fields n' sep (substr_from (S pos) temp)
      end
  end.

Definition nth_field (key : Z) (sep : ascii) (line : string) : string :=
  match skip_fields (Z.to_nat (key - 1)) sep line with
  | None => EmptyString
  | Some temp =>
      match find sep temp with
      | Some pos => substr_to pos temp
      | None => temp
      end
  end.

(** ** Line source *)

Module LineSource.

(** A path names a regular file with its bytes, a directory with the
    paths a [recursive_directory_iterator] yields under it, or a node of
    another kind that cannot be opened for reading (a socket); [None] is a
    path that does not exist. *)
Inductive node : Type :=
| RegularFile (content : string)
| Directory (walk : list string)
| Special.

Definition filesystem : Type := string -> option node.

(** The bytes of [path] when [path] is a regular file. *)
Definition open (fs : filesystem) (path : string) : option string :=
  match fs path with
  | Some (RegularFile content) => Some content
  | _ => None
  end.

(** [std::ifstream ifs(path)] with [ifs.is_open()], and the bytes the
    stream gives.  A regular file opens and gives its bytes.  A directory
    opens as well, and the first read fails: the loops that read until a
    read fails see what they see at the end of an empty file.  A path that
    does not exist does not open. *)
Definition ifstream (fs : filesystem) (path : string) : option string :=
  match fs path with
  | Some (RegularFile content) => Some content
  | Some (Directory _) => Some EmptyString
  | _ => None
  end.

Definition read_lines (fs : filesystem) (path : string) : result (list string) :=
  match ifstream fs path with
  | None => Throw (ValueError ("Cannot open file: " +:+ path))
  | Some content => Ok (getline_all newline content)
  end.

(** A file system that holds two regular files and nothing else. *)
Definition two_files (path1 bytes1 path2 bytes2 : string) : filesystem :=
  fun path =>
    if String.eqb path path1 then Some (RegularFile bytes1)
    else if String.eqb path path2 then Some (RegularFile bytes2)
    else None.

(** [for (line : lines) oss << line << "\n";] *)
Definition put_lines (lines : list string) : string :=
  fold_left (fun oss line => oss +:+ line +:+ String newline EmptyString) lines EmptyString.

End LineSource.

(** ** Vectors *)

(** [v[n] = x] on a [std::vector], inside of its bounds. *)
Fixpoint list_set {A : Type} (n : nat) (x : A) (l : list A) : list A :=
  match l, n with
  | [], _ => []
  | _ :: t, O => x :: t
  | y :: t, S n' => y :: list_set n' x t
  end.

(** ** Ordered containers

    [std::set<T>] and [std::multimap<K, V>] keep their elements in the
    order of [operator<] and are iterated in that order.  They are modelled
    by sorted lists, the order being a parameter. *)

Module Ordered.

Section WithOrder.

Context {A : Type} (ltb : A -> A -> bool).

(** [std::set::insert]: no effect when an equivalent element is there. *)
Fixpoint set_insert (x : A) (s : list A) : list A :=
  match s with
  | [] => [x]
  | y :: t =>
      if ltb x y then x :: s
      else if ltb y x then y :: set_insert x t
      else s
  end.

(** [std::set<T> s(first, last)] and repeated [insert]. *)
Definition set_insert_all (xs : list A) (s : list A) : list A :=
  fold_left (fun acc x => set_insert x acc) xs s.

Definition set_of_list (xs : list A) : list A := set_insert_all xs [].

(** [s.count(x)], as a truth value. *)
Fixpoint set_count (x : A) (s : list A) : bool :=
  match s with
  | [] => false
  | y :: t =>
      if ltb x y then false
      else if ltb y x then set_count x t
      else true
  end.

(** Iteration meets the elements in strictly ascending order. *)
Definition ascending (s : list A) : Prop :=
  StronglySorted (fun a b => ltb a b = true) s.

Context {V : Type}.

(** [std::multimap::emplace]: the new pair goes after the pairs whose key
    is not greater (at the upper bound of its key). *)
Fixpoint multimap_emplace (k : A) (v : V) (m : list (A * V)) : list (A * V) :=
  match m with
  | [] => [(k, v)]
  | (k', v') :: t =>
      if ltb k k' then (k, v) :: m
      else (k', v') :: multimap_emplace k v t
  end.

Fixpoint lower_bound (k : A) (m : list (A * V)) : list (A * V) :=
  match m with
  | [] => []
  | (k', v') :: t => if ltb k' k then lower_bound k t else m
  end.

(** The pairs from an iterator up to [upper_bound(k)]. *)
Fixpoint until_upper_bound (k : A) (m : list (A * V)) : list (A * V) :=
  match m with
  | [] => []
  | (k', v') :: t => if ltb k k' then [] else (k', v') :: until_upper_bound k t
  end.

(** [m.equal_range(k)], as the pairs between its two iterators. *)
Definition equal_range (k : A) (m : list (A * V)) : list (A * V) :=
  until_upper_bound k (lower_bound k m).

(** The pairs of a multimap come with their keys in order. *)
Definition key_ordered (m : list (A * V)) : Prop :=
  StronglySorted (fun p q => ltb (fst q) (fst p) = false) m.

(** The key of the pair is equivalent to [k]. *)
Definition same_key (k : A) (p : A * V) : bool :=
  negb (ltb (fst p) k) && negb (ltb k (fst p)).

End WithOrder.

End Ordered.

(** ** sort *)

(** [std::stod] and the comparison of the doubles it returns.  [stod]
    is [None] where the C++ function throws ([std::invalid_argument] when
    no conversion can be done, [std::out_of_range] otherwise). *)
Class FloatParser : Type := {
  double : Type;
  stod : string -> option double;
  double_lt : double -> double -> bool
}.

Module Sort.

Record flags : Type := {
  reverse : bool;
  numeric : bool;
  unique : bool;
  key : Z;
  separator : string;
  ignore_case : bool
}.

(** The lambda [get_key] of [sort_impl]. *)
Definition get_key (key : Z) (separator : string) (line : string) : string :=
  if (key <=? 0)%Z then line
  else match separator with
       | EmptyString => nth_word (Z.to_nat key) line EmptyString
       | String sep _ => nth_field key sep line
       end.

Section Comparators.

Context `{FloatParser}.

Variable f : flags.

Definition key_of (line : string) : string := get_key (key f) (separator f) line.

(** [try { va = stod(get_key(a)); vb = stod(get_key(b)); return va < vb; }
     catch (...) { return a < b; }] *)
Definition numeric_less (a b : string) : bool :=
  match stod (key_of a) with
  | None => String.ltb a b
  | Some va =>
      match stod (key_of b) with
      | None => String.ltb a b
      | Some vb => double_lt va vb
      end
  end.

Definition ignore_case_less (a b : string) : bool :=
  String.ltb (string_map tolower (key_of a)) (string_map tolower (key_of b)).

Definition plain_less (a b : string) : bool :=
  String.ltb (key_of a) (key_of b).

(** The comparator handed to [std::sort], by the [if / else if / else]. *)
Definition comparator : string -> string -> bool :=
  if numeric f then numeric_less
  else if ignore_case f then ignore_case_less
  else plain_less.

End Comparators.

(** What [std::sort(first, last, comp)] guarantees.  The comparator has
    to be a strict weak ordering of the elements it is given; the result is
    then a rearrangement of the input in which no element is followed by a
    smaller one.  Nothing is promised about the relative order of
    equivalent elements, and nothing at all when the comparator is not a
    strict weak ordering. *)
Definition equiv {A : Type} (comp : A -> A -> bool) (a b : A) : bool :=
  negb (comp a b) && negb (comp b a).

Definition strict_weak_order_on {A : Type} (comp : A -> A -> bool) (l : list A) : Prop :=
  (forall a, In a l -> comp a a = false) /\
  (forall a b c, In a l -> In b l -> In c l ->
     comp a b = true -> comp b c = true -> comp a c = true) /\
  (forall a b c, In a l -> In b l -> In c l ->
     equiv comp a b = true -> equiv comp b c = true -> equiv comp a c = true).

Definition nondescending {A : Type} (comp : A -> A -> bool) (l : list A) : Prop :=
  StronglySorted (fun a b => comp b a = false) l.

Definition std_sort {A : Type} (comp : A -> A -> bool) (input output : list A) : Prop :=
  strict_weak_order_on comp input ->
  Permutation input output /\ nondescending comp output.

(** [std::unique] followed by [erase]: one line is kept of every run of
    equal adjacent lines. *)
Fixpoint std_unique (l : list string) : list string :=
  match l with
  | [] => []
  | x :: t =>
      match t with
      | [] => [x]
      | y :: _ => if String.eqb x y then std_unique t else x :: std_unique t
      end
  end.

(** The part of [sort_impl] after [std::sort]. *)
Definition arrange (f : flags) (sorted : list string) : list string :=
  let lines := if reverse f then rev sorted else sorted in
  if unique f then std_unique lines else lines.

(** [sort_impl] on the lines of the file: [out] is a possible return
    value. *)
Definition sort_lines `{FloatParser} (f : flags) (lines : list string) (out : string) : Prop :=
  exists sorted,
    std_sort (comparator f) lines sorted /\
    out = LineSource.put_lines (arrange f sorted).

Definition sort_impl `{FloatParser} (fs : LineSource.filesystem) (path : string)
    (f : flags) (out : result string) : Prop :=
  match LineSource.read_lines fs path with
  | Throw e => out = Throw e
  | Ok lines => exists s, sort_lines f lines s /\ out = Ok s
  end.

(** The key the comparator compares outside of numeric mode. *)
Definition compared_key (f : flags) (line : string) : string :=
  if ignore_case f then string_map tolower (key_of f line) else key_of f line.

(** The flags with [reverse] replaced. *)
Definition with_reverse (r : bool) (f : flags) : flags :=
  {| reverse := r; numeric := numeric f; unique := unique f; key := key f;
     separator := separator f; ignore_case := ignore_case f |}.

(** The specification's reading of "stable": the lines tied with any
    given line come out in the order they came in. *)
Definition stable {A : Type} (comp : A -> A -> bool) (input output : list A) : Prop :=
  forall x, filter (equiv comp x) output = filter (equiv comp x) input.

End Sort.

(** ** One implementation of [std::sort]

    The algorithm of the GNU C++ library ([bits/stl_algo.h], [std::__sort]):
    quicksort on a median of three down to ranges of 16 elements, then one
    insertion sort; an iterator is an index into the sequence.  The scans
    named "unguarded" rely on the comparator to stop inside of the range:
    where one would leave it the result is [None].  The heap sort that takes
    over when the depth limit is reached is not part of the model, and is
    [None] as well. *)

Module Libstdcxx.

Section Sort.

Context {A : Type} (comp : A -> A -> bool) (default : A).

Definition at_ (v : list A) (i : nat) : A := nth i v default.

Definition iter_swap (v : list A) (i j : nat) : list A :=
  list_set j (at_ v i) (list_set i (at_ v j) v).

(** [__move_median_to_first(result, a, b, c, comp)] *)
Definition move_median_to_first (v : list A) (result a b c : nat) : list A :=
  if comp (at_ v a) (at_ v b) then
    if comp (at_ v b) (at_ v c) then iter_swap v result b
    else if comp (at_ v a) (at_ v c) then iter_swap v result c
    else iter_swap v result a
  else if comp (at_ v a) (at_ v c) then iter_swap v result a
  else if comp (at_ v b) (at_ v c) then iter_swap v result c
  else iter_swap v result b.

(** [while (comp(first, pivot)) ++first;] *)
Fixpoint scan_up (fuel : nat) (v : list A) (pivot first : nat) : option nat :=
  match fuel with
  | O => None
  | S fuel' =>
      if (first <? length v)%nat then
        if comp (at_ v first) (at_ v pivot)
        then scan_up fuel' v pivot (S first)
        else Some first
      else None
  end.

(** [while (comp(pivot, last)) --last;] *)
Fixpoint scan_down (fuel : nat) (v : list A) (pivot last : nat) : option nat :=
  match fuel with
  | O => None
  | S fuel' =>
      if comp (at_ v pivot) (at_ v last) then
        match last with
        | O => None
        | S last' => scan_down fuel' v pivot last'
        end
      else Some last
  end.

(** [__unguarded_partition(first, last, pivot, comp)]: the sequence and
    the iterator returned. *)
Fixpoint unguarded_partition (fuel : nat) (v : list A) (first last pivot : nat)
    : option (list A * nat) :=
  match fuel with
  | O => None
  | S fuel' =>
      match scan_up (S (length v)) v pivot first, last with
      | Some first, S last =>
          match scan_down (S (length v)) v pivot last with
          | Some last =>
              if negb (first <? last)%nat then Some (v, first)
              else unguarded_partition fuel' (iter_swap v first last) (S first) last pivot
          | None => None
          end
      | _, _ => None
      end
  end.

(** [__unguarded_partition_pivot(first, last, comp)] *)
Definition unguarded_partition_pivot (v : list A) (first last : nat)
    : option (list A * nat) :=
  let mid := first + (last - first) / 2 in
  unguarded_partition (S (length v))
    (move_median_to_first v first (first + 1) mid (last - 1))
    (first + 1) last first.

(** [__introsort_loop(first, last, depth_limit, comp)]; [depth_limit]
    goes down at every turn of the loop and at every call. *)
Fixpoint introsort_loop (depth_limit : nat) (v : list A) (first last : nat)
    : option (list A) :=
  if (16 <? last - first)%nat then
    match depth_limit with
    | O => None
    | S depth_limit =>
        match unguarded_partition_pivot v first last with
        | Some (v, cut) =>
            match introsort_loop depth_limit v cut last with
            | Some v => introsort_loop depth_limit v first cut
            | None => None
            end
        | None => None
        end
    end
  else Some v.

(** The loop of [__unguarded_linear_insert(last, comp)], [val] being the
    element taken out. *)
Fixpoint linear_insert_loop (fuel : nat) (v : list A) (val : A) (last : nat)
    : option (list A) :=
  match fuel, last with
  | S fuel', S next =>
      if comp val (at_ v next)
      then linear_insert_loop fuel' (list_set last (at_ v next) v) val next
      else Some (list_set last val v)
  | _, _ => None
  end.

Definition unguarded_linear_insert (v : list A) (last : nat) : option (list A) :=
  linear_insert_loop (S (length v)) v (at_ v last) last.

(** The body of the loop of [__insertion_sort(first, last, comp)], with
    [std::move_backward(first, i, i + 1)] in its first branch. *)
Definition insertion_step (first : nat) (v : option (list A)) (i : nat) : option (list A) :=
  match v with
  | None => None
  | Some v =>
      if comp (at_ v i) (at_ v first) then
        Some (firstn first v ++ at_ v i :: firstn (i - first) (skipn first v)
                ++ skipn (S i) v)
      else unguarded_linear_insert v i
  end.

Definition insertion_sort (v : list A) (first last : nat) : option (list A) :=
  if (first =? last)%nat then Some v
  else fold_left (insertion_step first) (seq (S first) (last - S first)) (Some v).

Definition unguarded_insertion_sort (v : list A) (first last : nat) : option (list A) :=
  fold_left
    (fun v i => match v with Some v => unguarded_linear_insert v i | None => None end)
    (seq first (last - first)) (Some v).

(** [__final_insertion_sort(first, last, comp)] *)
Definition final_insertion_sort (v : list A) (first last : nat) : option (list A) :=
  if (16 <? last - first)%nat then
    match insertion_sort v first (first + 16) with
    | Some v => unguarded_insertion_sort v (first + 16) last
    | None => None
    end
  else insertion_sort v first last.

(** [std::sort(v.begin(), v.end(), comp)] *)
Definition sort (v : list A) : option (list A) :=
  match v with
  | [] => Some v
  | _ =>
      match introsort_loop (Nat.log2 (length v) * 2) v 0 (length v) with
      | Some v => final_insertion_sort v 0 (length v)
      | None => None
      end
  end.

End Sort.

End Libstdcxx.

(** ** diff *)

Module Diff.

(** [struct DiffLine { char type; std::string text; int line1; int line2; }],
    [type] being one of [' '], ['+'] and ['-']. *)
Record DiffLine : Type := {
  type : ascii;
  text : string;
  line1 : Z;
  line2 : Z
}.

Definition space : ascii := " "%char.
Definition plus : ascii := "+"%char.
Definition minus : ascii := "-"%char.

(** [std::vector<std::vector<int>> dp]. *)
Definition table : Type := list (list Z).

Definition dp_get (dp : table) (i j : nat) : Z := nth j (nth i dp []) 0%Z.

(** [dp[i][j] = v;] *)
Definition dp_set (dp : table) (i j : nat) (v : Z) : table :=
  list_set i (list_set j v (nth i dp [])) dp.

Section Lines.

Variables lines1 lines2 : list string.

Definition at1 (i : nat) : string := nth i lines1 EmptyString.
Definition at2 (j : nat) : string := nth j lines2 EmptyString.

(** The body of the inner loop of the table construction. *)
Definition dp_cell (dp : table) (i j : nat) : Z :=
  if String.eqb (at1 (i - 1)) (at2 (j - 1))
  then (dp_get dp (i - 1) (j - 1) + 1)%Z
  else Z.max (dp_get dp (i - 1) j) (dp_get dp i (j - 1)).

(** [for (int j = 1; j <= m; j++) ...] *)
Definition fill_row (dp : table) (i : nat) : table :=
  fold_left (fun dp j => dp_set dp i j (dp_cell dp i j)) (seq 1 (length lines2)) dp.

(** [dp(n + 1, std::vector<int>(m + 1, 0))] and
    [for (int i = 1; i <= n; i++) ...] *)
Definition dp_init : table :=
  repeat (repeat 0%Z (S (length lines2))) (S (length lines1)).

Definition dp_fill : table :=
  fold_left fill_row (seq 1 (length lines1)) dp_init.

(** The length of a longest common subsequence of the first [i] lines of
    the first file and the first [j] lines of the second, by the textbook
    recurrence: what the table is meant to hold. *)
Fixpoint lcs (i : nat) : nat -> Z :=
  match i with
  | O => fun _ => 0%Z
  | S i' =>
      fix row (j : nat) : Z :=
        match j with
        | O => 0%Z
        | S j' =>
            if String.eqb (at1 i') (at2 j')
            then (lcs i' j' + 1)%Z
            else Z.max (lcs i' j) (row j')
        end
  end.

(** The table has [n + 1] rows of [m + 1] cells. *)
Definition shape (n m : nat) (dp : table) : Prop :=
  length dp = S n /\ forall i, i <= n -> length (nth i dp []) = S m.

(** The invariant of the two loops that build the table: the rows above
    [i] and the cells of row [i] up to column [k] hold the recurrence, and
    column 0 holds 0. *)
Definition filled (i k : nat) (dp : table) : Prop :=
  shape (length lines1) (length lines2) dp /\
  (forall i', dp_get dp i' 0 = 0%Z) /\
  (forall i' j', i' <= length lines1 -> j' <= length lines2 ->
     i' < i \/ (i' = i /\ j' <= k) ->
     dp_get dp i' j' = lcs i' j').

(** The state of the backtracking loop: [i], [j] and [diffs]. *)
Record cursor : Type := {
  cur_i : nat;
  cur_j : nat;
  diffs : list DiffLine
}.

(** The body of [while (i > 0 || j > 0)]. *)
Definition backtrack_step (dp : table) (c : cursor) : cursor :=
  let i := cur_i c in
  let j := cur_j c in
  if (0 <? i)%nat && (0 <? j)%nat && String.eqb (at1 (i - 1)) (at2 (j - 1)) then
    {| cur_i := i - 1; cur_j := j - 1;
       diffs := diffs c ++ [{| type := space; text := at1 (i - 1);
                               line1 := Z.of_nat i; line2 := Z.of_nat j |}] |}
  else if (0 <? j)%nat &&
          ((i =? 0)%nat || (dp_get dp (i - 1) j <=? dp_get dp i (j - 1))%Z) then
    {| cur_i := i; cur_j := j - 1;
       diffs := diffs c ++ [{| type := plus; text := at2 (j - 1);
                               line1 := 0%Z; line2 := Z.of_nat j |}] |}
  else
    {| cur_i := i - 1; cur_j := j;
       diffs := diffs c ++ [{| type := minus; text := at1 (i - 1);
                               line1 := Z.of_nat i; line2 := 0%Z |}] |}.

(** The loop, run for at most [fuel] iterations. *)
Fixpoint backtrack_loop (dp : table) (fuel : nat) (c : cursor) : cursor :=
  match fuel with
  | O => c
  | S fuel' =>
      if (0 <? cur_i c)%nat || (0 <? cur_j c)%nat
      then backtrack_loop dp fuel' (backtrack_step dp c)
      else c
  end.

(** Every iteration lowers [i + j]: [n + m] iterations reach the exit
    of the loop (lemmas [backtrack_loop_exits] and [backtrack_loop_more_fuel]). *)
Definition backtrack : cursor :=
  backtrack_loop dp_fill (length lines1 + length lines2)
    {| cur_i := length lines1; cur_j := length lines2; diffs := [] |}.

(** The edit script: [diffs] after [std::reverse]. *)
Definition diff_lines : list DiffLine := rev (diffs backtrack).

End Lines.

(** The output loop; [context_lines] is not read. *)
Definition put_diff (unified : bool) (oss : string) (d : DiffLine) : string :=
  if negb (Ascii.eqb (type d) space) || unified
  then oss +:+ String (type d) (" " +:+ text d +:+ String newline EmptyString)
  else oss.

Definition diff_impl (fs : LineSource.filesystem) (file1 file2 : string)
    (unified : bool) (context_lines : Z) : result string :=
  lines1 <- LineSource.read_lines fs file1 ;;
  lines2 <- LineSource.read_lines fs file2 ;;
  let header :=
    if unified
    then "--- " +:+ file1 +:+ String newline ("+++ " +:+ file2 +:+ String newline EmptyString)
    else EmptyString in
  Ok (fold_left (put_diff unified) (diff_lines lines1 lines2) header).

(** Applying an edit script to the lines of the first file: a [' '] line
    keeps the next line, a ['-'] line skips it, a ['+'] line emits its own
    text.  The script applies when the lines it keeps and skips are the
    lines of the file, in order and all of them. *)
Fixpoint apply_script (script : list DiffLine) (a : list string) : option (list string) :=
  match script with
  | [] => match a with [] => Some [] | _ :: _ => None end
  | d :: rest =>
      if Ascii.eqb (type d) plus then
        option_map (cons (text d)) (apply_script rest a)
      else
        match a with
        | [] => None
        | x :: a' =>
            if String.eqb x (text d) then
              if Ascii.eqb (type d) space
              then option_map (cons x) (apply_script rest a')
              else if Ascii.eqb (type d) minus then apply_script rest a'
              else None
            else None
        end
  end.

(** The same reading without the first file at hand: the texts of the
    lines that are not deletions. *)
Definition emitted (script : list DiffLine) : list string :=
  map text (filter (fun d => negb (Ascii.eqb (type d) minus)) script).

(** The number of lines a script keeps. *)
Definition keeps (script : list DiffLine) : nat :=
  length (filter (fun d => Ascii.eqb (type d) space) script).

(** The number of insertions and deletions of a script. *)
Definition cost (script : list DiffLine) : nat :=
  length (filter (fun d => negb (Ascii.eqb (type d) space)) script).

End Diff.

(** ** cmp *)

Module Cmp.

(** The dictionary [cmp_impl] returns; an absent key is [None]. *)
Record report : Type := {
  identical : bool;
  byte_offset : option Z;
  line_number : option Z;
  message : option string
}.

(** The variables of [cmp_impl] after its [while] loop: what is left
    unread of each stream, the two counters and the flag. *)
Record state : Type := {
  ifs1 : string;
  ifs2 : string;
  offset : Z;
  line : Z;
  same : bool
}.

(** [while (ifs1.get(c1) && ifs2.get(c2)) { byte_offset++;
     if (c1 == '\n') line_number++;
     if (c1 != c2) { identical = false; break; } }]

    [ifs1.get(c1)] is evaluated first and takes a byte off the first
    stream whenever one is left, before [ifs2.get(c2)] is tried. *)
Fixpoint compare_loop (s1 s2 : string) (byte_offset line_number : Z) : state :=
  match s1 with
  | EmptyString =>
      {| ifs1 := s1; ifs2 := s2; offset := byte_offset; line := line_number; same := true |}
  | String c1 r1 =>
      match s2 with
      | EmptyString =>
          {| ifs1 := r1; ifs2 := s2; offset := byte_offset; line := line_number; same := true |}
      | String c2 r2 =>
          let byte_offset := (byte_offset + 1)%Z in
          let line_number :=
            if Ascii.eqb c1 newline then (line_number + 1)%Z else line_number in
          if negb (Ascii.eqb c1 c2)
          then {| ifs1 := r1; ifs2 := r2; offset := byte_offset; line := line_number; same := false |}
          else compare_loop r1 r2 byte_offset line_number
      end
  end.

(** [stream.get(c)] as a truth value: a byte is left to read. *)
Definition can_get (s : string) : bool :=
  match s with
  | EmptyString => false
  | String _ _ => true
  end.

(** [if (identical && (ifs1.get(c1) || ifs2.get(c2))) { identical = false; byte_offset++; }] *)
Definition after_loop (st : state) : state :=
  if same st && (can_get (ifs1 st) || can_get (ifs2 st))
  then {| ifs1 := ifs1 st; ifs2 := ifs2 st; offset := (offset st + 1)%Z;
          line := line st; same := false |}
  else st.

Definition compare_bytes (bytes1 bytes2 : string) : state :=
  after_loop (compare_loop bytes1 bytes2 0%Z 1%Z).

Definition make_report (file1 file2 : string) (silent : bool) (st : state) : report :=
  if negb (same st) && negb silent then
    {| identical := same st;
       byte_offset := Some (offset st);
       line_number := Some (line st);
       message := Some (file1 +:+ " " +:+ file2 +:+ " differ: byte " +:+
                        to_string (offset st) +:+ ", line " +:+ to_string (line st)) |}
  else
    {| identical := same st; byte_offset := None; line_number := None; message := None |}.

Definition cmp_impl (fs : LineSource.filesystem) (file1 file2 : string)
    (silent : bool) : result report :=
  match LineSource.ifstream fs file1 with
  | None => Throw (ValueError ("cmp: " +:+ file1 +:+ ": No such file or directory"))
  | Some bytes1 =>
      match LineSource.ifstream fs file2 with
      | None => Throw (ValueError ("cmp: " +:+ file2 +:+ ": No such file or directory"))
      | Some bytes2 => Ok (make_report file1 file2 silent (compare_bytes bytes1 bytes2))
      end
  end.

(** The number of newline bytes of a string. *)
Fixpoint newlines (s : string) : Z :=
  match s with
  | EmptyString => 0%Z
  | String c r => ((if Ascii.eqb c newline then 1 else 0) + newlines r)%Z
  end.

End Cmp.

(** ** comm *)

Module Comm.

Record report : Type := {
  only_in_first : list string;
  only_in_second : list string;
  in_both : list string
}.

(** The first loop, over [set1]: a line goes to [in_both] or to
    [only_in_1]. *)
Definition first_loop (set2 : list string) (acc : list string * list string)
    (line : string) : list string * list string :=
  let (only_in_1, in_both) := acc in
  if Ordered.set_count String.ltb line set2
  then (only_in_1, in_both ++ [line])
  else (only_in_1 ++ [line], in_both).

(** The second loop, over [set2]. *)
Definition second_loop (set1 : list string) (only_in_2 : list string)
    (line : string) : list string :=
  if negb (Ordered.set_count String.ltb line set1)
  then only_in_2 ++ [line]
  else only_in_2.

Definition comm_lines (lines1 lines2 : list string) : report :=
  let set1 := Ordered.set_of_list String.ltb lines1 in
  let set2 := Ordered.set_of_list String.ltb lines2 in
  let (only_in_1, in_both) := fold_left (first_loop set2) set1 ([], []) in
  let only_in_2 := fold_left (second_loop set1) set2 [] in
  {| only_in_first := only_in_1; only_in_second := only_in_2; in_both := in_both |}.

Definition comm_impl (fs : LineSource.filesystem) (file1 file2 : string) : result report :=
  lines1 <- LineSource.read_lines fs file1 ;;
  lines2 <- LineSource.read_lines fs file2 ;;
  Ok (comm_lines lines1 lines2).

End Comm.

(** ** cut *)

Module Cut.

Definition tab : ascii := ascii_of_nat 9.

Definition is_digit (c : ascii) : bool :=
  let n := nat_of_ascii c in (48 <=? n)%nat && (n <=? 57)%nat.

Definition digit_value (c : ascii) : Z := Z.of_nat (nat_of_ascii c - 48).

(** The value of the decimal digits at the head of [s], [acc] being the
    value read so far, [None] before the first digit. *)
Fixpoint read_digits (s : string) (acc : option Z) : option Z :=
  match s with
  | EmptyString => acc
  | String c r =>
      if is_digit c
      then read_digits r
             (Some (10 * match acc with Some v => v | None => 0 end + digit_value c)%Z)
      else acc
  end.

Definition int_min : Z := (- 2 ^ 31)%Z.
Definition int_max : Z := (2 ^ 31 - 1)%Z.

(** [std::stoi(s)]: white space, an optional sign and decimal digits, up
    to the first character that is none; [std::invalid_argument] without a
    digit, [std::out_of_range] outside of [int]. *)
Definition stoi (s : string) : result Z :=
  let s1 := skipws s in
  let (negative, s2) :=
    match s1 with
    | String "-"%char r => (true, r)
    | String "+"%char r => (false, r)
    | _ => (false, s1)
    end in
  match read_digits s2 None with
  | None => Throw InvalidArgument
  | Some v =>
      let v := if negative then (- v)%Z else v in
      if (int_min <=? v)%Z && (v <=? int_max)%Z then Ok v else Throw OutOfRange
  end.

(** The integers of [for (int i = start; i <= end; i++)], for an [end]
    below [INT_MAX]. *)
Definition int_range (first last : Z) : list Z :=
  map (fun k => (first + Z.of_nat k)%Z) (seq 0 (Z.to_nat (last - first + 1))).

(** One comma-separated part of the selector.  In a range that ends at
    [INT_MAX] the test [i <= end] holds for every [int], and [i++]
    overflows: the loop has no exit. *)
Definition add_part (field_set : list Z) (part : string) : result (list Z) :=
  match find "-"%char part with
  | Some dash =>
      first <- stoi (substr_to dash part) ;;
      last <- stoi (substr_from (S dash) part) ;;
      if (last =? int_max)%Z then Throw Undefined
      else Ok (Ordered.set_insert_all Z.ltb (int_range first last) field_set)
  | None =>
      f <- stoi part ;;
      Ok (Ordered.set_insert Z.ltb f field_set)
  end.

(** [while (std::getline(fss, part, ',')) ...], building the
    [std::set<int> field_set]. *)
Definition parse_fields (fields : string) : result (list Z) :=
  fold_left (fun acc part => field_set <- acc ;; add_part field_set part)
    (getline_all ","%char fields) (Ok []).

(** The line has a field of index [f]. *)
Definition in_range (tokens : list string) (f : Z) : bool :=
  (1 <=? f)%Z && (f <=? Z.of_nat (length tokens))%Z.

(** [tokens[f - 1]] *)
Definition token (tokens : list string) (f : Z) : string :=
  nth (Z.to_nat (f - 1)) tokens EmptyString.

(** The state of the loop over [field_set]: the output stream and
    [first]. *)
Definition put_field (sep : ascii) (tokens : list string)
    (acc : string * bool) (f : Z) : string * bool :=
  let (oss, first) := acc in
  if in_range tokens f then
    ((if first then oss else oss +:+ String sep EmptyString) +:+ token tokens f, false)
  else acc.

(** The body of the loop over the lines. *)
Definition cut_line (sep : ascii) (field_set : list Z) (oss : string)
    (line : string) : string :=
  let tokens := getline_all sep line in
  fst (fold_left (put_field sep tokens) field_set (oss, true))
    +:+ String newline EmptyString.

Definition separator_of (delimiter : string) : ascii :=
  match delimiter with
  | EmptyString => tab
  | String c _ => c
  end.

Definition cut_impl (fs : LineSource.filesystem) (path delimiter fields : string)
    : result string :=
  lines <- LineSource.read_lines fs path ;;
  field_set <- parse_fields fields ;;
  Ok (fold_left (cut_line (separator_of delimiter) field_set) lines EmptyString).



End Cut.

(** ** join *)

Module Join.

Definition separator_of (separator : string) : ascii :=
  match separator with
  | EmptyString => " "%char
  | String c _ => c
  end.

(** The lambda [get_field] of [join_impl]. *)
Definition get_field (sep : ascii) (line : string) (field : Z) : string :=
  if Ascii.eqb sep " "%char
  then nth_word (Z.to_nat field) line EmptyString
  else nth_field field sep line.

(** [std::multimap<std::string, std::string> index2]. *)
Definition build_index (sep : ascii) (field2 : Z) (lines2 : list string)
    : list (string * string) :=
  fold_left
    (fun index2 line => Ordered.multimap_emplace String.ltb (get_field sep line field2) line index2)
    lines2 [].

(** [oss << line << sep << it->second << "\n"] *)
Definition row (sep : ascii) (line other : string) : string :=
  line +:+ String sep other.

(** The rows written for one line of the first file. *)
Definition rows_of (sep : ascii) (field1 : Z) (index2 : list (string * string))
    (line : string) : list string :=
  map (fun kv => row sep line (snd kv))
    (Ordered.equal_range String.ltb (get_field sep line field1) index2).

Definition put_rows (oss : string) (rows : list string) : string :=
  fold_left (fun oss r => oss +:+ r +:+ String newline EmptyString) rows oss.

Definition join_rows (lines1 lines2 : list string) (field1 field2 : Z)
    (separator : string) : list string :=
  let sep := separator_of separator in
  let index2 := build_index sep field2 lines2 in
  flat_map (rows_of sep field1 index2) lines1.

Definition join_lines (lines1 lines2 : list string) (field1 field2 : Z)
    (separator : string) : string :=
  let sep := separator_of separator in
  let index2 := build_index sep field2 lines2 in
  fold_left (fun oss line => put_rows oss (rows_of sep field1 index2 line))
    lines1 EmptyString.

Definition join_impl (fs : LineSource.filesystem) (file1 file2 : string)
    (field1 field2 : Z) (separator : string) : result string :=
  lines1 <- LineSource.read_lines fs file1 ;;
  lines2 <- LineSource.read_lines fs file2 ;;
  Ok (join_lines lines1 lines2 field1 field2 separator).

(** The lines of the second file whose key is the key of [line]. *)
Definition matches (sep : ascii) (field1 field2 : Z) (lines2 : list string)
    (line : string) : list string :=
  filter (fun other => String.eqb (get_field sep other field2) (get_field sep line field1))
    lines2.

End Join.

(** ** grep *)

(** [std::regex]: the constructor, which throws [std::regex_error] (here
    the right injection, with the text of [what()]) on a pattern that is not
    valid ECMAScript syntax, and [std::regex_search]. *)
Class RegexEngine : Type := {
  regex : Type;
  regex_compile : string -> bool -> regex + string;
  regex_search : string -> regex -> bool
}.

Module Grep.

(** The accesses to the file system, in the order they are made. *)
Inductive event : Type :=
| Exists (p : string)
| IsRegularFile (p : string)
| IsDirectory (p : string)
| Iterate (p : string)
| EntryIsRegularFile (p : string)
| ReadLines (p : string).

(** A computation that may throw and that logs its accesses; the log
    survives a throw. *)
Definition io (A : Type) : Type := list event -> result A * list event.

Definition ret {A : Type} (a : A) : io A := fun log => (Ok a, log).

Definition throw {A : Type} (e : exn) : io A := fun log => (Throw e, log).

Definition iobind {A B : Type} (m : io A) (k : A -> io B) : io B :=
  fun log =>
    match m log with
    | (Ok a, log') => k a log'
    | (Throw e, log') => (Throw e, log')
    end.

Notation "x <~ m ;; k" := (iobind m (fun x => k))
  (at level 61, m at next level, right associativity).

Definition access {A : Type} (e : event) (r : result A) : io A :=
  fun log => (r, log ++ [e]).

Section FileSystem.

Variable fs : LineSource.filesystem.

Definition regular (p : string) : bool :=
  match fs p with
  | Some (LineSource.RegularFile _) => true
  | _ => false
  end.

Definition exists_ (p : string) : io bool :=
  access (Exists p) (Ok (match fs p with Some _ => true | None => false end)).

Definition is_regular_file (p : string) : io bool :=
  access (IsRegularFile p) (Ok (regular p)).

Definition is_directory (p : string) : io bool :=
  access (IsDirectory p)
    (Ok (match fs p with Some (LineSource.Directory _) => true | _ => false end)).

Definition recursive_directory_iterator (p : string) : io (list string) :=
  access (Iterate p)
    (Ok (match fs p with Some (LineSource.Directory walk) => walk | _ => [] end)).

Definition entry_is_regular_file (p : string) : io bool :=
  access (EntryIsRegularFile p) (Ok (regular p)).

Definition read_lines (p : string) : io (list string) :=
  access (ReadLines p) (LineSource.read_lines fs p).

(** [for (auto& entry : ...) if (entry.is_regular_file()) files_to_search.push_back(...)] *)
Fixpoint push_regular_files (entries files_to_search : list string) : io (list string) :=
  match entries with
  | [] => ret files_to_search
  | entry :: rest =>
      regular <~ entry_is_regular_file entry ;;
      push_regular_files rest
        (if regular then files_to_search ++ [entry] else files_to_search)
  end.

(** The lambda [collect_files], from an empty [files_to_search]. *)
Definition collect_files (recursive : bool) (p : string) : io (list string) :=
  found <~ exists_ p ;;
  if negb found then
    throw (ValueError ("grep: " +:+ p +:+ ": No such file or directory"))
  else
    regular <~ is_regular_file p ;;
    if regular then ret [p]
    else
      directory <~ is_directory p ;;
      if directory && recursive then
        entries <~ recursive_directory_iterator p ;;
        push_regular_files entries []
      else
        directory <~ is_directory p ;;
        if directory then
          throw (ValueError ("grep: " +:+ p +:+ ": Is a directory (use recursive=True)"))
        else ret [].

(** One entry of the default result: the keys ["file"] and
    ["line_number"] may be absent. *)
Record entry : Type := {
  file : option string;
  number : option Z;
  line : string
}.

(** The three shapes of the result. *)
Inductive answer : Type :=
| Counts (counts : list (string * Z))
| Files (matching_files : list string)
| Entries (results : list entry).

(** [counts[file] = match_count] on a [py::dict]. *)
Fixpoint dict_set (file : string) (n : Z) (counts : list (string * Z)) : list (string * Z) :=
  match counts with
  | [] => [(file, n)]
  | (k, v) :: t =>
      if String.eqb k file then (k, n) :: t else (k, v) :: dict_set file n t
  end.

Context `{RegexEngine}.

(** [bool match = std::regex_search(line, re); if (invert) match = !match;] *)
Definition matching (re : regex) (invert : bool) (line : string) : bool :=
  let m := regex_search line re in
  if invert then negb m else m.

Fixpoint count_loop (re : regex) (invert : bool) (files : list string)
    (counts : list (string * Z)) : io (list (string * Z)) :=
  match files with
  | [] => ret counts
  | f :: rest =>
      lines <~ read_lines f ;;
      let match_count := Z.of_nat (length (filter (matching re invert) lines)) in
      count_loop re invert rest (dict_set f match_count counts)
  end.

Fixpoint files_loop (re : regex) (invert : bool) (files : list string)
    (matching_files : list string) : io (list string) :=
  match files with
  | [] => ret matching_files
  | f :: rest =>
      lines <~ read_lines f ;;
      files_loop re invert rest
        (if existsb (matching re invert) lines then matching_files ++ [f] else matching_files)
  end.

(** The entries of one file, [i] being the index of the first of
    [lines]. *)
Fixpoint entries_of (re : regex) (invert multi_file line_numbers : bool)
    (f : string) (i : Z) (lines : list string) : list entry :=
  match lines with
  | [] => []
  | l :: rest =>
      let tail := entries_of re invert multi_file line_numbers f (i + 1)%Z rest in
      if matching re invert l then
        {| file := if multi_file then Some f else None;
           number := if line_numbers then Some (i + 1)%Z else None;
           line := l |} :: tail
      else tail
  end.

Fixpoint entries_loop (re : regex) (invert multi_file line_numbers : bool)
    (files : list string) (results : list entry) : io (list entry) :=
  match files with
  | [] => ret results
  | f :: rest =>
      lines <~ read_lines f ;;
      entries_loop re invert multi_file line_numbers rest
        (results ++ entries_of re invert multi_file line_numbers f 0%Z lines)
  end.

(** [if (whole_word) regex_pattern = "\\b" + regex_pattern + "\\b";] *)
Definition regex_pattern (pattern : string) (whole_word : bool) : string :=
  if whole_word then "\b" +:+ pattern +:+ "\b" else pattern.

Definition grep_impl (pattern path : string)
    (ignore_case recursive line_numbers count_only invert files_only whole_word : bool)
    : io answer :=
  files_to_search <~ collect_files recursive path ;;
  match regex_compile (regex_pattern pattern whole_word) ignore_case with
  | inr what => throw (ValueError ("grep: invalid regex pattern: " +:+ what))
  | inl re =>
      let multi_file := (1 <? length files_to_search)%nat in
      if count_only then
        counts <~ count_loop re invert files_to_search [] ;;
        ret (Counts counts)
      else if files_only then
        matching_files <~ files_loop re invert files_to_search [] ;;
        ret (Files matching_files)
      else
        results <~ entries_loop re invert multi_file line_numbers files_to_search [] ;;
        ret (Entries results)
  end.

End FileSystem.


(** The three errors of a call. *)
Definition no_such_file (path : string) : exn :=
  ValueError ("grep: " +:+ path +:+ ": No such file or directory").

Definition is_a_directory (path : string) : exn :=
  ValueError ("grep: " +:+ path +:+ ": Is a directory (use recursive=True)").



End Grep.

(** ** Reference instances

    Two small instances of the library interfaces, on which the examples
    below are evaluated. *)

Module Reference.

(** Decimal literals: white space, an optional sign, digits with an
    optional fraction.  The value [mantissa / 10 ^ scale] is kept exactly.
    On such a text, when a double holds the value exactly, this is what
    [std::stod] returns; a key without a digit is refused, as [std::stod]
    refuses it. *)
Record decimal : Type := {
  mantissa : Z;
  scale : nat
}.

Definition decimal_lt (a b : decimal) : bool :=
  (mantissa a * 10 ^ Z.of_nat (scale b) <? mantissa b * 10 ^ Z.of_nat (scale a))%Z.

(** The digits at the head of [s]: their value on top of [acc], their
    number, and what follows them. *)
Fixpoint digits (s : string) (acc : Z) (count : nat) : Z * nat * string :=
  match s with
  | EmptyString => (acc, count, s)
  | String c r =>
      if Cut.is_digit c
      then digits r (10 * acc + Cut.digit_value c)%Z (S count)
      else (acc, count, s)
  end.

Definition parse_decimal (s : string) : option decimal :=
  let s1 := skipws s in
  let (negative, s2) :=
    match s1 with
    | String "-"%char r => (true, r)
    | String "+"%char r => (false, r)
    | _ => (false, s1)
    end in
  let '(whole, n1, s3) := digits s2 0%Z O in
  let '(m, n2) :=
    match s3 with
    | String "."%char r => let '(v, n, _) := digits r whole O in (v, n)
    | _ => (whole, O)
    end in
  if (n1 + n2 =? 0)%nat then None
  else Some {| mantissa := if negative then (- m)%Z else m; scale := n2 |}.

#[export] Instance decimal_parser : FloatParser := {
  double := decimal;
  stod := parse_decimal;
  double_lt := decimal_lt
}.

(** Patterns without metacharacters, matched as plain text; a pattern
    whose parentheses do not match is refused, as it is by the ECMAScript
    grammar of [std::regex]. *)
Fixpoint balanced (s : string) (depth : nat) : bool :=
  match s with
  | EmptyString => (depth =? 0)%nat
  | String c r =>
      if Ascii.eqb c "("%char then balanced r (S depth)
      else if Ascii.eqb c ")"%char then
        match depth with
        | O => false
        | S d => balanced r d
        end
      else balanced r depth
  end.

Definition contains (text pattern : string) : bool :=
  match String.index 0 pattern text with
  | Some _ => true
  | None => false
  end.

#[export] Instance plain_text_engine : RegexEngine := {
  regex := string;
  regex_compile := fun pattern _ =>
    if balanced pattern 0 then inl pattern else inr "mismatched parentheses";
  regex_search := contains
}.

(** Seventeen lines with the same first word, and the flags that sort on
    the first word. *)
Definition tied_lines : list string :=
  ["k 01"; "k 02"; "k 03"; "k 04"; "k 05"; "k 06"; "k 07"; "k 08"; "k 09";
   "k 10"; "k 11"; "k 12"; "k 13"; "k 14"; "k 15"; "k 16"; "k 17"].

(** A file system with one file, ["data"], that holds these lines. *)
Definition tied_file : LineSource.filesystem :=
  LineSource.two_files "data" (LineSource.put_lines tied_lines) "" "".

Definition by_first_word : Sort.flags :=
  {| Sort.reverse := false; Sort.numeric := false; Sort.unique := false;
     Sort.key := 1%Z; Sort.separator := EmptyString; Sort.ignore_case := false |}.

End Reference.

(** ** cat, echo, head, tail *)

Module Text.

Definition tab : ascii := ascii_of_nat 9.
Definition carriage_return : ascii := ascii_of_nat 13.

(** [chars.find(c) != npos] *)
Fixpoint has_char (c : ascii) (chars : string) : bool :=
  match chars with
  | EmptyString => false
  | String d r => Ascii.eqb c d || has_char c r
  end.

(** [s.find_first_not_of(chars)]: [None] is [npos]. *)
Fixpoint find_first_not_of (chars : string) (s : string) : option nat :=
  match s with
  | EmptyString => None
  | String c r =>
      if has_char c chars then
        match find_first_not_of chars r with
        | Some p => Some (S p)
        | None => None
        end
      else Some O
  end.

(** The characters of [" \t\r\n"]. *)
Definition blanks : string :=
  String " "%char (String tab (String carriage_return (String newline EmptyString))).

(** [line.empty() || line.find_first_not_of(" \t\r\n") == std::string::npos] *)
Definition is_blank (line : string) : bool :=
  match line with
  | EmptyString => true
  | _ => match find_first_not_of blanks line with
         | None => true
         | Some _ => false
         end
  end.

(** The variables of the loop of [cat_impl]. *)
Record cat_state : Type := {
  oss : string;
  line_num : Z;
  prev_blank : bool
}.

(** The body of the loop of [cat_impl]; the [continue] leaves the three
    variables as they are. *)
Definition cat_step (number_lines squeeze_blank : bool) (st : cat_state)
    (line : string) : cat_state :=
  let blank := is_blank line in
  if squeeze_blank && blank && prev_blank st then st
  else
    {| oss :=
         (if number_lines
          then oss st +:+ "     " +:+ to_string (line_num st) +:+ String tab EmptyString
          else oss st)
         +:+ line +:+ String newline EmptyString;
       line_num := if number_lines then (line_num st + 1)%Z else line_num st;
       prev_blank := blank |}.

Definition cat_lines (number_lines squeeze_blank : bool) (lines : list string) : string :=
  oss (fold_left (cat_step number_lines squeeze_blank) lines
         {| oss := EmptyString; line_num := 1%Z; prev_blank := false |}).

Definition cat_impl (fs : LineSource.filesystem) (path : string)
    (number_lines squeeze_blank : bool) : result string :=
  lines <- LineSource.read_lines fs path ;;
  Ok (cat_lines number_lines squeeze_blank lines).

Definition echo_impl (text : string) (no_newline : bool) : string :=
  if no_newline then text else text +:+ String newline EmptyString.

(** [for (int i = first; i < last; i++) oss << lines[i] << "\n";] *)
Definition put_range (lines : list string) (first last : Z) : string :=
  fold_left
    (fun oss i => oss +:+ nth i lines EmptyString +:+ String newline EmptyString)
    (seq (Z.to_nat first) (Z.to_nat (last - first))) EmptyString.

(** The line branch of [head_impl]. *)
Definition head_lines (lines : list string) (n : Z) : string :=
  let count := Z.min n (Z.of_nat (length lines)) in
  put_range lines 0 count.

(** The byte branch of [head_impl]: [ifs.read(&buf[0], bytes)] and
    [buf.resize(ifs.gcount())]. *)
Definition head_bytes (content : string) (bytes : Z) : string :=
  substr_to (Z.to_nat bytes) content.

Definition head_impl (fs : LineSource.filesystem) (path : string) (n bytes : Z)
    : result string :=
  if (0 <? bytes)%Z then
    match LineSource.ifstream fs path with
    | None => Throw (ValueError ("head: cannot open '" +:+ path +:+ "'"))
    | Some content => Ok (head_bytes content bytes)
    end
  else
    lines <- LineSource.read_lines fs path ;;
    Ok (head_lines lines n).

(** [total - n] on [int], [total] being the size of a vector and [n] an
    [int] of the caller.  The difference leaves [int] only upwards, and only
    for a negative [n]; it then wraps around to a negative number. *)
Definition int_sub (total n : Z) : Z :=
  let difference := (total - n)%Z in
  if (n <? 0)%Z && (Cut.int_max <? difference)%Z
  then (difference - 2 ^ 32)%Z
  else difference.

(** The line branch of [tail_impl]. *)
Definition tail_lines (lines : list string) (n : Z) : string :=
  let total := Z.of_nat (length lines) in
  let start := Z.max 0 (int_sub total n) in
  put_range lines start total.

(** The byte branch of [tail_impl]: the stream is opened at its end,
    [size] is its position there, and [read_bytes] bytes are read from
    [read_bytes] before the end. *)
Definition tail_bytes (content : string) (bytes : Z) : string :=
  let size := Z.of_nat (String.length content) in
  let read_bytes := Z.min size bytes in
  substr_to (Z.to_nat read_bytes) (substr_from (Z.to_nat (size - read_bytes)) content).

(** In the byte branch the stream is opened with [std::ios::ate], and
    the open seeks to the end: that of a regular file.  On a directory the
    seek is a matter of the file system: tmpfs refuses it and the open
    fails; ext4 gives a position that does not fit [int], and the buffer
    cannot be made ([std::length_error]).  The call throws either way; the
    model takes the open to fail. *)
Definition tail_impl (fs : LineSource.filesystem) (path : string) (n bytes : Z)
    : result string :=
  if (0 <? bytes)%Z then
    match LineSource.open fs path with
    | None => Throw (ValueError ("tail: cannot open '" +:+ path +:+ "'"))
    | Some content => Ok (tail_bytes content bytes)
    end
  else
    lines <- LineSource.read_lines fs path ;;
    Ok (tail_lines lines n).

(** No character of the line is a newline. *)
Fixpoint no_newline (line : string) : bool :=
  match line with
  | EmptyString => true
  | String c r => negb (Ascii.eqb c newline) && no_newline r
  end.

(** The last character of the text is a newline. *)
Fixpoint ends_with_newline (s : string) : bool :=
  match s with
  | EmptyString => false
  | String c EmptyString => Ascii.eqb c newline
  | String _ r => ends_with_newline r
  end.

(** The lines the loop of [cat_impl] does not pass over when
    [squeeze_blank] is set, [prev] being [prev_blank]. *)
Fixpoint squeeze (prev : bool) (lines : list string) : list string :=
  match lines with
  | [] => []
  | x :: t =>
      if is_blank x && prev then squeeze prev t
      else x :: squeeze (is_blank x) t
  end.

(** What [cat_impl] returns for a file of the given content: the content,
    closed by a newline if it is not empty and has none at its end. *)
Definition closed (content : string) : string :=
  match content with
  | EmptyString => EmptyString
  | _ => if ends_with_newline content then content
         else content +:+ String newline EmptyString
  end.


End Text.

(** ** wc *)

Module Wc.

(** The variables of the loop of [wc_impl]. *)
Record counters : Type := {
  line_count : Z;
  word_count : Z;
  char_count : Z;
  byte_count : Z;
  in_word : bool
}.

(** The body of [while (ifs.get(c))]. *)
Definition count_byte (st : counters) (c : ascii) : counters :=
  let space := isspace c in
  {| line_count := if Ascii.eqb c newline then (line_count st + 1)%Z else line_count st;
     word_count :=
       if space then word_count st
       else if negb (in_word st) then (word_count st + 1)%Z else word_count st;
     char_count := (char_count st + 1)%Z;
     byte_count := (byte_count st + 1)%Z;
     in_word := if space then false else true |}.

Fixpoint count_loop (content : string) (st : counters) : counters :=
  match content with
  | EmptyString => st
  | String c r => count_loop r (count_byte st c)
  end.

Definition count_bytes (content : string) : counters :=
  count_loop content
    {| line_count := 0; word_count := 0; char_count := 0; byte_count := 0;
       in_word := false |}.

(** The dictionary [wc_impl] returns; an absent key is [None]. *)
Record report : Type := {
  file : string;
  lines : option Z;
  words : option Z;
  chars : option Z;
  bytes : option Z
}.

Definition make_report (path : string)
    (lines_only words_only chars_only bytes_only : bool) (st : counters) : report :=
  if lines_only then
    {| file := path; lines := Some (line_count st); words := None; chars := None;
       bytes := None |}
  else if words_only then
    {| file := path; lines := None; words := Some (word_count st); chars := None;
       bytes := None |}
  else if chars_only then
    {| file := path; lines := None; words := None; chars := Some (char_count st);
       bytes := None |}
  else if bytes_only then
    {| file := path; lines := None; words := None; chars := None;
       bytes := Some (byte_count st) |}
  else
    {| file := path; lines := Some (line_count st); words := Some (word_count st);
       chars := Some (char_count st); bytes := Some (byte_count st) |}.

Definition wc_impl (fs : LineSource.filesystem) (path : string)
    (lines_only words_only chars_only bytes_only : bool) : result report :=
  match LineSource.ifstream fs path with
  | None => Throw (ValueError ("wc: " +:+ path +:+ ": No such file or directory"))
  | Some content =>
      Ok (make_report path lines_only words_only chars_only bytes_only
            (count_bytes content))
  end.

(** The words [stream >> token] takes out of a stream, one after the
    other, until it fails: [pending] is the word being read, [None] between
    two words. *)
Fixpoint words_from (pending : option string) (s : string) : list string :=
  match s with
  | EmptyString =>
      match pending with
      | Some w => [w]
      | None => []
      end
  | String c r =>
      if isspace c then
        match pending with
        | Some w => w :: words_from None r
        | None => words_from None r
        end
      else
        words_from
          (Some (match pending with
                 | Some w => w +:+ String c EmptyString
                 | None => String c EmptyString
                 end)) r
  end.

Definition words_of (s : string) : list string := words_from None s.

End Wc.

(** ** paste *)

Module Paste.

(** [for (file : files) { lines = read_lines(file);
     max_lines = std::max(max_lines, lines.size()); all_lines.push_back(lines); }] *)
Fixpoint read_all (fs : LineSource.filesystem) (files : list string)
    (all_lines : list (list string)) (max_lines : nat)
    : result (list (list string) * nat) :=
  match files with
  | [] => Ok (all_lines, max_lines)
  | f :: rest =>
      lines <- LineSource.read_lines fs f ;;
      read_all fs rest (all_lines ++ [lines]) (Nat.max max_lines (length lines))
  end.

(** The body of the inner loop, over the files. *)
Definition put_cell (all_lines : list (list string)) (sep : string) (i : nat)
    (oss : string) (f : nat) : string :=
  let oss := if (0 <? f)%nat then oss +:+ sep else oss in
  if (i <? length (nth f all_lines []))%nat
  then oss +:+ nth i (nth f all_lines []) EmptyString
  else oss.

(** The body of the outer loop, over the rows. *)
Definition put_row (all_lines : list (list string)) (sep : string)
    (oss : string) (i : nat) : string :=
  fold_left (put_cell all_lines sep i) (seq 0 (length all_lines)) oss
    +:+ String newline EmptyString.

Definition separator_of (delimiter : string) : string :=
  match delimiter with
  | EmptyString => String Text.tab EmptyString
  | _ => delimiter
  end.

Definition paste_lines (all_lines : list (list string)) (max_lines : nat)
    (delimiter : string) : string :=
  fold_left (put_row all_lines (separator_of delimiter)) (seq 0 max_lines) EmptyString.

Definition paste_impl (fs : LineSource.filesystem) (files : list string)
    (delimiter : string) : result string :=
  read <- read_all fs files [] 0 ;;
  Ok (paste_lines (fst read) (snd read) delimiter).

(** The cell of file [f] in row [i]: its line, or nothing. *)
Definition cell (all_lines : list (list string)) (i f : nat) : string :=
  nth i (nth f all_lines []) EmptyString.

(** No character of the line is [c]. *)
Fixpoint free_of (c : ascii) (line : string) : bool :=
  match line with
  | EmptyString => true
  | String d r => negb (Ascii.eqb d c) && free_of c r
  end.

End Paste.

(** ** find: the name filter *)

Module Find.

Definition star : ascii := "*"%char.

(** [s.back()] of the string [String c r]. *)
Fixpoint back (c : ascii) (r : string) : ascii :=
  match r with
  | EmptyString => c
  | String d r' => back d r'
  end.

Definition size (s : string) : N := N.of_nat (String.length s).

(** [a - b] on [size_t], for [a] and [b] below [2 ^ 64]: the difference
    wraps around. *)
Definition size_sub (a b : N) : N :=
  if (b <=? a)%N then (a - b)%N else (2 ^ 64 - (b - a))%N.

(** [s.substr(pos, count)] for [pos <= s.size()]: at most [count]
    characters from [pos] on. *)
Fixpoint take (count : N) (s : string) : string :=
  match s with
  | EmptyString => EmptyString
  | String c r =>
      if (count =? 0)%N then EmptyString else String c (take (N.pred count) r)
  end.

Definition substr (pos : nat) (count : N) (s : string) : string :=
  take count (substr_from pos s).

Fixpoint starts_with (p s : string) : bool :=
  match p, s with
  | EmptyString, _ => true
  | String a p', String b s' => Ascii.eqb a b && starts_with p' s'
  | String _ _, EmptyString => false
  end.

(** [s.find(p) != std::string::npos] *)
Fixpoint contains (p s : string) : bool :=
  match s with
  | EmptyString => starts_with p s
  | String _ r => starts_with p s || contains p r
  end.

(** The lambda [matches_name] of [find_impl], [fname] being the file
    name of the entry. *)
Definition matches_name (name fname : string) : bool :=
  match name with
  | EmptyString => true
  | String front rest =>
      if Ascii.eqb front star && Ascii.eqb (back front rest) star then
        let pattern := substr 1 (size_sub (size name) 2) name in
        contains pattern fname
      else if Ascii.eqb front star then
        let suffix := substr_from 1 name in
        (size suffix <=? size fname)%N &&
        String.eqb
          (substr (String.length fname - String.length suffix) (size suffix) fname) suffix
      else if Ascii.eqb (back front rest) star then
        let prefix := substr 0 (size_sub (size name) 1) name in
        String.eqb (substr 0 (size prefix) fname) prefix
      else String.eqb fname name
  end.

End Find.

(** ** ls: the permission column *)

Module Perms.

(** The values of [std::filesystem::perms], a bit mask. *)
Definition none : Z := 0.
Definition owner_read : Z := 256.
Definition owner_write : Z := 128.
Definition owner_exec : Z := 64.
Definition group_read : Z := 32.
Definition group_write : Z := 16.
Definition group_exec : Z := 8.
Definition others_read : Z := 4.
Definition others_write : Z := 2.
Definition others_exec : Z := 1.

(** [(p & bit) != fs::perms::none ? yes : "-"] *)
Definition flag (p bit : Z) (yes : string) : string :=
  if negb (Z.land p bit =? none)%Z then yes else "-".

Definition permissions_string (p : Z) : string :=
  let s := EmptyString in
  let s := s +:+ flag p owner_read "r" in
  let s := s +:+ flag p owner_write "w" in
  let s := s +:+ flag p owner_exec "x" in
  let s := s +:+ flag p group_read "r" in
  let s := s +:+ flag p group_write "w" in
  let s := s +:+ flag p group_exec "x" in
  let s := s +:+ flag p others_read "r" in
  let s := s +:+ flag p others_write "w" in
  let s := s +:+ flag p others_exec "x" in
  s.

End Perms.

(** * Properties *)

(** ** Loops over [seq] *)

(** A [for] loop over [start, start + len): an invariant indexed by the
    loop variable holds at the exit. *)
Lemma fold_left_seq_invariant {S : Type} (P : nat -> S -> Prop) (f : S -> nat -> S) :
  forall len start s,
    P start s ->
    (forall k s', start <= k < start + len -> P k s' -> P (Datatypes.S k) (f s' k)) ->
    P (start + len) (fold_left f (seq start len) s).
Proof.
  induction len as [|len IH]; intros start s H0 Hstep; simpl.
  - now rewrite Nat.add_0_r.
  - rewrite <- Nat.add_succ_comm. apply IH.
    + apply Hstep; [lia | assumption].
    + intros k s' Hk. apply Hstep. lia.
Qed.

(** ** diff: the table *)

Module DiffTable.

Import Diff.

Lemma length_list_set {A : Type} (n : nat) (x : A) (l : list A) :
  length (list_set n x l) = length l.
Proof.
  revert n; induction l as [|y t IH]; intros [|n]; simpl; auto.
Qed.

Lemma nth_list_set_eq {A : Type} (n : nat) (x : A) (l : list A) (d : A) :
  n < length l -> nth n (list_set n x l) d = x.
Proof.
  revert n; induction l as [|y t IH]; intros [|n]; simpl; intros Hn; try lia; auto.
  apply IH; lia.
Qed.

Lemma nth_list_set_neq {A : Type} (n k : nat) (x : A) (l : list A) (d : A) :
  n <> k -> nth k (list_set n x l) d = nth k l d.
Proof.
  revert n k; induction l as [|y t IH]; intros [|n] [|k]; simpl; intros Hn;
    try reflexivity; try lia.
  apply IH; lia.
Qed.

Lemma dp_set_shape n m dp i j v : shape n m dp -> shape n m (dp_set dp i j v).
Proof.
  intros [Hlen Hrows]. unfold dp_set. split.
  - now rewrite length_list_set.
  - intros k Hk. destruct (Nat.eq_dec i k) as [->|Hne].
    + rewrite nth_list_set_eq by lia. rewrite length_list_set. now apply Hrows.
    + rewrite nth_list_set_neq by assumption. now apply Hrows.
Qed.

Lemma dp_get_set_same n m dp i j v :
  shape n m dp -> i <= n -> j <= m -> dp_get (dp_set dp i j v) i j = v.
Proof.
  intros [Hlen Hrows] Hi Hj. unfold dp_get, dp_set.
  rewrite nth_list_set_eq by lia.
  apply nth_list_set_eq. rewrite Hrows by assumption. lia.
Qed.

Lemma dp_get_set_other n m dp i j v i' j' :
  shape n m dp -> i <= n -> (i <> i' \/ j <> j') ->
  dp_get (dp_set dp i j v) i' j' = dp_get dp i' j'.
Proof.
  intros [Hlen Hrows] Hi Hne. unfold dp_get, dp_set.
  destruct (Nat.eq_dec i i') as [<-|Hii].
  - rewrite nth_list_set_eq by lia.
    apply nth_list_set_neq. destruct Hne; [contradiction | assumption].
  - now rewrite nth_list_set_neq by assumption.
Qed.

Lemma dp_init_shape lines1 lines2 :
  shape (length lines1) (length lines2) (dp_init lines1 lines2).
Proof.
  unfold dp_init, shape. split.
  - apply repeat_length.
  - intros i Hi.
    rewrite (nth_indep _ [] (repeat 0%Z (S (length lines2)))) by (rewrite repeat_length; lia).
    rewrite nth_repeat. apply repeat_length.
Qed.

Lemma dp_init_zero lines1 lines2 i j : dp_get (dp_init lines1 lines2) i j = 0%Z.
Proof.
  unfold dp_get, dp_init.
  destruct (Nat.lt_ge_cases i (S (length lines1))) as [Hi|Hi].
  - rewrite (nth_indep _ [] (repeat 0%Z (S (length lines2)))) by (rewrite repeat_length; lia).
    rewrite nth_repeat.
    destruct (Nat.lt_ge_cases j (S (length lines2))) as [Hj|Hj].
    + now rewrite nth_repeat_lt by assumption.
    + apply nth_overflow. rewrite repeat_length. lia.
  - rewrite (nth_overflow (repeat _ _) []) by (rewrite repeat_length; lia). now destruct j.
Qed.

Section Fill.

Variables lines1 lines2 : list string.

Let n := length lines1.
Let m := length lines2.

Lemma lcs_0_l j : lcs lines1 lines2 0 j = 0%Z.
Proof. reflexivity. Qed.

Lemma lcs_0_r i : lcs lines1 lines2 i 0 = 0%Z.
Proof. now destruct i. Qed.

Lemma lcs_succ i j :
  lcs lines1 lines2 (S i) (S j) =
  if String.eqb (at1 lines1 i) (at2 lines2 j)
  then (lcs lines1 lines2 i j + 1)%Z
  else Z.max (lcs lines1 lines2 i (S j)) (lcs lines1 lines2 (S i) j).
Proof. reflexivity. Qed.

Lemma filled_cell i j dp :
  1 <= i <= n -> 1 <= j <= m ->
  filled lines1 lines2 i (j - 1) dp ->
  filled lines1 lines2 i j (dp_set dp i j (dp_cell lines1 lines2 dp i j)).
Proof.
  intros Hi Hj (Hshape & Hcol & Hcells).
  split; [now apply dp_set_shape|]. split.
  - intros i'. rewrite dp_get_set_other with (n := n) (m := m); auto; lia.
  - intros i' j' Hi' Hj' Hwhere.
    destruct (Nat.eq_dec i i') as [<-|Hii]; [destruct (Nat.eq_dec j j') as [<-|Hjj]|].
    + rewrite dp_get_set_same with (n := n) (m := m) by (auto; lia).
      unfold dp_cell.
      rewrite !Hcells by lia.
      destruct i as [|i0]; [lia|]. destruct j as [|j0]; [lia|].
      rewrite lcs_succ. simpl. now rewrite !Nat.sub_0_r.
    + rewrite dp_get_set_other with (n := n) (m := m) by (auto; lia).
      apply Hcells; lia.
    + rewrite dp_get_set_other with (n := n) (m := m) by (auto; lia).
      apply Hcells; lia.
Qed.

Lemma filled_row i dp :
  1 <= i <= n -> filled lines1 lines2 (i - 1) m dp -> filled lines1 lines2 i m (fill_row lines1 lines2 dp i).
Proof.
  intros Hi (Hshape & Hcol & Hcells). unfold fill_row. fold m.
  change (filled lines1 lines2 i m) with ((fun k => filled lines1 lines2 i (pred k)) (S m)).
  replace (S m) with (1 + m) by lia.
  apply fold_left_seq_invariant.
  - simpl. split; [assumption|]. split; [assumption|].
    intros i' j' Hi' Hj' [Hlt|[-> Hz]].
    + apply Hcells; lia.
    + assert (j' = 0) as -> by lia. rewrite Hcol. now rewrite lcs_0_r.
  - intros k dp' Hk Hinv. simpl.
    apply filled_cell; [lia | lia | now rewrite Nat.sub_1_r].
Qed.

Lemma dp_fill_filled : filled lines1 lines2 n m (dp_fill lines1 lines2).
Proof.
  unfold dp_fill. fold n.
  change (filled lines1 lines2 n m) with ((fun k => filled lines1 lines2 (pred k) m) (S n)).
  replace (S n) with (1 + n) by lia.
  apply fold_left_seq_invariant.
  - simpl. split; [apply dp_init_shape|]. split; [intros; apply dp_init_zero|].
    intros i' j' Hi' Hj' [Hlt|[-> _]]; [lia|].
    now rewrite dp_init_zero.
  - intros k dp' Hk Hinv. simpl.
    apply filled_row; [lia | now rewrite Nat.sub_1_r].
Qed.

(** The table [diff_impl] builds holds the recurrence. *)
Lemma dp_fill_lcs i j :
  i <= n -> j <= m -> dp_get (dp_fill lines1 lines2) i j = lcs lines1 lines2 i j.
Proof.
  intros Hi Hj. destruct dp_fill_filled as (_ & _ & Hcells).
  apply Hcells; auto.
  destruct (Nat.eq_dec i n); [right | left]; lia.
Qed.

End Fill.

End DiffTable.

(** ** diff: edit scripts *)

Module DiffScript.

Import Diff.

Lemma apply_script_app s1 s2 a1 a2 b1 b2 :
  apply_script s1 a1 = Some b1 ->
  apply_script s2 a2 = Some b2 ->
  apply_script (s1 ++ s2) (a1 ++ a2) = Some (b1 ++ b2).
Proof.
  revert a1 b1. induction s1 as [|d s1 IH]; intros a1 b1 H1 H2; simpl in *.
  - destruct a1; [|discriminate]. now inversion H1.
  - destruct (Ascii.eqb (type d) plus).
    + destruct (apply_script s1 a1) as [b1'|] eqn:E; [|discriminate].
      inversion H1; subst. now rewrite (IH _ _ E H2).
    + destruct a1 as [|x a1]; [discriminate|]. simpl.
      destruct (String.eqb x (text d)); [|discriminate].
      destruct (Ascii.eqb (type d) space).
      * destruct (apply_script s1 a1) as [b1'|] eqn:E; [|discriminate].
        inversion H1; subst. now rewrite (IH _ _ E H2).
      * destruct (Ascii.eqb (type d) minus); [|discriminate].
        now apply IH.
Qed.

(** A script that applies splits along any of its cuts. *)
Lemma apply_script_split s1 s2 a b :
  apply_script (s1 ++ s2) a = Some b ->
  exists a1 a2 b1 b2,
    a = a1 ++ a2 /\ b = b1 ++ b2 /\
    apply_script s1 a1 = Some b1 /\ apply_script s2 a2 = Some b2.
Proof.
  revert a b. induction s1 as [|d s1 IH]; intros a b H; simpl in *.
  - exists [], a, [], b. auto.
  - destruct (Ascii.eqb (type d) plus) eqn:Eplus.
    + destruct (apply_script (s1 ++ s2) a) as [b'|] eqn:E; [|discriminate].
      inversion H; subst.
      destruct (IH _ _ E) as (a1 & a2 & b1 & b2 & -> & -> & H1 & H2).
      exists a1, a2, (text d :: b1), b2. simpl. rewrite ?Eplus, H1. auto.
    + destruct a as [|x a]; [discriminate|].
      destruct (String.eqb x (text d)) eqn:Ex; [|discriminate].
      destruct (Ascii.eqb (type d) space) eqn:Espace.
      * destruct (apply_script (s1 ++ s2) a) as [b'|] eqn:E; [|discriminate].
        inversion H; subst.
        destruct (IH _ _ E) as (a1 & a2 & b1 & b2 & -> & -> & H1 & H2).
        exists (x :: a1), a2, (x :: b1), b2. simpl. rewrite ?Eplus, ?Ex, ?Espace, H1. auto.
      * destruct (Ascii.eqb (type d) minus) eqn:Eminus; [|discriminate].
        destruct (IH _ _ H) as (a1 & a2 & b1 & b2 & -> & -> & H1 & H2).
        exists (x :: a1), a2, b1, b2. simpl. rewrite ?Eplus, ?Ex, ?Espace, ?Eminus, H1. auto.
Qed.

(** What the last line of a script that applies does. *)
Lemma apply_script_last s d a b :
  apply_script (s ++ [d]) a = Some b ->
  (type d = space /\ exists a' b',
     a = a' ++ [text d] /\ b = b' ++ [text d] /\ apply_script s a' = Some b') \/
  (type d = plus /\ exists b',
     b = b' ++ [text d] /\ apply_script s a = Some b') \/
  (type d = minus /\ exists a',
     a = a' ++ [text d] /\ apply_script s a' = Some b).
Proof.
  intros H. apply apply_script_split in H.
  destruct H as (a1 & a2 & b1 & b2 & -> & -> & H1 & H2).
  simpl in H2.
  destruct (Ascii.eqb (type d) plus) eqn:Eplus.
  - right; left. apply Ascii.eqb_eq in Eplus. split; [assumption|].
    destruct a2; [|discriminate]. inversion H2; subst.
    exists b1. now rewrite app_nil_r.
  - destruct a2 as [|x a2]; [discriminate|].
    destruct (String.eqb x (text d)) eqn:Ex; [|discriminate].
    apply String.eqb_eq in Ex. subst x.
    destruct (Ascii.eqb (type d) space) eqn:Espace.
    + left. apply Ascii.eqb_eq in Espace. split; [assumption|].
      destruct a2; [|discriminate]. inversion H2; subst.
      now exists a1, b1.
    + destruct (Ascii.eqb (type d) minus) eqn:Eminus; [|discriminate].
      right; right. apply Ascii.eqb_eq in Eminus. split; [assumption|].
      destruct a2; [|discriminate]. inversion H2; subst.
      exists a1. now rewrite app_nil_r.
Qed.

(** The lines a script emits are the lines it produces. *)
Lemma apply_script_emitted s a b : apply_script s a = Some b -> emitted s = b.
Proof.
  revert a b. induction s as [|d s IH]; intros a b H; simpl in *.
  - destruct a; [now inversion H | discriminate].
  - unfold emitted in *. simpl.
    destruct (Ascii.eqb (type d) plus) eqn:Eplus.
    + apply Ascii.eqb_eq in Eplus. rewrite Eplus. simpl.
      destruct (apply_script s a) as [b'|] eqn:E; [|discriminate].
      inversion H; subst. f_equal. now apply IH with (a := a).
    + destruct a as [|x a]; [discriminate|].
      destruct (String.eqb x (text d)) eqn:Ex; [|discriminate].
      apply String.eqb_eq in Ex. subst x.
      destruct (Ascii.eqb (type d) space) eqn:Espace.
      * apply Ascii.eqb_eq in Espace. rewrite Espace. simpl.
        destruct (apply_script s a) as [b'|] eqn:E; [|discriminate].
        inversion H; subst. f_equal. now apply IH with (a := a).
      * destruct (Ascii.eqb (type d) minus) eqn:Eminus; [|discriminate].
        simpl. now apply IH with (a := a).
Qed.

(** Insertions and deletions against kept lines. *)
Lemma apply_script_cost s a b :
  apply_script s a = Some b -> cost s + 2 * keeps s = length a + length b.
Proof.
  revert a b. induction s as [|d s IH]; intros a b H; simpl in *.
  - destruct a; [now inversion H | discriminate].
  - unfold cost, keeps in *. simpl.
    destruct (Ascii.eqb (type d) plus) eqn:Eplus.
    + apply Ascii.eqb_eq in Eplus. rewrite Eplus. simpl.
      destruct (apply_script s a) as [b'|] eqn:E; [|discriminate].
      inversion H; subst. specialize (IH _ _ E). simpl. lia.
    + destruct a as [|x a]; [discriminate|].
      destruct (String.eqb x (text d)) eqn:Ex; [|discriminate].
      destruct (Ascii.eqb (type d) space) eqn:Espace.
      * simpl.
        destruct (apply_script s a) as [b'|] eqn:E; [|discriminate].
        inversion H; subst. specialize (IH _ _ E). simpl. lia.
      * destruct (Ascii.eqb (type d) minus) eqn:Eminus; [|discriminate].
        specialize (IH _ _ H). simpl. lia.
Qed.

Lemma keeps_app s1 s2 : keeps (s1 ++ s2) = keeps s1 + keeps s2.
Proof. unfold keeps. now rewrite filter_app, length_app. Qed.

Lemma keeps_rev s : keeps (rev s) = keeps s.
Proof.
  induction s as [|d s IH]; [reflexivity|].
  simpl rev. rewrite keeps_app, IH.
  change (d :: s) with ([d] ++ s). rewrite keeps_app. lia.
Qed.

Lemma firstn_succ_snoc {A : Type} (l : list A) (i : nat) (d : A) :
  i < length l -> firstn (S i) l = firstn i l ++ [nth i l d].
Proof.
  revert i. induction l as [|x l IH]; intros i Hi; simpl in *; [lia|].
  destruct i as [|i]; [reflexivity|].
  simpl. f_equal. apply IH. lia.
Qed.

Lemma firstn_snoc_inv {A : Type} (l : list A) (i : nat) (a : list A) (x d : A) :
  i <= length l -> firstn i l = a ++ [x] ->
  exists i', i = S i' /\ i' < length l /\ a = firstn i' l /\ x = nth i' l d.
Proof.
  intros Hi H. destruct i as [|i'].
  - simpl in H. now destruct a.
  - exists i'. rewrite (firstn_succ_snoc l i' d) in H by lia.
    apply app_inj_tail in H. destruct H as [<- <-]. repeat split; auto.
Qed.

End DiffScript.

(** ** diff: the longest common subsequence *)

Module DiffLcs.

Import Diff DiffTable DiffScript.

Section Lcs.

Variables lines1 lines2 : list string.

Local Open Scope Z_scope.

(** Along either axis the recurrence grows, by one at most. *)
Lemma lcs_steps (i j : nat) :
  (lcs lines1 lines2 i j <= lcs lines1 lines2 (S i) j <= lcs lines1 lines2 i j + 1) /\
  (lcs lines1 lines2 i j <= lcs lines1 lines2 i (S j) <= lcs lines1 lines2 i j + 1).
Proof.
  revert j. induction i as [|i IHi].
  - intros j. rewrite !lcs_0_l. induction j as [|j IHj].
    + rewrite lcs_0_r. lia.
    + rewrite lcs_succ, !lcs_0_l.
      destruct (String.eqb _ _); lia.
  - induction j as [|j IHj].
    + pose proof (IHi O) as Hi0.
      rewrite (lcs_succ _ _ i 0), !lcs_0_r in *.
      destruct (String.eqb (at1 lines1 i) (at2 lines2 0)); lia.
    + pose proof (IHi (S j)) as HiSj.
      rewrite (lcs_succ _ _ (S i) j), (lcs_succ _ _ i (S j)).
      destruct (String.eqb (at1 lines1 (S i)) (at2 lines2 j));
        destruct (String.eqb (at1 lines1 i) (at2 lines2 (S j))); lia.
Qed.

Lemma lcs_nonneg (i j : nat) : 0 <= lcs lines1 lines2 i j.
Proof.
  induction i as [|i IH]; [now rewrite lcs_0_l|].
  pose proof (lcs_steps i j). lia.
Qed.

Lemma keeps_single d : keeps [d] = if Ascii.eqb (type d) space then 1%nat else 0%nat.
Proof. unfold keeps. simpl. now destruct (Ascii.eqb (type d) space). Qed.

(** No script keeps more lines than the recurrence counts. *)
Lemma keeps_le_lcs s :
  forall i j,
    (i <= length lines1)%nat -> (j <= length lines2)%nat ->
    apply_script s (firstn i lines1) = Some (firstn j lines2) ->
    Z.of_nat (keeps s) <= lcs lines1 lines2 i j.
Proof.
  induction s as [|d s IH] using rev_ind; intros i j Hi Hj H.
  - pose proof (lcs_nonneg i j). simpl. lia.
  - rewrite keeps_app, keeps_single.
    apply apply_script_last in H.
    destruct H as [(Ht & a' & b' & Ha & Hb & H) | [(Ht & b' & Hb & H) | (Ht & a' & Ha & H)]].
    + apply (firstn_snoc_inv _ _ _ _ EmptyString Hi) in Ha.
      destruct Ha as (i' & -> & Hi' & -> & Hx).
      apply (firstn_snoc_inv _ _ _ _ EmptyString Hj) in Hb.
      destruct Hb as (j' & -> & Hj' & -> & Hy).
      specialize (IH i' j' ltac:(lia) ltac:(lia) H).
      rewrite lcs_succ. unfold at1, at2. rewrite <- Hx, <- Hy, String.eqb_refl.
      rewrite Ht. change (Ascii.eqb space space) with true. cbv iota. lia.
    + apply (firstn_snoc_inv _ _ _ _ EmptyString Hj) in Hb.
      destruct Hb as (j' & -> & Hj' & -> & Hy).
      specialize (IH i j' Hi ltac:(lia) H).
      pose proof (lcs_steps i j'). rewrite Ht.
      change (Ascii.eqb plus space) with false. cbv iota. lia.
    + apply (firstn_snoc_inv _ _ _ _ EmptyString Hi) in Ha.
      destruct Ha as (i' & -> & Hi' & -> & Hx).
      specialize (IH i' j ltac:(lia) Hj H).
      pose proof (lcs_steps i' j). rewrite Ht.
      change (Ascii.eqb minus space) with false. cbv iota. lia.
Qed.

End Lcs.

End DiffLcs.

(** ** diff: the backtracking loop *)

Module DiffBacktrack.

Import Diff DiffTable DiffScript DiffLcs.

Section Backtrack.

Variables lines1 lines2 : list string.

Let n := length lines1.
Let m := length lines2.

Variable dp : table.

(** The table agrees with the recurrence. *)
Let agrees : Prop :=
  forall i j, i <= n -> j <= m -> dp_get dp i j = lcs lines1 lines2 i j.

(** One iteration: a line is appended, [i + j] goes down, a script
    for the shorter prefixes extends to one for the longer ones, and the
    lines kept add up to the recurrence. *)
Lemma backtrack_step_spec (c : cursor) :
  0 < cur_i c \/ 0 < cur_j c -> cur_i c <= n -> cur_j c <= m ->
  exists d,
    diffs (backtrack_step lines1 lines2 dp c) = diffs c ++ [d] /\
    cur_i (backtrack_step lines1 lines2 dp c) <= n /\
    cur_j (backtrack_step lines1 lines2 dp c) <= m /\
    cur_i (backtrack_step lines1 lines2 dp c) + cur_j (backtrack_step lines1 lines2 dp c)
      < cur_i c + cur_j c /\
    (forall s,
       apply_script s (firstn (cur_i (backtrack_step lines1 lines2 dp c)) lines1)
         = Some (firstn (cur_j (backtrack_step lines1 lines2 dp c)) lines2) ->
       apply_script (s ++ [d]) (firstn (cur_i c) lines1)
         = Some (firstn (cur_j c) lines2)) /\
    (agrees ->
       (Z.of_nat (keeps [d])
        + lcs lines1 lines2 (cur_i (backtrack_step lines1 lines2 dp c))
            (cur_j (backtrack_step lines1 lines2 dp c))
        = lcs lines1 lines2 (cur_i c) (cur_j c))%Z).
Proof.
  destruct c as [i j ds]. cbn [cur_i cur_j diffs]. intros Hpos Hi Hj.
  unfold backtrack_step. cbn [cur_i cur_j diffs].
  destruct ((0 <? i)%nat && (0 <? j)%nat && String.eqb (at1 lines1 (i - 1)) (at2 lines2 (j - 1)))
    eqn:Hkeep; cbn [cur_i cur_j diffs].
  - apply andb_prop in Hkeep. destruct Hkeep as [Hij Heq].
    apply andb_prop in Hij. destruct Hij as [Hi0 Hj0].
    apply Nat.ltb_lt in Hi0. apply Nat.ltb_lt in Hj0.
    destruct i as [|i']; [lia|]. destruct j as [|j']; [lia|].
    cbn [Nat.sub] in *. rewrite !Nat.sub_0_r in *.
    eexists. split; [reflexivity|].
    split; [lia|]. split; [lia|]. split; [lia|]. split.
    + intros s Hs.
      rewrite (firstn_succ_snoc lines1 i' EmptyString), (firstn_succ_snoc lines2 j' EmptyString)
        by (fold n m; lia).
      apply apply_script_app; [assumption|].
      apply String.eqb_eq in Heq. unfold at1, at2 in Heq. rewrite <- Heq.
      simpl. fold (at1 lines1 i'). now rewrite String.eqb_refl.
    + intros _. rewrite lcs_succ, Heq, keeps_single. cbn [type].
      change (Ascii.eqb space space) with true. cbv iota. lia.
  - destruct ((0 <? j)%nat && ((i =? 0)%nat || (dp_get dp (i - 1) j <=? dp_get dp i (j - 1))%Z))
      eqn:Hins; cbn [cur_i cur_j diffs].
    + apply andb_prop in Hins. destruct Hins as [Hj0 Hor].
      apply Nat.ltb_lt in Hj0.
      destruct j as [|j']; [lia|].
      cbn [Nat.sub] in *. rewrite !Nat.sub_0_r in *.
      eexists. split; [reflexivity|].
      split; [lia|]. split; [lia|]. split; [lia|]. split.
      * intros s Hs.
        rewrite (firstn_succ_snoc lines2 j' EmptyString) by (fold m; lia).
        rewrite <- (app_nil_r (firstn i lines1)).
        apply apply_script_app; [assumption|]. reflexivity.
      * intros Hagree. rewrite keeps_single. cbn [type].
        change (Ascii.eqb plus space) with false. cbv iota.
        destruct i as [|i']; [now rewrite !lcs_0_l|].
        cbn [Nat.sub Nat.eqb orb Nat.ltb Nat.leb andb] in Hor, Hkeep.
        rewrite Nat.sub_0_r in Hor, Hkeep.
        rewrite lcs_succ, Hkeep.
        apply Z.leb_le in Hor.
        rewrite !Hagree in Hor by (fold n m; lia). lia.
    + assert (0 < i) as Hi0.
      { destruct i; [|lia]. destruct j; [lia|]. simpl in Hins. discriminate. }
      destruct i as [|i']; [lia|].
      cbn [Nat.sub] in *. rewrite !Nat.sub_0_r in *.
      eexists. split; [reflexivity|].
      split; [lia|]. split; [lia|]. split; [lia|]. split.
      * intros s Hs.
        rewrite (firstn_succ_snoc lines1 i' EmptyString) by (fold n; lia).
        rewrite <- (app_nil_r (firstn j lines2)).
        apply apply_script_app; [assumption|].
        simpl. fold (at1 lines1 i'). now rewrite String.eqb_refl.
      * intros Hagree. rewrite keeps_single. cbn [type].
        change (Ascii.eqb minus space) with false. cbv iota.
        destruct j as [|j']; [now rewrite !lcs_0_r|].
        cbn [Nat.sub Nat.eqb orb Nat.ltb Nat.leb andb] in Hins, Hkeep.
        rewrite Nat.sub_0_r in Hins, Hkeep.
        rewrite lcs_succ, Hkeep.
        apply Z.leb_gt in Hins.
        rewrite !Hagree in Hins by (fold n m; lia). lia.
Qed.

(** The loop leaves through its condition, having appended a script for
    the prefixes it started from. *)
Lemma backtrack_loop_spec (fuel : nat) :
  forall c,
    cur_i c <= n -> cur_j c <= m -> cur_i c + cur_j c <= fuel ->
    cur_i (backtrack_loop lines1 lines2 dp fuel c) = 0 /\
    cur_j (backtrack_loop lines1 lines2 dp fuel c) = 0 /\
    exists suffix,
      diffs (backtrack_loop lines1 lines2 dp fuel c) = diffs c ++ suffix /\
      apply_script (rev suffix) (firstn (cur_i c) lines1) = Some (firstn (cur_j c) lines2) /\
      (agrees -> Z.of_nat (keeps suffix) = lcs lines1 lines2 (cur_i c) (cur_j c)).
Proof.
  induction fuel as [|fuel IH]; intros c Hi Hj Hfuel.
  - simpl. assert (cur_i c = 0) as Hi0 by lia. assert (cur_j c = 0) as Hj0 by lia.
    repeat split; try assumption.
    exists []. rewrite app_nil_r, Hi0, Hj0. simpl. auto.
  - simpl. destruct ((0 <? cur_i c)%nat || (0 <? cur_j c)%nat) eqn:Hcond.
    + apply orb_prop in Hcond.
      assert (0 < cur_i c \/ 0 < cur_j c) as Hpos
        by (destruct Hcond as [Hc|Hc]; apply Nat.ltb_lt in Hc; auto).
      destruct (backtrack_step_spec c Hpos Hi Hj)
        as (d & Hd & Hi' & Hj' & Hdec & Hscript & Hkeeps).
      destruct (IH _ Hi' Hj' ltac:(lia)) as (Ei & Ej & suffix & Hsuf & Happly & Hcount).
      repeat split; try assumption.
      exists (d :: suffix). split; [|split].
      * rewrite Hsuf, Hd, <- app_assoc. reflexivity.
      * simpl. now apply Hscript.
      * intros Hagree. specialize (Hkeeps Hagree). specialize (Hcount Hagree).
        change (d :: suffix) with ([d] ++ suffix). rewrite keeps_app. lia.
    + apply orb_false_elim in Hcond. destruct Hcond as [Hi0 Hj0].
      apply Nat.ltb_ge in Hi0. apply Nat.ltb_ge in Hj0.
      assert (cur_i c = 0) as Ei by lia. assert (cur_j c = 0) as Ej by lia.
      repeat split; try assumption.
      exists []. rewrite app_nil_r, Ei, Ej. simpl. auto.
Qed.

(** Iterations past the exit change nothing. *)
Lemma backtrack_loop_more_fuel (fuel extra : nat) :
  forall c,
    cur_i c <= n -> cur_j c <= m -> cur_i c + cur_j c <= fuel ->
    backtrack_loop lines1 lines2 dp (fuel + extra) c = backtrack_loop lines1 lines2 dp fuel c.
Proof.
  induction fuel as [|fuel IH]; intros c Hi Hj Hfuel.
  - simpl. destruct extra as [|extra]; [reflexivity|]. simpl.
    replace (cur_i c) with 0 by lia. replace (cur_j c) with 0 by lia. reflexivity.
  - simpl. destruct ((0 <? cur_i c)%nat || (0 <? cur_j c)%nat) eqn:Hcond; [|reflexivity].
    apply orb_prop in Hcond.
    assert (0 < cur_i c \/ 0 < cur_j c) as Hpos
      by (destruct Hcond as [Hc|Hc]; apply Nat.ltb_lt in Hc; auto).
    destruct (backtrack_step_spec c Hpos Hi Hj) as (d & _ & Hi' & Hj' & Hdec & _).
    apply IH; lia.
Qed.

End Backtrack.

Lemma backtrack_loop_exits lines1 lines2 :
  cur_i (backtrack lines1 lines2) = 0 /\ cur_j (backtrack lines1 lines2) = 0.
Proof.
  unfold backtrack.
  destruct (backtrack_loop_spec lines1 lines2 (dp_fill lines1 lines2)
              (length lines1 + length lines2)
              {| cur_i := length lines1; cur_j := length lines2; diffs := [] |})
    as (Hi & Hj & _); simpl; auto.
Qed.

(** The script of [diff_impl] applies to the first file and yields the
    second, keeping as many lines as the recurrence counts. *)
Lemma diff_lines_spec lines1 lines2 :
  apply_script (diff_lines lines1 lines2) lines1 = Some lines2 /\
  Z.of_nat (keeps (diff_lines lines1 lines2))
    = lcs lines1 lines2 (length lines1) (length lines2).
Proof.
  unfold diff_lines, backtrack.
  destruct (backtrack_loop_spec lines1 lines2 (dp_fill lines1 lines2)
              (length lines1 + length lines2)
              {| cur_i := length lines1; cur_j := length lines2; diffs := [] |})
    as (_ & _ & suffix & Hsuf & Happly & Hcount); simpl; auto.
  simpl in *. rewrite Hsuf. rewrite !firstn_all in Happly. split; [assumption|].
  rewrite keeps_rev. apply Hcount.
  intros i j Hi Hj. now apply dp_fill_lcs.
Qed.

End DiffBacktrack.

(** ** diff: the claims *)

Module DiffClaims.

Import Diff DiffTable DiffScript DiffLcs DiffBacktrack.

(** C2. For all line sequences [lines1] and [lines2], applying the edit
    script of [diff_impl] to [lines1] (a [' '] line keeps the next line, a
    ['+'] line emits its text, a ['-'] line skips the next line)
    reconstructs exactly [lines2]; in particular the texts of the lines
    that are not deletions are [lines2]. *)
Theorem diff_round_trip :
  forall lines1 lines2 : list string,
    apply_script (diff_lines lines1 lines2) lines1 = Some lines2 /\
    emitted (diff_lines lines1 lines2) = lines2.
Proof.
  intros lines1 lines2.
  destruct (diff_lines_spec lines1 lines2) as [Happly _].
  split; [assumption|].
  now apply apply_script_emitted with (a := lines1).
Qed.

(** The script of [diff_impl] has the fewest insertions and deletions
    among the scripts that turn the first file into the second. *)
Lemma diff_lines_minimal lines1 lines2 script :
  apply_script script lines1 = Some lines2 ->
  cost (diff_lines lines1 lines2) <= cost script.
Proof.
  intros Hscript.
  destruct (diff_lines_spec lines1 lines2) as [Happly Hkeeps].
  pose proof (apply_script_cost _ _ _ Happly) as Hc1.
  pose proof (apply_script_cost _ _ _ Hscript) as Hc2.
  pose proof (keeps_le_lcs lines1 lines2 script (length lines1) (length lines2)
                (Nat.le_refl _) (Nat.le_refl _)) as Hle.
  rewrite !firstn_all in Hle. specialize (Hle Hscript).
  lia.
Qed.

(** C3. In the backtracking loop, when the current lines differ and
    [dp[i-1][j]] equals [dp[i][j-1]] (deleting and inserting are both
    possible), the iteration takes the insertion of the line of the second
    file; the script, a function of the two files, has the fewest
    insertions and deletions of all scripts that turn the first file into
    the second. *)
Theorem diff_tie_break_insertion :
  forall (lines1 lines2 : list string) (c : cursor),
    0 < cur_i c -> 0 < cur_j c ->
    at1 lines1 (cur_i c - 1) <> at2 lines2 (cur_j c - 1) ->
    dp_get (dp_fill lines1 lines2) (cur_i c - 1) (cur_j c)
      = dp_get (dp_fill lines1 lines2) (cur_i c) (cur_j c - 1) ->
    backtrack_step lines1 lines2 (dp_fill lines1 lines2) c =
      {| cur_i := cur_i c;
         cur_j := cur_j c - 1;
         diffs := diffs c ++ [{| type := plus; text := at2 lines2 (cur_j c - 1);
                                 line1 := 0%Z; line2 := Z.of_nat (cur_j c) |}] |}
    /\ (forall script,
          apply_script script lines1 = Some lines2 ->
          cost (diff_lines lines1 lines2) <= cost script).
Proof.
  intros lines1 lines2 c Hi Hj Hne Htie. split.
  - unfold backtrack_step.
    apply String.eqb_neq in Hne. rewrite Hne, andb_false_r.
    apply Nat.ltb_lt in Hj. rewrite Hj, Htie, Z.leb_refl, orb_true_r.
    reflexivity.
  - intros script. apply diff_lines_minimal.
Qed.

Lemma diff_tie_break_insertion_witness :
  backtrack_step ["a"; "b"; "c"] ["a"; "x"; "c"] (dp_fill ["a"; "b"; "c"] ["a"; "x"; "c"])
    {| cur_i := 2; cur_j := 2;
       diffs := [{| type := space; text := "c"; line1 := 3; line2 := 3 |}] |} =
    {| cur_i := 2; cur_j := 1;
       diffs := [{| type := space; text := "c"; line1 := 3; line2 := 3 |};
                 {| type := plus; text := "x"; line1 := 0; line2 := 2 |}] |}
  /\ (forall script,
        apply_script script ["a"; "b"; "c"] = Some ["a"; "x"; "c"] ->
        cost (diff_lines ["a"; "b"; "c"] ["a"; "x"; "c"]) <= cost script).
Proof.
  apply (diff_tie_break_insertion ["a"; "b"; "c"] ["a"; "x"; "c"]
           {| cur_i := 2; cur_j := 2;
              diffs := [{| type := space; text := "c"; line1 := 3; line2 := 3 |}] |}).
  - simpl. lia.
  - simpl. lia.
  - simpl. discriminate.
  - reflexivity.
Defined.

(** The second scenario of the specification. *)
Example diff_scenario :
  diff_lines ["a"; "b"; "c"] ["a"; "x"; "c"] =
  [ {| type := space; text := "a"; line1 := 1; line2 := 1 |};
    {| type := minus; text := "b"; line1 := 2; line2 := 0 |};
    {| type := plus; text := "x"; line1 := 0; line2 := 2 |};
    {| type := space; text := "c"; line1 := 3; line2 := 3 |} ].
Proof. reflexivity. Qed.

End DiffClaims.

(** ** Strings *)

Module StringFacts.

Lemma ltb_lt (a b : string) : String.ltb a b = true <-> String_as_OT.lt a b.
Proof.
  unfold String.ltb. rewrite <- String_as_OT.cmp_lt. unfold String_as_OT.cmp.
  destruct (String.compare a b); split; intros H; congruence.
Qed.

Lemma ltb_irrefl (a : string) : String.ltb a a = false.
Proof.
  unfold String.ltb.
  assert (String.compare a a = Eq) as -> by now apply String_as_OT.cmp_eq.
  reflexivity.
Qed.

Lemma ltb_trans (a b c : string) :
  String.ltb a b = true -> String.ltb b c = true -> String.ltb a c = true.
Proof.
  rewrite !ltb_lt. apply String_as_OT.lt_trans.
Qed.

Lemma ltb_asym (a b : string) : String.ltb a b = true -> String.ltb b a = false.
Proof.
  intros H. destruct (String.ltb b a) eqn:E; [|reflexivity].
  pose proof (ltb_trans _ _ _ H E) as Haa. rewrite ltb_irrefl in Haa. discriminate.
Qed.

(** Two strings neither of which is below the other are the same. *)
Lemma ltb_tie (a b : string) :
  String.ltb a b = false -> String.ltb b a = false -> a = b.
Proof.
  unfold String.ltb. rewrite (String.compare_antisym b a).
  destruct (String.compare a b) eqn:E; simpl; try discriminate.
  intros _ _. now apply String.compare_eq_iff.
Qed.

Lemma append_assoc (a b c : string) : (a +:+ b) +:+ c = a +:+ b +:+ c.
Proof. induction a as [|x a IH]; simpl; [reflexivity | now rewrite IH]. Qed.

Lemma append_empty_r (s : string) : s +:+ EmptyString = s.
Proof. induction s as [|c s IH]; simpl; [reflexivity | now rewrite IH]. Qed.

(** The loop over [std::getline] takes the tokens one by one. *)
Lemma getline_all_unfold (delim : ascii) (s : string) :
  getline_all delim s =
  match getline delim s with
  | None => []
  | Some (tok, rest) => tok :: getline_all delim rest
  end.
Proof.
  induction s as [|c s IH]; [reflexivity|].
  cbn [getline getline_token getline_all].
  destruct (Ascii.eqb c delim); [reflexivity|].
  rewrite IH. destruct s as [|d s]; [reflexivity|].
  cbn [getline]. now destruct (getline_token delim (String d s)).
Qed.

End StringFacts.

(** ** Lines written and read back *)

Module LineFacts.

Import StringFacts Text.

(** A regular file opens, and the stream gives its bytes. *)
Lemma open_ifstream (fs : LineSource.filesystem) (path content : string) :
  LineSource.open fs path = Some content -> LineSource.ifstream fs path = Some content.
Proof.
  unfold LineSource.open, LineSource.ifstream.
  destruct (fs path) as [[c|walk|]|]; intros Hopen; try discriminate; exact Hopen.
Qed.

Lemma open_read_lines (fs : LineSource.filesystem) (path content : string) :
  LineSource.open fs path = Some content ->
  LineSource.read_lines fs path = Ok (getline_all newline content).
Proof.
  intros Hopen. unfold LineSource.read_lines. now rewrite (open_ifstream _ _ _ Hopen).
Qed.

Lemma put_lines_from (lines : list string) (oss : string) :
  fold_left (fun oss line => oss +:+ line +:+ String newline EmptyString) lines oss =
  oss +:+ LineSource.put_lines lines.
Proof.
  unfold LineSource.put_lines. revert oss.
  induction lines as [|x lines IH]; intros oss; simpl.
  - now rewrite append_empty_r.
  - rewrite IH, (IH (x +:+ String newline EmptyString)). now rewrite !append_assoc.
Qed.

Lemma put_lines_cons (x : string) (lines : list string) :
  LineSource.put_lines (x :: lines) = x +:+ String newline (LineSource.put_lines lines).
Proof.
  unfold LineSource.put_lines at 1. simpl. rewrite put_lines_from.
  now rewrite append_assoc.
Qed.

Lemma put_lines_app (l1 l2 : list string) :
  LineSource.put_lines (l1 ++ l2) = LineSource.put_lines l1 +:+ LineSource.put_lines l2.
Proof.
  induction l1 as [|x l1 IH]; [reflexivity|].
  simpl app. rewrite !put_lines_cons, IH, append_assoc. reflexivity.
Qed.

(** A line without a newline, written with its newline in front of other
    text, is read back in front of the lines of that text. *)
Lemma getline_all_line (x rest : string) :
  no_newline x = true ->
  getline_all newline (x +:+ String newline rest) = x :: getline_all newline rest.
Proof.
  induction x as [|c x IH]; intros Hx; simpl in *.
  - reflexivity.
  - apply andb_prop in Hx. destruct Hx as [Hc Hx]. apply negb_true_iff in Hc.
    rewrite Hc, (IH Hx). reflexivity.
Qed.

(** What is written line by line is read back line by line. *)
Lemma getline_all_put_lines (lines : list string) :
  Forall (fun x => no_newline x = true) lines ->
  getline_all newline (LineSource.put_lines lines) = lines.
Proof.
  induction 1 as [|x lines Hx Hlines IH]; [reflexivity|].
  rewrite put_lines_cons, getline_all_line by assumption. now rewrite IH.
Qed.

(** The lines read from a file hold no newline. *)
Lemma getline_all_no_newline (content : string) :
  Forall (fun x => no_newline x = true) (getline_all newline content).
Proof.
  induction content as [|c r IH]; simpl; [constructor|].
  destruct (Ascii.eqb c newline) eqn:E.
  - constructor; [reflexivity | assumption].
  - destruct (getline_all newline r) as [|tok toks].
    + repeat constructor. simpl. now rewrite E.
    + inversion IH; subst. constructor; [|assumption]. simpl. now rewrite E.
Qed.

Lemma read_lines_no_newline fs path lines :
  LineSource.read_lines fs path = Ok lines ->
  Forall (fun x => no_newline x = true) lines.
Proof.
  unfold LineSource.read_lines. destruct (LineSource.ifstream fs path); [|discriminate].
  intros H. inversion H. apply getline_all_no_newline.
Qed.

(** The loop over a range of indices writes the lines of the range. *)
Lemma put_range_from (lines : list string) (len : nat) :
  forall first oss,
    first + len <= length lines ->
    fold_left
      (fun oss i => oss +:+ nth i lines EmptyString +:+ String newline EmptyString)
      (seq first len) oss =
    oss +:+ LineSource.put_lines (firstn len (skipn first lines)).
Proof.
  induction len as [|len IH]; intros first oss Hlen; simpl.
  - now rewrite append_empty_r.
  - rewrite IH by lia.
    assert (skipn first lines = nth first lines EmptyString :: skipn (S first) lines) as ->.
    { clear IH oss. revert first Hlen. induction lines as [|x lines IHl]; intros first Hlen.
      - simpl in Hlen. lia.
      - destruct first as [|first]; [reflexivity|]. simpl. apply IHl. simpl in Hlen. lia. }
    simpl firstn. rewrite put_lines_cons. now rewrite !append_assoc.
Qed.

Lemma put_range_lines (lines : list string) (first last : Z) :
  (0 <= first <= last)%Z -> (last <= Z.of_nat (length lines))%Z ->
  put_range lines first last =
  LineSource.put_lines (firstn (Z.to_nat (last - first)) (skipn (Z.to_nat first) lines)).
Proof.
  intros Hf Hl. unfold put_range. rewrite put_range_from by lia. reflexivity.
Qed.

Lemma put_range_empty (lines : list string) (first last : Z) :
  (last <= first)%Z -> put_range lines first last = EmptyString.
Proof.
  intros H. unfold put_range. replace (Z.to_nat (last - first)) with 0 by lia. reflexivity.
Qed.

(** Without its flags [cat_impl] writes the lines as they are. *)
Lemma cat_lines_plain (lines : list string) :
  cat_lines false false lines = LineSource.put_lines lines.
Proof.
  unfold cat_lines.
  assert (forall st,
            oss (fold_left (cat_step false false) lines st)
            = oss st +:+ LineSource.put_lines lines) as H.
  { induction lines as [|x lines IH]; intros st; simpl.
    - now rewrite append_empty_r.
    - rewrite IH, put_lines_cons. unfold cat_step. simpl. now rewrite !append_assoc. }
  now rewrite H.
Qed.

End LineFacts.

(** ** sort *)

Module SortClaims.

Import Sort StringFacts.

(** A comparison of keys taken from the lines is a strict weak ordering
    of any lines. *)
Lemma key_order_strict_weak (k : string -> string) (l : list string) :
  strict_weak_order_on (fun a b => String.ltb (k a) (k b)) l.
Proof.
  assert (forall a b, equiv (fun a b => String.ltb (k a) (k b)) a b = true -> k a = k b) as Htie.
  { intros a b H. unfold equiv in H. apply andb_prop in H. destruct H as [H1 H2].
    apply negb_true_iff in H1. apply negb_true_iff in H2. now apply ltb_tie. }
  repeat split.
  - intros a _. apply ltb_irrefl.
  - intros a b c _ _ _. apply ltb_trans.
  - intros a b c _ _ _ Hab Hbc.
    apply Htie in Hab. apply Htie in Hbc.
    unfold equiv. rewrite Hab, Hbc, ltb_irrefl. reflexivity.
Qed.

(** Outside of numeric mode the comparator of [sort_impl] meets the
    requirement of [std::sort] on every input. *)
Lemma comparator_strict_weak `{FloatParser} (f : flags) (l : list string) :
  numeric f = false -> strict_weak_order_on (comparator f) l.
Proof.
  intros Hnum. unfold comparator. rewrite Hnum.
  destruct (ignore_case f).
  - apply (key_order_strict_weak (fun a => string_map tolower (key_of f a))).
  - apply (key_order_strict_weak (key_of f)).
Qed.

(** [reverse] is not read by the comparator. *)
Lemma comparator_with_reverse `{FloatParser} (r : bool) (f : flags) :
  comparator (with_reverse r f) = comparator f.
Proof. reflexivity. Qed.

(** Outside of numeric mode the comparator compares [compared_key]. *)
Lemma comparator_compared_key `{FloatParser} (f : flags) (a b : string) :
  numeric f = false ->
  comparator f a b = String.ltb (compared_key f a) (compared_key f b).
Proof.
  intros Hnum. unfold comparator, compared_key. rewrite Hnum.
  now destruct (ignore_case f).
Qed.

(** Two sequences of strings in order that are rearrangements of each
    other are the same. *)
Lemma ordered_rearrangement_unique (l1 l2 : list string) :
  StronglySorted (fun a b => String.ltb b a = false) l1 ->
  StronglySorted (fun a b => String.ltb b a = false) l2 ->
  Permutation l1 l2 -> l1 = l2.
Proof.
  intros H1. revert l2. induction H1 as [|x t1 Ht1 IH Hx]; intros l2 H2 Hperm.
  - apply Permutation_nil in Hperm. now subst.
  - destruct H2 as [|y t2 Ht2 Hy].
    + apply Permutation_sym, Permutation_nil in Hperm. discriminate.
    + rewrite Forall_forall in Hx, Hy.
      assert (x = y) as ->.
      { assert (In x (y :: t2)) as Hin by (apply (Permutation_in _ Hperm); now left).
        assert (In y (x :: t1)) as Hin'
          by (apply (Permutation_in _ (Permutation_sym Hperm)); now left).
        destruct Hin as [Hyx|Hin]; [now symmetry|].
        destruct Hin' as [Hxy|Hin']; [assumption|].
        apply ltb_tie; auto. }
      f_equal. apply IH; [assumption|]. now apply Permutation_cons_inv in Hperm.
Qed.

Lemma nondescending_compared_keys `{FloatParser} (f : flags) (l : list string) :
  numeric f = false ->
  nondescending (comparator f) l ->
  StronglySorted (fun a b => String.ltb b a = false) (map (compared_key f) l).
Proof.
  intros Hnum. unfold nondescending. induction 1 as [|x t Ht IH Hx]; simpl.
  - constructor.
  - constructor; [assumption|].
    rewrite Forall_forall in *. intros k Hk. apply in_map_iff in Hk.
    destruct Hk as (y & <- & Hy). rewrite <- comparator_compared_key by assumption.
    now apply Hx.
Qed.

(** C1, as the code has it.  Whenever the comparator is a strict weak
    ordering of the input lines (always, unless [numeric] is set), the
    sequence [std::sort] leaves is a rearrangement of the input in which no
    line is followed by a line the comparator puts before it; [reverse]
    does not enter the comparator, and setting it reverses that sequence.
    The order of lines whose keys tie is not fixed: outside of numeric mode
    two results of the sort have the same sequence of keys, and may differ
    in the order of the lines of equal key only. *)
Theorem sort_sorted_permutation :
  forall (P : FloatParser) (f : flags) (lines sorted : list string),
    std_sort (comparator f) lines sorted ->
    numeric f = false \/ strict_weak_order_on (comparator f) lines ->
    Permutation lines sorted /\
    nondescending (comparator f) sorted /\
    (forall r, comparator (with_reverse r f) = comparator f) /\
    (unique f = false ->
     arrange (with_reverse true f) sorted = rev (arrange (with_reverse false f) sorted)) /\
    (numeric f = false ->
     forall sorted',
       std_sort (comparator f) lines sorted' ->
       map (compared_key f) sorted' = map (compared_key f) sorted).
Proof.
  intros P f lines sorted Hsort Hmode.
  assert (strict_weak_order_on (comparator f) lines) as Hswo.
  { destruct Hmode as [Hnum|Hswo]; [now apply comparator_strict_weak | assumption]. }
  destruct (Hsort Hswo) as [Hperm Hsorted].
  repeat split; try assumption.
  - intros Hu. unfold arrange. simpl. now rewrite Hu.
  - intros Hnum sorted' Hsort'. destruct (Hsort' Hswo) as [Hperm' Hsorted'].
    apply ordered_rearrangement_unique.
    + now apply nondescending_compared_keys.
    + now apply nondescending_compared_keys.
    + apply Permutation_map.
      apply (perm_trans (Permutation_sym Hperm') Hperm).
Qed.

Lemma sort_sorted_permutation_witness :
  let f := {| reverse := false; numeric := false; unique := false; key := 0%Z;
              separator := ""; ignore_case := false |} in
  Permutation ["b"; "a"; "c"] ["a"; "b"; "c"] /\
  nondescending (comparator (H := Reference.decimal_parser) f) ["a"; "b"; "c"] /\
  (forall r, comparator (H := Reference.decimal_parser) (with_reverse r f)
             = comparator (H := Reference.decimal_parser) f) /\
  (unique f = false ->
   arrange (with_reverse true f) ["a"; "b"; "c"]
     = rev (arrange (with_reverse false f) ["a"; "b"; "c"])) /\
  (numeric f = false ->
   forall sorted',
     std_sort (comparator (H := Reference.decimal_parser) f) ["b"; "a"; "c"] sorted' ->
     map (compared_key f) sorted' = map (compared_key f) ["a"; "b"; "c"]).
Proof.
  intros f.
  apply (sort_sorted_permutation Reference.decimal_parser f ["b"; "a"; "c"] ["a"; "b"; "c"]).
  - intros _. split.
    + apply perm_swap.
    + repeat constructor.
  - left. reflexivity.
Defined.

(** C1, as the specification has it, fails.  The seventeen lines of
    [tied_lines] have the same key; the sort of the GNU library returns
    them in another order than they came in, as [std::sort] is free to
    do. *)
Lemma sort_not_stable :
  let comp := comparator (H := Reference.decimal_parser) Reference.by_first_word in
  let sorted :=
    ["k 09"; "k 17"; "k 16"; "k 15"; "k 14"; "k 13"; "k 12"; "k 11"; "k 10";
     "k 01"; "k 08"; "k 07"; "k 06"; "k 05"; "k 04"; "k 03"; "k 02"] in
  LineSource.read_lines Reference.tied_file "data" = Ok Reference.tied_lines /\
  Libstdcxx.sort comp EmptyString Reference.tied_lines = Some sorted /\
  std_sort comp Reference.tied_lines sorted /\
  sort_impl (H := Reference.decimal_parser) Reference.tied_file "data"
    Reference.by_first_word (Ok (LineSource.put_lines sorted)) /\
  ~ stable comp Reference.tied_lines sorted.
Proof.
  intros comp sorted.
  assert (std_sort comp Reference.tied_lines sorted) as Hsort.
  { intros _. split.
    - apply NoDup_Permutation.
      + repeat (constructor; [simpl; intuition discriminate|]). constructor.
      + repeat (constructor; [simpl; intuition discriminate|]). constructor.
      + intros x. unfold sorted, Reference.tied_lines. simpl. tauto.
    - unfold nondescending, sorted.
      repeat (constructor; [|repeat (constructor; [reflexivity|]); constructor]).
      constructor. }
  split; [reflexivity|]. split; [reflexivity|]. split; [assumption|]. split.
  - unfold sort_impl.
    change (LineSource.read_lines Reference.tied_file "data") with (Ok Reference.tied_lines).
    exists (LineSource.put_lines sorted). split; [|reflexivity].
    exists sorted. split; [assumption | reflexivity].
  - intros Hstable. specialize (Hstable "k 01"). discriminate.
Qed.

(** The first scenario of the specification: [std::sort] can only return
    the lines in order when no two of them tie. *)
Example sort_scenario :
  forall sorted,
    std_sort (comparator (H := Reference.decimal_parser)
                {| reverse := false; numeric := false; unique := false; key := 0%Z;
                   separator := ""; ignore_case := false |})
      ["b"; "a"; "c"] sorted ->
    sorted = ["a"; "b"; "c"].
Proof.
  intros sorted Hsort.
  assert (strict_weak_order_on
            (comparator (H := Reference.decimal_parser)
               {| reverse := false; numeric := false; unique := false; key := 0%Z;
                  separator := ""; ignore_case := false |}) ["b"; "a"; "c"]) as Hswo
    by now apply comparator_strict_weak.
  destruct (Hsort Hswo) as [Hperm Hsorted]. clear Hsort Hswo.
  apply Permutation_length in Hperm as Hlen.
  destruct sorted as [|x [|y [|z [|w t]]]]; try discriminate.
  assert (In x ["b"; "a"; "c"] /\ In y ["b"; "a"; "c"] /\ In z ["b"; "a"; "c"]) as (Hx & Hy & Hz).
  { repeat split; apply (Permutation_in _ (Permutation_sym Hperm)); simpl; auto. }
  assert (NoDup [x; y; z]) as Hnd.
  { apply (Permutation_NoDup Hperm). repeat constructor; simpl; intuition discriminate. }
  inversion Hsorted as [|? ? Hs1 Hf1]; subst.
  inversion Hs1 as [|? ? Hs2 Hf2]; subst.
  inversion Hf1 as [|? ? Hxy Hf1']; subst. inversion Hf1' as [|? ? Hxz _]; subst.
  inversion Hf2 as [|? ? Hyz _]; subst.
  inversion Hnd as [|? ? Hn1 Hnd1]; subst. inversion Hnd1 as [|? ? Hn2 _]; subst.
  simpl in Hx, Hy, Hz, Hn1, Hn2.
  destruct Hx as [<-|[<-|[<-|[]]]]; destruct Hy as [<-|[<-|[<-|[]]]];
    destruct Hz as [<-|[<-|[<-|[]]]];
    try discriminate; try reflexivity; exfalso; intuition congruence.
Qed.

(** C4. In numeric mode, when the key of either line does not parse, the
    comparator returns the comparison of the two whole lines; it is a total
    function and no exception leaves it. *)
Theorem numeric_fallback_whole_line :
  forall (P : FloatParser) (f : flags) (a b : string),
    numeric f = true ->
    stod (key_of f a) = None \/ stod (key_of f b) = None ->
    comparator f a b = String.ltb a b.
Proof.
  intros P f a b Hnum Hfail. unfold comparator, numeric_less. rewrite Hnum.
  destruct Hfail as [Ha|Hb].
  - now rewrite Ha.
  - rewrite Hb. now destruct (stod (key_of f a)).
Qed.

Lemma numeric_fallback_whole_line_witness :
  comparator (H := Reference.decimal_parser)
    {| reverse := false; numeric := true; unique := false; key := 2%Z;
       separator := ""; ignore_case := false |} "b x" "a y"
  = String.ltb "b x" "a y".
Proof.
  apply (numeric_fallback_whole_line Reference.decimal_parser
           {| reverse := false; numeric := true; unique := false; key := 2%Z;
              separator := ""; ignore_case := false |} "b x" "a y").
  - reflexivity.
  - left. reflexivity.
Defined.

(** The fallback compares the lines, not the keys: here the keys are in
    order and the lines are not. *)
Example numeric_fallback_not_on_keys :
  let f := {| reverse := false; numeric := true; unique := false; key := 2%Z;
              separator := ""; ignore_case := false |} in
  String.ltb (key_of f "b x") (key_of f "a y") = true /\
  comparator (H := Reference.decimal_parser) f "b x" "a y" = false.
Proof. split; reflexivity. Qed.

End SortClaims.

(** ** cmp *)

Module CmpClaims.

Import Cmp StringFacts.

(** The loop goes through a common prefix, counting its bytes and its
    newlines. *)
Lemma compare_loop_prefix (p s1 s2 : string) :
  forall byte_offset line_number,
    compare_loop (p +:+ s1) (p +:+ s2) byte_offset line_number =
    compare_loop s1 s2 (byte_offset + Z.of_nat (String.length p))%Z
      (line_number + newlines p)%Z.
Proof.
  induction p as [|c p IH]; intros byte_offset line_number.
  - simpl. now rewrite !Z.add_0_r.
  - cbn [String.append compare_loop]. rewrite Ascii.eqb_refl. cbn [negb].
    rewrite IH. cbn [String.length newlines].
    destruct (Ascii.eqb c newline); f_equal; lia.
Qed.

(** Equal contents are reported identical. *)
Lemma compare_bytes_equal (p : string) : same (compare_bytes p p) = true.
Proof.
  unfold compare_bytes.
  rewrite <- (append_empty_r p) at 1 2. rewrite compare_loop_prefix. reflexivity.
Qed.

(** A first differing byte: its offset, and the line of the first file it
    is on, its own newline counted. *)
Lemma compare_bytes_mismatch (p r1 r2 : string) (c1 c2 : ascii) :
  c1 <> c2 ->
  compare_bytes (p +:+ String c1 r1) (p +:+ String c2 r2) =
  {| ifs1 := r1; ifs2 := r2;
     offset := Z.of_nat (String.length p) + 1;
     line := 1 + newlines p + (if Ascii.eqb c1 newline then 1 else 0);
     same := false |}.
Proof.
  intros Hne. unfold compare_bytes. rewrite compare_loop_prefix.
  cbn [compare_loop]. apply Ascii.eqb_neq in Hne. rewrite Hne. cbn [negb].
  unfold after_loop. cbn [same andb].
  destruct (Ascii.eqb c1 newline); f_equal; lia.
Qed.

(** The first file ends first. *)
Lemma compare_bytes_second_longer (p r : string) (c : ascii) :
  compare_bytes p (p +:+ String c r) =
  {| ifs1 := EmptyString; ifs2 := String c r;
     offset := Z.of_nat (String.length p) + 1;
     line := 1 + newlines p;
     same := false |}.
Proof.
  unfold compare_bytes. rewrite <- (append_empty_r p) at 1.
  rewrite compare_loop_prefix. reflexivity.
Qed.

(** The second file ends first, two bytes or more before the first. *)
Lemma compare_bytes_first_longer (p r : string) (c c' : ascii) :
  compare_bytes (p +:+ String c (String c' r)) p =
  {| ifs1 := String c' r; ifs2 := EmptyString;
     offset := Z.of_nat (String.length p) + 1;
     line := 1 + newlines p;
     same := false |}.
Proof.
  unfold compare_bytes. rewrite <- (append_empty_r p) at 2.
  rewrite compare_loop_prefix. reflexivity.
Qed.

(** The second file ends first, one byte before the first: the condition
    of the loop has taken that byte off the first stream, nothing is left
    for the test after the loop, and the files are reported identical. *)
Lemma compare_bytes_one_extra (p : string) (c : ascii) :
  compare_bytes (p +:+ String c EmptyString) p =
  {| ifs1 := EmptyString; ifs2 := EmptyString;
     offset := Z.of_nat (String.length p);
     line := 1 + newlines p;
     same := true |}.
Proof.
  unfold compare_bytes. rewrite <- (append_empty_r p) at 2.
  rewrite compare_loop_prefix. reflexivity.
Qed.

(** When the files are reported identical: when they are, and when the
    first is the second with one more byte. *)
Lemma compare_bytes_same (bytes1 bytes2 : string) :
  same (compare_bytes bytes1 bytes2) = true <->
  bytes1 = bytes2 \/ exists c, bytes1 = bytes2 +:+ String c EmptyString.
Proof.
  unfold compare_bytes. generalize 0%Z 1%Z. revert bytes2.
  induction bytes1 as [|c1 r1 IH]; intros bytes2 byte_offset line_number.
  - destruct bytes2 as [|c2 r2]; simpl.
    + intuition.
    + split; [discriminate|]. intros [H|[c H]]; discriminate.
  - destruct bytes2 as [|c2 r2].
    + destruct r1 as [|c r1]; simpl.
      * split; [|reflexivity]. intros _. right. now exists c1.
      * split; [discriminate|]. intros [H|[c' H]]; discriminate.
    + cbn [compare_loop]. destruct (Ascii.eqb c1 c2) eqn:E; cbn [negb].
      * apply Ascii.eqb_eq in E. subst c2. rewrite IH. split.
        -- intros [->|[c ->]]; [now left | right; now exists c].
        -- intros [H|[c H]].
           ++ inversion H. now left.
           ++ simpl in H. inversion H. right. now exists c.
      * apply Ascii.eqb_neq in E. simpl. split; [discriminate|].
        intros [H|[c H]]; simpl in H; inversion H; contradiction.
Qed.

Lemma append_one_differs (p : string) (c : ascii) : p +:+ String c EmptyString <> p.
Proof.
  induction p as [|x p IH]; simpl; [discriminate|].
  intros H. inversion H. contradiction.
Qed.

(** C9 fails on the code: whenever the first file is the second with one
    more byte, the two differ and [cmp_impl] reports them identical. *)
Theorem cmp_trailing_byte_missed :
  forall (bytes2 : string) (c : ascii) (silent : bool),
    bytes2 +:+ String c EmptyString <> bytes2 /\
    cmp_impl (LineSource.two_files "first" (bytes2 +:+ String c EmptyString) "second" bytes2)
      "first" "second" silent =
    Ok {| identical := true; byte_offset := None; line_number := None; message := None |}.
Proof.
  intros bytes2 c silent. split; [apply append_one_differs|].
  unfold cmp_impl, LineSource.open, LineSource.two_files. simpl.
  unfold make_report. rewrite compare_bytes_one_extra. reflexivity.
Qed.

(** On the files ["ab"] and ["a"]. *)
Example cmp_trailing_byte_missed_ab :
  cmp_impl (LineSource.two_files "first" "ab" "second" "a") "first" "second" false =
  Ok {| identical := true; byte_offset := None; line_number := None; message := None |}.
Proof. reflexivity. Qed.

(** The same two files the other way round are told apart, at byte 2. *)
Example cmp_trailing_byte_seen :
  cmp_impl (LineSource.two_files "first" "a" "second" "ab") "first" "second" false =
  Ok {| identical := false; byte_offset := Some 2%Z; line_number := Some 1%Z;
        message := Some "first second differ: byte 2, line 1" |}.
Proof. reflexivity. Qed.

End CmpClaims.

(** ** Ordered containers *)

Module OrderedFacts.

Import Ordered.

Section StrictTotalOrder.

Context {A : Type} (ltb : A -> A -> bool).

Hypothesis irreflexive : forall a, ltb a a = false.
Hypothesis transitive : forall a b c, ltb a b = true -> ltb b c = true -> ltb a c = true.
Hypothesis tie_equal : forall a b, ltb a b = false -> ltb b a = false -> a = b.

Lemma set_insert_In (x y : A) (s : list A) :
  In y (set_insert ltb x s) <-> y = x \/ In y s.
Proof.
  induction s as [|z t IH]; simpl.
  - intuition.
  - destruct (ltb x z) eqn:Hxz; [simpl; intuition|].
    destruct (ltb z x) eqn:Hzx; simpl.
    + rewrite IH. intuition.
    + assert (x = z) as -> by now apply tie_equal. intuition.
Qed.

Lemma set_insert_ascending (x : A) (s : list A) :
  ascending ltb s -> ascending ltb (set_insert ltb x s).
Proof.
  unfold ascending. induction s as [|z t IH]; intros Hs; simpl.
  - repeat constructor.
  - inversion Hs as [|? ? Ht Hz]; subst.
    destruct (ltb x z) eqn:Hxz.
    + constructor; [assumption|]. constructor; [assumption|].
      rewrite Forall_forall in *. intros w Hw. eapply transitive; eauto.
    + destruct (ltb z x) eqn:Hzx; [|assumption].
      constructor; [now apply IH|].
      rewrite Forall_forall in *. intros w Hw.
      apply set_insert_In in Hw. destruct Hw as [->|Hw]; auto.
Qed.

Lemma set_insert_all_In (xs s : list A) (y : A) :
  In y (set_insert_all ltb xs s) <-> In y xs \/ In y s.
Proof.
  unfold set_insert_all. revert s. induction xs as [|x xs IH]; intros s; simpl.
  - intuition.
  - rewrite IH, set_insert_In. intuition.
Qed.

Lemma set_insert_all_ascending (xs s : list A) :
  ascending ltb s -> ascending ltb (set_insert_all ltb xs s).
Proof.
  unfold set_insert_all. revert s. induction xs as [|x xs IH]; intros s Hs; simpl.
  - assumption.
  - apply IH. now apply set_insert_ascending.
Qed.

Lemma set_of_list_In (xs : list A) (y : A) : In y (set_of_list ltb xs) <-> In y xs.
Proof. unfold set_of_list. rewrite set_insert_all_In. simpl. intuition. Qed.

Lemma set_of_list_ascending (xs : list A) : ascending ltb (set_of_list ltb xs).
Proof. apply set_insert_all_ascending. constructor. Qed.

Lemma set_count_In (x : A) (s : list A) :
  ascending ltb s -> (set_count ltb x s = true <-> In x s).
Proof.
  unfold ascending. induction s as [|z t IH]; intros Hs; simpl.
  - intuition discriminate.
  - inversion Hs as [|? ? Ht Hz]; subst. rewrite Forall_forall in Hz.
    destruct (ltb x z) eqn:Hxz.
    + split; [discriminate|]. intros [->|Hin].
      * rewrite irreflexive in Hxz. discriminate.
      * pose proof (transitive _ _ _ Hxz (Hz _ Hin)) as Hxx.
        rewrite irreflexive in Hxx. discriminate.
    + destruct (ltb z x) eqn:Hzx.
      * rewrite (IH Ht). split; [auto|]. intros [->|Hin]; [|assumption].
        rewrite irreflexive in Hzx. discriminate.
      * assert (x = z) as -> by now apply tie_equal. intuition.
Qed.

Lemma ascending_NoDup (s : list A) : ascending ltb s -> NoDup s.
Proof.
  unfold ascending. induction 1 as [|z t Ht IH Hz]; constructor; [|assumption].
  intros Hin. rewrite Forall_forall in Hz. specialize (Hz _ Hin).
  rewrite irreflexive in Hz. discriminate.
Qed.

Lemma ascending_filter (p : A -> bool) (s : list A) :
  ascending ltb s -> ascending ltb (filter p s).
Proof.
  unfold ascending. induction 1 as [|z t Ht IH Hz]; simpl; [constructor|].
  destruct (p z); [|assumption].
  constructor; [assumption|].
  rewrite Forall_forall in *. intros w Hw. apply filter_In in Hw. now apply Hz.
Qed.

(** The contents fix the sequence. *)
Lemma ascending_ext (s1 s2 : list A) :
  ascending ltb s1 -> ascending ltb s2 ->
  (forall x, In x s1 <-> In x s2) -> s1 = s2.
Proof.
  unfold ascending. intros H1. revert s2.
  induction H1 as [|x t1 Ht1 IH Hx]; intros s2 H2 Hsame.
  - destruct s2 as [|y t2]; [reflexivity|].
    exfalso. apply (Hsame y). now left.
  - destruct H2 as [|y t2 Ht2 Hy].
    + exfalso. apply (Hsame x). now left.
    + rewrite Forall_forall in Hx, Hy.
      assert (x = y) as ->.
      { destruct (proj1 (Hsame x) (or_introl eq_refl)) as [Hyx|Hin]; [now symmetry|].
        destruct (proj2 (Hsame y) (or_introl eq_refl)) as [Hxy|Hin']; [assumption|].
        pose proof (transitive _ _ _ (Hx _ Hin') (Hy _ Hin)) as Hxx.
        rewrite irreflexive in Hxx. discriminate. }
      f_equal. apply IH; [assumption|].
      intros z. split; intros Hz.
      * destruct (proj1 (Hsame z) (or_intror Hz)) as [->|Hin]; [|assumption].
        specialize (Hx _ Hz). rewrite irreflexive in Hx. discriminate.
      * destruct (proj2 (Hsame z) (or_intror Hz)) as [->|Hin]; [|assumption].
        specialize (Hy _ Hz). rewrite irreflexive in Hy. discriminate.
Qed.

End StrictTotalOrder.

End OrderedFacts.

(** ** comm *)

Module CommClaims.

Import Ordered OrderedFacts Comm StringFacts.

Lemma first_loop_filter (set2 s only_in_1 in_both : list string) :
  fold_left (first_loop set2) s (only_in_1, in_both) =
  (only_in_1 ++ filter (fun x => negb (set_count String.ltb x set2)) s,
   in_both ++ filter (fun x => set_count String.ltb x set2) s).
Proof.
  revert only_in_1 in_both. induction s as [|x s IH]; intros only_in_1 in_both; simpl.
  - now rewrite !app_nil_r.
  - destruct (set_count String.ltb x set2); simpl; rewrite IH, <- app_assoc; reflexivity.
Qed.

Lemma second_loop_filter (set1 s only_in_2 : list string) :
  fold_left (second_loop set1) s only_in_2 =
  only_in_2 ++ filter (fun x => negb (set_count String.ltb x set1)) s.
Proof.
  revert only_in_2. induction s as [|x s IH]; intros only_in_2; simpl.
  - now rewrite app_nil_r.
  - unfold second_loop at 2.
    destruct (set_count String.ltb x set1); simpl; rewrite IH, <- ?app_assoc; reflexivity.
Qed.

(** [comm_impl] by filters on the two sets. *)
Lemma comm_lines_filter (lines1 lines2 : list string) :
  comm_lines lines1 lines2 =
  {| only_in_first :=
       filter (fun x => negb (set_count String.ltb x (set_of_list String.ltb lines2)))
         (set_of_list String.ltb lines1);
     only_in_second :=
       filter (fun x => negb (set_count String.ltb x (set_of_list String.ltb lines1)))
         (set_of_list String.ltb lines2);
     in_both :=
       filter (fun x => set_count String.ltb x (set_of_list String.ltb lines2))
         (set_of_list String.ltb lines1) |}.
Proof.
  unfold comm_lines. rewrite first_loop_filter, second_loop_filter. reflexivity.
Qed.

Lemma string_set_In (xs : list string) (y : string) :
  In y (set_of_list String.ltb xs) <-> In y xs.
Proof. apply set_of_list_In. exact ltb_tie. Qed.

Lemma string_set_ascending (xs : list string) :
  ascending String.ltb (set_of_list String.ltb xs).
Proof. apply set_of_list_ascending; [exact ltb_trans | exact ltb_tie]. Qed.

Lemma string_set_count (x : string) (xs : list string) :
  set_count String.ltb x (set_of_list String.ltb xs) = true <-> In x xs.
Proof.
  rewrite set_count_In.
  - apply string_set_In.
  - exact ltb_irrefl.
  - exact ltb_trans.
  - exact ltb_tie.
  - apply string_set_ascending.
Qed.

Lemma only_in_first_In lines1 lines2 x :
  In x (only_in_first (comm_lines lines1 lines2)) <-> In x lines1 /\ ~ In x lines2.
Proof.
  rewrite comm_lines_filter. simpl. rewrite filter_In, string_set_In, negb_true_iff.
  rewrite <- (string_set_count x lines2).
  destruct (set_count String.ltb x (set_of_list String.ltb lines2)); intuition congruence.
Qed.

Lemma only_in_second_In lines1 lines2 x :
  In x (only_in_second (comm_lines lines1 lines2)) <-> In x lines2 /\ ~ In x lines1.
Proof.
  rewrite comm_lines_filter. simpl. rewrite filter_In, string_set_In, negb_true_iff.
  rewrite <- (string_set_count x lines1).
  destruct (set_count String.ltb x (set_of_list String.ltb lines1)); intuition congruence.
Qed.

Lemma in_both_In lines1 lines2 x :
  In x (in_both (comm_lines lines1 lines2)) <-> In x lines1 /\ In x lines2.
Proof.
  rewrite comm_lines_filter. simpl. rewrite filter_In, string_set_In.
  now rewrite string_set_count.
Qed.

Lemma comm_lines_ascending lines1 lines2 :
  ascending String.ltb (only_in_first (comm_lines lines1 lines2)) /\
  ascending String.ltb (only_in_second (comm_lines lines1 lines2)) /\
  ascending String.ltb (in_both (comm_lines lines1 lines2)).
Proof.
  rewrite comm_lines_filter. simpl.
  repeat split; apply ascending_filter; apply string_set_ascending.
Qed.

(** C8. The lines of [only_in_first] and [in_both] together are the
    lines of the first file, those of [only_in_second] and [in_both] the
    lines of the second; no line is in two of the three collections, and
    none is twice in one. *)
Theorem comm_partition :
  forall lines1 lines2 : list string,
    (forall x, In x (only_in_first (comm_lines lines1 lines2))
               \/ In x (in_both (comm_lines lines1 lines2)) <-> In x lines1) /\
    (forall x, In x (only_in_second (comm_lines lines1 lines2))
               \/ In x (in_both (comm_lines lines1 lines2)) <-> In x lines2) /\
    (forall x, ~ (In x (only_in_first (comm_lines lines1 lines2))
                  /\ In x (in_both (comm_lines lines1 lines2)))) /\
    (forall x, ~ (In x (only_in_second (comm_lines lines1 lines2))
                  /\ In x (in_both (comm_lines lines1 lines2)))) /\
    (forall x, ~ (In x (only_in_first (comm_lines lines1 lines2))
                  /\ In x (only_in_second (comm_lines lines1 lines2)))) /\
    NoDup (only_in_first (comm_lines lines1 lines2)) /\
    NoDup (only_in_second (comm_lines lines1 lines2)) /\
    NoDup (in_both (comm_lines lines1 lines2)).
Proof.
  intros lines1 lines2.
  destruct (comm_lines_ascending lines1 lines2) as (H1 & H2 & H3).
  split; [|split; [|split; [|split; [|split; [|split; [|split]]]]]].
  - intros x. rewrite only_in_first_In, in_both_In.
    destruct (in_dec string_dec x lines2); tauto.
  - intros x. rewrite only_in_second_In, in_both_In.
    destruct (in_dec string_dec x lines1); tauto.
  - intros x. rewrite only_in_first_In, in_both_In. tauto.
  - intros x. rewrite only_in_second_In, in_both_In. tauto.
  - intros x. rewrite only_in_first_In, only_in_second_In. tauto.
  - apply (ascending_NoDup String.ltb ltb_irrefl). assumption.
  - apply (ascending_NoDup String.ltb ltb_irrefl). assumption.
  - apply (ascending_NoDup String.ltb ltb_irrefl). assumption.
Qed.

(** C10. Each of the three collections is in strictly ascending order of
    bytes, so without duplicates, and the result is the same for any other
    order of the lines of either file. *)
Theorem comm_ascending_any_order :
  forall lines1 lines2 lines1' lines2' : list string,
    Permutation lines1 lines1' -> Permutation lines2 lines2' ->
    ascending String.ltb (only_in_first (comm_lines lines1 lines2)) /\
    ascending String.ltb (only_in_second (comm_lines lines1 lines2)) /\
    ascending String.ltb (in_both (comm_lines lines1 lines2)) /\
    NoDup (only_in_first (comm_lines lines1 lines2)) /\
    NoDup (only_in_second (comm_lines lines1 lines2)) /\
    NoDup (in_both (comm_lines lines1 lines2)) /\
    comm_lines lines1' lines2' = comm_lines lines1 lines2.
Proof.
  intros lines1 lines2 lines1' lines2' Hp1 Hp2.
  destruct (comm_lines_ascending lines1 lines2) as (H1 & H2 & H3).
  repeat split; try assumption;
    try (apply (ascending_NoDup String.ltb ltb_irrefl); assumption).
  assert (forall l l', Permutation l l' ->
            set_of_list String.ltb l' = set_of_list String.ltb l) as Hset.
  { intros l l' Hp.
    apply (ascending_ext String.ltb ltb_irrefl ltb_trans);
      try apply string_set_ascending.
    intros x. rewrite !string_set_In. split; apply Permutation_in; [now symmetry | assumption]. }
  unfold comm_lines. now rewrite (Hset _ _ Hp1), (Hset _ _ Hp2).
Qed.

Lemma comm_ascending_any_order_witness :
  ascending String.ltb (only_in_first (comm_lines ["b"; "a"; "c"; "a"] ["c"; "d"; "b"])) /\
  ascending String.ltb (only_in_second (comm_lines ["b"; "a"; "c"; "a"] ["c"; "d"; "b"])) /\
  ascending String.ltb (in_both (comm_lines ["b"; "a"; "c"; "a"] ["c"; "d"; "b"])) /\
  NoDup (only_in_first (comm_lines ["b"; "a"; "c"; "a"] ["c"; "d"; "b"])) /\
  NoDup (only_in_second (comm_lines ["b"; "a"; "c"; "a"] ["c"; "d"; "b"])) /\
  NoDup (in_both (comm_lines ["b"; "a"; "c"; "a"] ["c"; "d"; "b"])) /\
  comm_lines ["a"; "b"; "c"; "a"] ["d"; "c"; "b"]
    = comm_lines ["b"; "a"; "c"; "a"] ["c"; "d"; "b"].
Proof.
  apply (comm_ascending_any_order
           ["b"; "a"; "c"; "a"] ["c"; "d"; "b"] ["a"; "b"; "c"; "a"] ["d"; "c"; "b"]).
  - apply perm_swap.
  - apply perm_swap.
Defined.

Example comm_example :
  comm_lines ["b"; "a"; "c"; "a"] ["c"; "d"; "b"] =
  {| only_in_first := ["a"]; only_in_second := ["d"]; in_both := ["b"; "c"] |}.
Proof. reflexivity. Qed.

End CommClaims.

(** ** Multimaps *)

Module MultimapFacts.

Import Ordered.

Section KeyOrder.

Context {A V : Type} (ltb : A -> A -> bool).

Hypothesis irreflexive : forall a, ltb a a = false.
Hypothesis transitive : forall a b c, ltb a b = true -> ltb b c = true -> ltb a c = true.
Hypothesis tie_equal : forall a b, ltb a b = false -> ltb b a = false -> a = b.

(** Not below, transitively. *)
Lemma not_below_trans (a b c : A) :
  ltb a b = true -> ltb c b = false -> ltb c a = false.
Proof.
  intros Hab Hcb. destruct (ltb c a) eqn:Hca; [|reflexivity].
  rewrite (transitive _ _ _ Hca Hab) in Hcb. discriminate.
Qed.

Lemma below_not_below (a b c : A) :
  ltb a b = true -> ltb c b = false -> ltb a c = true.
Proof.
  intros Hab Hcb. destruct (ltb a c) eqn:Hac; [reflexivity|].
  destruct (ltb b c) eqn:Hbc.
  - now rewrite (transitive _ _ _ Hab Hbc) in Hac.
  - assert (b = c) as <- by now apply tie_equal. congruence.
Qed.

(** Past a key above [k] no pair has key [k]. *)
Lemma filter_same_key_above (k : A) (m : list (A * V)) :
  Forall (fun p => ltb k (fst p) = true) m -> filter (same_key ltb k) m = [].
Proof.
  induction 1 as [|p t Hp Ht IH]; simpl; [reflexivity|].
  unfold same_key at 1. now rewrite Hp, andb_false_r.
Qed.

Lemma key_ordered_above (k : A) (p : A * V) (t : list (A * V)) :
  ltb k (fst p) = true ->
  Forall (fun q => ltb (fst q) (fst p) = false) t ->
  Forall (fun q => ltb k (fst q) = true) t.
Proof.
  intros Hk. apply Forall_impl. intros q Hq. now apply below_not_below with (b := fst p).
Qed.

Lemma multimap_emplace_In (k : A) (v : V) (m : list (A * V)) (p : A * V) :
  In p (multimap_emplace ltb k v m) <-> p = (k, v) \/ In p m.
Proof.
  induction m as [|[k' v'] t IH]; simpl.
  - intuition.
  - destruct (ltb k k'); simpl; [intuition|]. rewrite IH. intuition.
Qed.

Lemma multimap_emplace_ordered (k : A) (v : V) (m : list (A * V)) :
  key_ordered ltb m -> key_ordered ltb (multimap_emplace ltb k v m).
Proof.
  unfold key_ordered. induction 1 as [|[k' v'] t Ht IH Hk']; simpl.
  - repeat constructor.
  - destruct (ltb k k') eqn:Hkk'.
    + constructor; [now constructor|].
      constructor.
      * simpl. destruct (ltb k' k) eqn:E; [|reflexivity].
        pose proof (transitive _ _ _ Hkk' E) as Hkk. now rewrite irreflexive in Hkk.
      * simpl in Hk'. rewrite Forall_forall in *. intros q Hq. simpl.
        apply not_below_trans with (b := k'); auto.
    + constructor; [assumption|].
      rewrite Forall_forall in *. intros q Hq.
      apply multimap_emplace_In in Hq. destruct Hq as [->|Hq]; auto.
Qed.

(** A pair of another key does not show among the pairs of key [k]. *)
Lemma multimap_emplace_other (k k' : A) (v : V) (m : list (A * V)) :
  same_key ltb k (k', v) = false ->
  filter (same_key ltb k) (multimap_emplace ltb k' v m) = filter (same_key ltb k) m.
Proof.
  intros Hother. induction m as [|[k1 v1] t IH]; simpl.
  - now rewrite Hother.
  - destruct (ltb k' k1); simpl.
    + now rewrite Hother.
    + now rewrite IH.
Qed.

(** A pair of key [k] comes last among the pairs of key [k]. *)
Lemma multimap_emplace_same (k k' : A) (v : V) (m : list (A * V)) :
  key_ordered ltb m ->
  same_key ltb k (k', v) = true ->
  filter (same_key ltb k) (multimap_emplace ltb k' v m)
    = filter (same_key ltb k) m ++ [(k', v)].
Proof.
  intros Hm Hsame.
  assert (k' = k) as ->.
  { unfold same_key in Hsame. simpl in Hsame. apply andb_prop in Hsame.
    destruct Hsame as [H1 H2]. apply negb_true_iff in H1, H2. now apply tie_equal. }
  unfold key_ordered in Hm. induction Hm as [|[k1 v1] t Ht IH Hk1]; simpl.
  - now rewrite Hsame.
  - destruct (ltb k k1) eqn:Hkk1; simpl.
    + assert (same_key ltb k (k1, v1) = false) as Hother
        by (unfold same_key; simpl; now rewrite Hkk1, andb_false_r).
      rewrite Hsame, Hother.
      rewrite filter_same_key_above; [reflexivity|].
      now apply key_ordered_above with (p := (k1, v1)).
    + rewrite IH. now destruct (same_key ltb k (k1, v1)).
Qed.

Lemma until_upper_bound_filter (k : A) (m : list (A * V)) :
  key_ordered ltb m ->
  Forall (fun p => ltb (fst p) k = false) m ->
  until_upper_bound ltb k m = filter (same_key ltb k) m.
Proof.
  unfold key_ordered. induction 1 as [|[k1 v1] t Ht IH Hk1]; intros Hall; simpl.
  - reflexivity.
  - inversion Hall as [|? ? H1 Hrest]; subst. simpl in H1.
    unfold same_key at 1. simpl. rewrite H1. simpl.
    destruct (ltb k k1) eqn:Hkk1; simpl.
    + symmetry. apply filter_same_key_above.
      now apply key_ordered_above with (p := (k1, v1)).
    + f_equal. now apply IH.
Qed.

(** [equal_range] is the sequence of the pairs of key [k]. *)
Lemma equal_range_filter (k : A) (m : list (A * V)) :
  key_ordered ltb m -> equal_range ltb k m = filter (same_key ltb k) m.
Proof.
  unfold equal_range, key_ordered. induction 1 as [|[k1 v1] t Ht IH Hk1].
  - reflexivity.
  - cbn [lower_bound]. destruct (ltb k1 k) eqn:Hk1k.
    + cbn [filter]. unfold same_key at 1. cbn [fst]. rewrite Hk1k. exact IH.
    + apply until_upper_bound_filter.
      * now constructor.
      * constructor; [assumption|].
        rewrite Forall_forall in *. intros q Hq. specialize (Hk1 _ Hq). simpl in Hk1.
        destruct (ltb (fst q) k) eqn:E; [|reflexivity].
        destruct (ltb k k1) eqn:Hkk1.
        -- now rewrite (transitive _ _ _ E Hkk1) in Hk1.
        -- assert (k1 = k) as <- by now apply tie_equal. congruence.
Qed.

End KeyOrder.

End MultimapFacts.

(** ** join *)

Module JoinClaims.

Import Ordered MultimapFacts Join StringFacts.

Lemma same_key_eqb (k k' : string) (v : string) :
  same_key String.ltb k (k', v) = String.eqb k' k.
Proof.
  unfold same_key. simpl. destruct (String.eqb k' k) eqn:E.
  - apply String.eqb_eq in E. subst. now rewrite ltb_irrefl.
  - apply String.eqb_neq in E.
    destruct (String.ltb k' k) eqn:E1; [reflexivity|].
    destruct (String.ltb k k') eqn:E2; [reflexivity|].
    exfalso. apply E. now apply ltb_tie.
Qed.

Section Index.

Variables (sep : ascii) (field2 : Z).

Let emplace_line (index2 : list (string * string)) (line : string) :=
  multimap_emplace String.ltb (get_field sep line field2) line index2.

(** The index keeps, key by key, the lines of the second file in the
    order of the file. *)
Lemma build_index_from (lines2 : list string) :
  forall index2,
    key_ordered String.ltb index2 ->
    key_ordered String.ltb (fold_left emplace_line lines2 index2) /\
    forall k,
      filter (same_key String.ltb k) (fold_left emplace_line lines2 index2) =
      filter (same_key String.ltb k) index2 ++
      map (fun line => (get_field sep line field2, line))
        (filter (fun line => String.eqb (get_field sep line field2) k) lines2).
Proof.
  induction lines2 as [|line lines2 IH]; intros index2 Hord; simpl.
  - split; [assumption|]. intros k. now rewrite app_nil_r.
  - assert (key_ordered String.ltb (emplace_line index2 line)) as Hord'
      by (apply (multimap_emplace_ordered String.ltb ltb_irrefl ltb_trans); assumption).
    destruct (IH _ Hord') as [Hfinal Hfilter]. split; [assumption|].
    intros k. rewrite Hfilter. unfold emplace_line at 1.
    destruct (String.eqb (get_field sep line field2) k) eqn:E.
    + rewrite (multimap_emplace_same String.ltb ltb_trans ltb_tie);
        [|assumption | now rewrite same_key_eqb].
      rewrite <- app_assoc. reflexivity.
    + rewrite multimap_emplace_other; [reflexivity | now rewrite same_key_eqb].
Qed.

Lemma equal_range_build_index (lines2 : list string) (k : string) :
  map snd (equal_range String.ltb k (build_index sep field2 lines2)) =
  filter (fun line => String.eqb (get_field sep line field2) k) lines2.
Proof.
  unfold build_index.
  destruct (build_index_from lines2 []) as [Hord Hfilter]; [constructor|].
  fold emplace_line.
  rewrite (equal_range_filter String.ltb ltb_trans ltb_tie) by assumption.
  rewrite Hfilter. simpl. rewrite map_map. simpl. apply map_id.
Qed.

End Index.

Lemma rows_of_matches (sep : ascii) (field1 field2 : Z) (lines2 : list string) (line : string) :
  rows_of sep field1 (build_index sep field2 lines2) line =
  map (row sep line) (matches sep field1 field2 lines2 line).
Proof.
  unfold rows_of, matches. rewrite <- equal_range_build_index. now rewrite map_map.
Qed.

Lemma put_rows_app (oss : string) (r1 r2 : list string) :
  put_rows oss (r1 ++ r2) = put_rows (put_rows oss r1) r2.
Proof. apply fold_left_app. Qed.

Lemma join_lines_rows lines1 lines2 field1 field2 separator :
  join_lines lines1 lines2 field1 field2 separator =
  put_rows EmptyString (join_rows lines1 lines2 field1 field2 separator).
Proof.
  unfold join_lines, join_rows. generalize EmptyString.
  induction lines1 as [|line lines1 IH]; intros oss; simpl.
  - reflexivity.
  - now rewrite put_rows_app, IH.
Qed.

(** The rows of [join_impl], written out. *)
Lemma join_rows_matches lines1 lines2 field1 field2 separator :
  join_rows lines1 lines2 field1 field2 separator =
  flat_map
    (fun line =>
       map (fun other => line +:+ String (separator_of separator) other)
         (filter
            (fun other =>
               String.eqb (get_field (separator_of separator) other field2)
                 (get_field (separator_of separator) line field1)) lines2))
    lines1.
Proof. unfold join_rows. apply flat_map_ext. intros line. apply rows_of_matches. Qed.

Lemma concat_empty (x : string) (xs : list string) :
  String.concat EmptyString (x :: xs) = x +:+ String.concat EmptyString xs.
Proof. destruct xs; [symmetry; apply append_empty_r|reflexivity]. Qed.

(** What [put_rows] writes. *)
Lemma put_rows_concat (rows : list string) :
  forall oss,
    put_rows oss rows =
    oss +:+ String.concat EmptyString
              (map (fun r => r +:+ String newline EmptyString) rows).
Proof.
  induction rows as [|r rows IH]; intros oss.
  - simpl. now rewrite append_empty_r.
  - unfold put_rows in *. cbn [fold_left map]. rewrite IH, concat_empty.
    now rewrite !append_assoc.
Qed.

Lemma no_newline_append (a b : string) :
  Text.no_newline a = true -> Text.no_newline b = true ->
  Text.no_newline (a +:+ b) = true.
Proof.
  intros Ha Hb. induction a as [|c a IH]; [exact Hb|].
  cbn [String.append Text.no_newline] in *. apply andb_prop in Ha.
  destruct Ha as [Hc Ha]. now rewrite Hc, IH.
Qed.

(** C7.  For two files that can be read, [join_impl] returns the rows
    below, each closed by a newline and nothing else: for every line of the
    first file, in the order of that file, one row for every line of the
    second file whose key is the key of the line, in the order of the second
    file; a row is the line of the first file, the separator (the first
    character of the argument, a space when the argument is empty) and the
    line of the second file.  A line without a match gives no row.  The
    number of rows is the sum over the lines of the first file of their
    numbers of matches, and, the separator not being a newline, the rows are
    the lines of the text returned. *)
Theorem join_cardinality :
  forall (fs : LineSource.filesystem) (file1 file2 : string) (field1 field2 : Z)
    (separator : string) (lines1 lines2 : list string),
    LineSource.read_lines fs file1 = Ok lines1 ->
    LineSource.read_lines fs file2 = Ok lines2 ->
    let sep := match separator with
               | EmptyString => " "%char
               | String c _ => c
               end in
    let matched := fun line =>
      filter (fun other =>
                String.eqb (get_field sep other field2) (get_field sep line field1))
        lines2 in
    let rows :=
      flat_map (fun line => map (fun other => line +:+ String sep other) (matched line))
        lines1 in
    exists out,
      join_impl fs file1 file2 field1 field2 separator = Ok out /\
      out = String.concat EmptyString
              (map (fun r => r +:+ String newline EmptyString) rows) /\
      (sep <> newline -> getline_all newline out = rows) /\
      length rows = list_sum (map (fun line => length (matched line)) lines1).
Proof.
  intros fs file1 file2 field1 field2 separator lines1 lines2 Hread1 Hread2
    sep matched rows.
  assert (join_rows lines1 lines2 field1 field2 separator = rows) as Hrows
    by apply join_rows_matches.
  exists (LineSource.put_lines rows). split; [|split; [|split]].
  - unfold join_impl. rewrite Hread1, Hread2. cbn [bind].
    now rewrite join_lines_rows, Hrows.
  - change (LineSource.put_lines rows) with (put_rows EmptyString rows).
    now rewrite put_rows_concat.
  - intros Hsep. apply LineFacts.getline_all_put_lines.
    pose proof (LineFacts.read_lines_no_newline _ _ _ Hread1) as Hfree1.
    pose proof (LineFacts.read_lines_no_newline _ _ _ Hread2) as Hfree2.
    rewrite Forall_forall in Hfree1, Hfree2.
    apply Forall_forall. intros row Hrow. unfold rows in Hrow.
    apply in_flat_map in Hrow. destruct Hrow as (line & Hline & Hrow).
    apply in_map_iff in Hrow. destruct Hrow as (other & <- & Hother).
    apply filter_In in Hother. destruct Hother as [Hother _].
    apply no_newline_append; [now apply Hfree1|].
    cbn [Text.no_newline]. rewrite (Hfree2 other Hother), andb_true_r.
    apply negb_true_iff. now apply Ascii.eqb_neq.
  - unfold rows. clear. induction lines1 as [|line lines1 IH]; [reflexivity|].
    cbn [flat_map map list_sum]. now rewrite length_app, length_map, IH.
Qed.

Lemma join_cardinality_witness :
  let fs := LineSource.two_files "left" ("1 a" +:+ String newline ("2 b" +:+ String newline
                                           ("3 c" +:+ String newline EmptyString)))
              "right" ("2 x" +:+ String newline ("1 y" +:+ String newline
                         ("2 z" +:+ String newline EmptyString))) in
  let lines1 := ["1 a"; "2 b"; "3 c"] in
  let lines2 := ["2 x"; "1 y"; "2 z"] in
  let sep := " "%char in
  let matched := fun line =>
    filter (fun other => String.eqb (get_field sep other 1) (get_field sep line 1))
      lines2 in
  let rows :=
    flat_map (fun line => map (fun other => line +:+ String sep other) (matched line))
      lines1 in
  exists out,
    join_impl fs "left" "right" 1 1 EmptyString = Ok out /\
    out = String.concat EmptyString
            (map (fun r => r +:+ String newline EmptyString) rows) /\
    (sep <> newline -> getline_all newline out = rows) /\
    length rows = list_sum (map (fun line => length (matched line)) lines1).
Proof.
  intros fs lines1 lines2.
  apply (join_cardinality fs "left" "right" 1 1 EmptyString lines1 lines2); reflexivity.
Defined.

Example join_example :
  join_rows ["1 a"; "2 b"; "3 c"] ["2 x"; "1 y"; "2 z"] 1 1 "" =
  ["1 a 1 y"; "2 b 2 x"; "2 b 2 z"].
Proof. reflexivity. Qed.

End JoinClaims.

(** ** cut: the selector *)

Module SelectorProps.

Import Ordered OrderedFacts Cut.

Lemma Zltb_trans (a b c : Z) : Z.ltb a b = true -> Z.ltb b c = true -> Z.ltb a c = true.
Proof. rewrite !Z.ltb_lt. lia. Qed.

Lemma Zltb_tie (a b : Z) : Z.ltb a b = false -> Z.ltb b a = false -> a = b.
Proof. rewrite !Z.ltb_ge. lia. Qed.

(** A part of the selector either throws or inserts integers that depend
    on the part alone. *)
Lemma add_part_spec (part : string) :
  (exists e, forall field_set, add_part field_set part = Throw e) \/
  (exists values, forall field_set,
      add_part field_set part = Ok (set_insert_all Z.ltb values field_set)).
Proof.
  unfold add_part. destruct (find "-"%char part) as [dash|].
  - destruct (stoi (substr_to dash part)) as [first|e]; [|left; now exists e].
    destruct (stoi (substr_from (S dash) part)) as [last|e]; [|left; now exists e].
    cbn [bind]. destruct (last =? int_max)%Z; [left; now exists Undefined|].
    right. now exists (int_range first last).
  - destruct (stoi part) as [f|e]; [|left; now exists e].
    right. now exists [f].
Qed.


Lemma parts_loop_throw (parts : list string) (e : exn) :
  fold_left (fun acc part => field_set <- acc ;; add_part field_set part) parts (Throw e) = Throw e.
Proof. induction parts as [|p parts IH]; [reflexivity|exact IH]. Qed.

Lemma parts_loop_ascending (parts : list string) :
  forall field_set s,
    ascending Z.ltb field_set ->
    fold_left (fun acc part => field_set <- acc ;; add_part field_set part) parts (Ok field_set) = Ok s -> ascending Z.ltb s.
Proof.
  induction parts as [|p parts IH]; intros field_set s Hasc Hs.
  - injection Hs as <-. exact Hasc.
  - cbn [fold_left bind] in Hs.
    destruct (add_part_spec p) as [[e He]|[values Hv]].
    + rewrite He, parts_loop_throw in Hs. discriminate.
    + rewrite Hv in Hs. apply IH in Hs; [assumption|].
      now apply (set_insert_all_ascending Z.ltb Zltb_trans Zltb_tie).
Qed.

Lemma parts_loop_permutation (parts1 parts2 : list string) :
  Permutation parts1 parts2 ->
  forall field_set s,
    ascending Z.ltb field_set ->
    fold_left (fun acc part => field_set <- acc ;; add_part field_set part) parts1 (Ok field_set) = Ok s -> fold_left (fun acc part => field_set <- acc ;; add_part field_set part) parts2 (Ok field_set) = Ok s.
Proof.
  induction 1 as [|p l1 l2 Hperm IH|p q l|l1 l2 l3 H12 IH12 H23 IH23];
    intros field_set s Hasc Hs.
  - exact Hs.
  - cbn [fold_left bind] in *.
    destruct (add_part_spec p) as [[e He]|[values Hv]].
    + rewrite He, parts_loop_throw in Hs. discriminate.
    + rewrite Hv in *. apply IH; [|assumption].
      now apply (set_insert_all_ascending Z.ltb Zltb_trans Zltb_tie).
  - cbn [fold_left bind] in *.
    destruct (add_part_spec p) as [[e He]|[vp Hp]];
      destruct (add_part_spec q) as [[e' He']|[vq Hq]];
      rewrite ?He, ?He', ?Hp, ?Hq in *; cbn [bind] in *;
      rewrite ?He, ?He', ?Hp, ?Hq in *; cbn [bind] in *;
      rewrite ?parts_loop_throw in *; try discriminate.
    replace (set_insert_all Z.ltb vq (set_insert_all Z.ltb vp field_set))
      with (set_insert_all Z.ltb vp (set_insert_all Z.ltb vq field_set)); [assumption|].
    apply (ascending_ext Z.ltb Z.ltb_irrefl Zltb_trans).
    + now repeat apply (set_insert_all_ascending Z.ltb Zltb_trans Zltb_tie).
    + now repeat apply (set_insert_all_ascending Z.ltb Zltb_trans Zltb_tie).
    + intros x. rewrite !(set_insert_all_In Z.ltb Zltb_tie). tauto.
  - apply IH23; [assumption|]. now apply IH12.
Qed.

(** X13. The selector of [cut_impl] is a set: when a selector parses,
    its field set is strictly ascending, and a selector with the same parts
    in another order parses to the same set, so that [cut_impl] returns the
    same text for both: the fields come out in the order of the line, not in
    the order of the selector. *)
Theorem cut_selector_order :
  forall (fields1 fields2 : string) (field_set : list Z),
    Permutation (getline_all ","%char fields1) (getline_all ","%char fields2) ->
    parse_fields fields1 = Ok field_set ->
    ascending Z.ltb field_set /\
    parse_fields fields2 = Ok field_set /\
    forall fs path delimiter,
      cut_impl fs path delimiter fields2 = cut_impl fs path delimiter fields1.
Proof.
  intros fields1 fields2 field_set Hperm Hparse.
  assert (parse_fields fields2 = Ok field_set) as Hparse2.
  { apply (parts_loop_permutation _ _ Hperm [] field_set); [constructor|exact Hparse]. }
  split; [|split; [exact Hparse2|]].
  - apply (parts_loop_ascending (getline_all ","%char fields1) [] field_set);
      [constructor|exact Hparse].
  - intros fs path delimiter. unfold cut_impl. now rewrite Hparse, Hparse2.
Qed.

Lemma cut_selector_order_witness :
  ascending Z.ltb [1%Z; 3%Z] /\
  parse_fields "1,3" = Ok [1%Z; 3%Z] /\
  forall fs path delimiter,
    cut_impl fs path delimiter "1,3" = cut_impl fs path delimiter "3,1".
Proof.
  apply (cut_selector_order "3,1" "1,3" [1%Z; 3%Z]).
  - apply perm_swap.
  - reflexivity.
Defined.

End SelectorProps.

(** ** cut *)

Module CutClaims.

Import Cut StringFacts.

(** The tokens written after the first one, each behind a delimiter. *)
Lemma put_field_rest (sep : ascii) (tokens : list string) (field_set : list Z) :
  forall oss,
    fold_left (put_field sep tokens) field_set (oss, false) =
    (oss +:+ String.concat EmptyString
               (map (fun f => String sep (token tokens f))
                  (filter (in_range tokens) field_set)),
     false).
Proof.
  induction field_set as [|f field_set IH]; intros oss; simpl.
  - now rewrite append_empty_r.
  - destruct (in_range tokens f); [|apply IH].
    rewrite IH. f_equal.
    cbn [map]. rewrite !append_assoc. f_equal.
    destruct (map _ (filter _ field_set)); simpl.
    + now rewrite append_empty_r.
    + reflexivity.
Qed.

Lemma concat_cons (sep : ascii) (t : string) (ts : list string) :
  String.concat (String sep EmptyString) (t :: ts) =
  t +:+ String.concat EmptyString (map (fun x => String sep x) ts).
Proof.
  revert t. induction ts as [|u ts IH]; intros t.
  - simpl. now rewrite append_empty_r.
  - change (String.concat (String sep EmptyString) (t :: u :: ts))
      with (t +:+ String sep EmptyString +:+ String.concat (String sep EmptyString) (u :: ts)).
    rewrite IH. f_equal. simpl. destruct (map _ ts); simpl.
    + now rewrite append_empty_r.
    + reflexivity.
Qed.

(** The loop over [field_set] writes the fields the line has, joined by
    the delimiter. *)
Lemma put_field_first (sep : ascii) (tokens : list string) (field_set : list Z) :
  forall oss,
    fst (fold_left (put_field sep tokens) field_set (oss, true)) =
    oss +:+ String.concat (String sep EmptyString)
              (map (token tokens) (filter (in_range tokens) field_set)).
Proof.
  induction field_set as [|f field_set IH]; intros oss; simpl.
  - now rewrite append_empty_r.
  - destruct (in_range tokens f); [|apply IH].
    rewrite put_field_rest. cbn [fst map]. rewrite concat_cons, map_map.
    now rewrite append_assoc.
Qed.







(** The fourth scenario of the specification. *)
Example cut_scenario :
  parse_fields "1,3" = Ok [1%Z; 3%Z] /\
  cut_line ":" [1%Z; 3%Z] EmptyString "a:b:c" = "a:c" +:+ String newline EmptyString.
Proof. split; reflexivity. Qed.

End CutClaims.

(** ** grep *)

Module GrepClaims.

Import Grep.

Section Resolution.

Variable fs : LineSource.filesystem.

Lemma push_regular_files_spec (entries : list string) :
  forall files log,
    push_regular_files fs entries files log =
    (Ok (files ++ filter (regular fs) entries), log ++ map EntryIsRegularFile entries).
Proof.
  induction entries as [|e entries IH]; intros files log; simpl.
  - unfold ret. now rewrite !app_nil_r.
  - unfold iobind, entry_is_regular_file, access. rewrite IH.
    rewrite <- app_assoc. simpl.
    destruct (regular fs e); [rewrite <- app_assoc|]; reflexivity.
Qed.

(** What [collect_files] returns and the accesses it makes, by the kind
    of the path. *)
Lemma collect_files_spec (recursive : bool) (p : string) (log : list event) :
  collect_files fs recursive p log =
  match fs p with
  | None => (Throw (no_such_file p), log ++ [Exists p])
  | Some (LineSource.RegularFile _) => (Ok [p], log ++ [Exists p; IsRegularFile p])
  | Some (LineSource.Directory walk) =>
      if recursive
      then (Ok (filter (regular fs) walk),
            log ++ [Exists p; IsRegularFile p; IsDirectory p; Iterate p]
                ++ map EntryIsRegularFile walk)
      else (Throw (is_a_directory p),
            log ++ [Exists p; IsRegularFile p; IsDirectory p; IsDirectory p])
  | Some LineSource.Special =>
      (Ok [], log ++ [Exists p; IsRegularFile p; IsDirectory p; IsDirectory p])
  end.
Proof.
  unfold collect_files, iobind, exists_, is_regular_file, is_directory,
    recursive_directory_iterator, access, throw, ret, regular.
  destruct (fs p) as [[content|walk|]|] eqn:Hp; simpl.
  - now rewrite <- app_assoc.
  - destruct recursive; simpl.
    + rewrite push_regular_files_spec. simpl.
      now rewrite <- !app_assoc.
    + now rewrite <- !app_assoc.
  - now rewrite <- !app_assoc.
  - reflexivity.
Qed.


End Resolution.




(** A search that goes through: lines 1 and 3 hold the pattern. *)
Example grep_example :
  fst (grep_impl (H := Reference.plain_text_engine)
         (LineSource.two_files "log"
            ("errcode: 1" +:+ String newline ("ok" +:+ String newline "error: 2")) "" "")
         "err" "log" false false true false false false false []) =
  Ok (Entries [ {| file := None; number := Some 1%Z; line := "errcode: 1" |};
                {| file := None; number := Some 3%Z; line := "error: 2" |} ]).
Proof. reflexivity. Qed.

End GrepClaims.


(** ** cat, head, tail *)

Module TextProps.

Import StringFacts Text LineFacts.

Lemma substr_split (n : nat) (s : string) : substr_to n s +:+ substr_from n s = s.
Proof.
  revert s. induction n as [|n IH]; intros s; [reflexivity|].
  destruct s as [|c s]; [reflexivity|]. simpl. now rewrite IH.
Qed.

Lemma substr_to_all (n : nat) (s : string) : String.length s <= n -> substr_to n s = s.
Proof.
  revert s. induction n as [|n IH]; intros [|c s] Hlen; simpl in *; try reflexivity; try lia.
  rewrite IH by lia. reflexivity.
Qed.

Lemma substr_from_length (n : nat) (s : string) :
  String.length (substr_from n s) = String.length s - n.
Proof.
  revert s. induction n as [|n IH]; intros [|c s]; simpl; try reflexivity; try lia.
  apply IH.
Qed.

(** [total - n] stays in [int] when [n] is not negative, or when the
    difference is no more than [INT_MAX]. *)
Lemma int_sub_exact (total n : Z) :
  (0 <= n)%Z \/ (total - n <= Cut.int_max)%Z -> int_sub total n = (total - n)%Z.
Proof.
  intros Hn. unfold int_sub. cbv zeta.
  destruct (Z.ltb_spec n 0) as [Hneg|_]; [|reflexivity].
  destruct (Z.ltb_spec Cut.int_max (total - n)) as [Hover|_]; [lia|reflexivity].
Qed.

Lemma int_sub_wraps (total n : Z) :
  (n < 0)%Z -> (Cut.int_max < total - n)%Z -> int_sub total n = (total - n - 2 ^ 32)%Z.
Proof.
  intros Hneg Hover. unfold int_sub. cbv zeta.
  apply Z.ltb_lt in Hneg, Hover. now rewrite Hneg, Hover.
Qed.

(** X1. With [0 <= n <= total], the first [n] lines that [head_impl]
    returns, followed by the last [total - n] lines that [tail_impl]
    returns, are what [cat_impl] returns without its flags: the two commands
    cut the file in two parts and lose nothing. *)
Theorem head_tail_split :
  forall (fs : LineSource.filesystem) (path : string) (lines : list string) (n : Z),
    LineSource.read_lines fs path = Ok lines ->
    (0 <= n <= Z.of_nat (length lines))%Z ->
    exists h t,
      head_impl fs path n 0 = Ok h /\
      tail_impl fs path (Z.of_nat (length lines) - n) 0 = Ok t /\
      cat_impl fs path false false = Ok (h +:+ t).
Proof.
  intros fs path lines n Hread Hn.
  exists (head_lines lines n), (tail_lines lines (Z.of_nat (length lines) - n)).
  unfold head_impl, tail_impl, cat_impl. simpl. rewrite Hread. simpl.
  repeat split. f_equal.
  rewrite cat_lines_plain. unfold head_lines, tail_lines.
  rewrite int_sub_exact by lia.
  rewrite !put_range_lines by lia.
  rewrite <- put_lines_app. f_equal.
  replace (Z.to_nat (Z.min n (Z.of_nat (length lines)) - 0)) with (Z.to_nat n) by lia.
  replace (Z.to_nat (Z.max 0 (Z.of_nat (length lines) - (Z.of_nat (length lines) - n))))
    with (Z.to_nat n) by lia.
  simpl skipn at 1.
  rewrite (firstn_all2 (n := Z.to_nat (Z.of_nat (length lines) - Z.max 0 _)))
    by (rewrite length_skipn; lia).
  symmetry. apply firstn_skipn.
Qed.

Lemma head_tail_split_witness :
  exists h t,
    head_impl (LineSource.two_files "f" "a
b
c
" "" "") "f" 1 0 = Ok h /\
    tail_impl (LineSource.two_files "f" "a
b
c
" "" "") "f" (Z.of_nat (length ["a"; "b"; "c"]) - 1) 0 = Ok t /\
    cat_impl (LineSource.two_files "f" "a
b
c
" "" "") "f" false false = Ok (h +:+ t).
Proof.
  apply (head_tail_split (LineSource.two_files "f" "a
b
c
" "" "") "f" ["a"; "b"; "c"] 1).
  - reflexivity.
  - simpl. lia.
Defined.

(** X2. For an [int] [n] and a file of no more lines than an [int]
    holds: a count of zero or less makes the line branch of [head_impl]
    return the empty text, and so does that of [tail_impl] as long as
    [total - n] stays in [int]; below, the difference wraps around and
    [tail_impl] returns every line.  A count of the number of lines or more
    makes both return every line. *)
Theorem head_tail_bounds :
  forall (lines : list string) (n : Z),
    (Cut.int_min <= n <= Cut.int_max)%Z ->
    (Z.of_nat (length lines) <= Cut.int_max)%Z ->
    ((n <= 0)%Z -> head_lines lines n = EmptyString) /\
    ((n <= 0)%Z -> (Z.of_nat (length lines) - Cut.int_max <= n)%Z ->
     tail_lines lines n = EmptyString) /\
    ((n < Z.of_nat (length lines) - Cut.int_max)%Z ->
     tail_lines lines n = LineSource.put_lines lines) /\
    ((Z.of_nat (length lines) <= n)%Z ->
     head_lines lines n = LineSource.put_lines lines /\
     tail_lines lines n = LineSource.put_lines lines).
Proof.
  intros lines n Hint Htotal.
  assert (Cut.int_max = 2147483647%Z) as Hmax by reflexivity.
  assert (Cut.int_min = (-2147483648)%Z) as Hmin by reflexivity.
  assert ((2 ^ 32)%Z = 4294967296%Z) as Hpow by reflexivity.
  unfold head_lines, tail_lines. split; [|split; [|split]].
  - intros Hn. apply put_range_empty. lia.
  - intros Hn Hlow. rewrite int_sub_exact by lia. apply put_range_empty. lia.
  - intros Hlow. rewrite int_sub_wraps by lia. rewrite Hpow.
    rewrite put_range_lines by lia.
    replace (Z.to_nat (Z.max 0 (Z.of_nat (length lines) - n - 4294967296))) with 0 by lia.
    simpl skipn. f_equal. apply firstn_all2. lia.
  - intros Hn. rewrite int_sub_exact by lia. rewrite !put_range_lines by lia.
    replace (Z.to_nat (Z.max 0 (Z.of_nat (length lines) - n))) with 0 by lia.
    simpl skipn. split; f_equal; apply firstn_all2; lia.
Qed.

Lemma head_tail_bounds_witness :
  (head_lines ["a"; "b"] 0 = EmptyString /\ tail_lines ["a"; "b"] 0 = EmptyString) /\
  tail_lines ["a"; "b"] (-2147483648) = LineSource.put_lines ["a"; "b"] /\
  (head_lines ["a"; "b"] 5 = LineSource.put_lines ["a"; "b"] /\
   tail_lines ["a"; "b"] 5 = LineSource.put_lines ["a"; "b"]).
Proof.
  assert (Z.of_nat (length ["a"; "b"]) <= Cut.int_max)%Z as Htotal
    by (unfold Cut.int_max; simpl; lia).
  split; [|split].
  - destruct (head_tail_bounds ["a"; "b"] 0) as (Hhead & Htail & _);
      [unfold Cut.int_min, Cut.int_max; lia|exact Htotal|].
    split; [apply Hhead; lia|apply Htail; unfold Cut.int_max; simpl; lia].
  - destruct (head_tail_bounds ["a"; "b"] (-2147483648)) as (_ & _ & Hwrap & _);
      [unfold Cut.int_min, Cut.int_max; lia|exact Htotal|].
    apply Hwrap. unfold Cut.int_max. simpl. lia.
  - destruct (head_tail_bounds ["a"; "b"] 5) as (_ & _ & _ & Hall);
      [unfold Cut.int_min, Cut.int_max; lia|exact Htotal|].
    apply Hall. simpl. lia.
Defined.

(** X3. In byte mode, for [0 < k < size], [head_impl] returns the first
    [k] bytes and [tail_impl] with [size - k] the bytes after them: together
    the content of the file.  A count of [size] or more gives the whole
    content in either. *)
Theorem head_tail_bytes_split :
  forall (fs : LineSource.filesystem) (path content : string) (n n' k : Z),
    LineSource.open fs path = Some content ->
    (0 < k)%Z ->
    ((k < Z.of_nat (String.length content))%Z ->
     exists h t,
       head_impl fs path n k = Ok h /\
       tail_impl fs path n' (Z.of_nat (String.length content) - k) = Ok t /\
       h +:+ t = content) /\
    ((Z.of_nat (String.length content) <= k)%Z ->
     head_impl fs path n k = Ok content /\ tail_impl fs path n' k = Ok content).
Proof.
  intros fs path content n n' k Hopen Hk.
  unfold head_impl, tail_impl. rewrite (open_ifstream _ _ _ Hopen), Hopen.
  assert ((0 <? k)%Z = true) as -> by now apply Z.ltb_lt.
  split.
  - intros Hlt.
    assert ((0 <? Z.of_nat (String.length content) - k)%Z = true) as ->
      by (apply Z.ltb_lt; lia).
    eexists. eexists. split; [reflexivity|]. split; [reflexivity|].
    unfold head_bytes, tail_bytes.
    rewrite Z.min_r by lia.
    replace (Z.to_nat (Z.of_nat (String.length content)
                       - (Z.of_nat (String.length content) - k)))
      with (Z.to_nat k) by lia.
    rewrite (substr_to_all _ (substr_from (Z.to_nat k) content))
      by (rewrite substr_from_length; lia).
    apply substr_split.
  - intros Hge. unfold head_bytes, tail_bytes. split; f_equal.
    + apply substr_to_all. lia.
    + rewrite Z.min_l by lia. rewrite Z.sub_diag. simpl substr_from.
      apply substr_to_all. lia.
Qed.

Lemma head_tail_bytes_split_witness :
  ((2 < Z.of_nat (String.length "hello"))%Z ->
   exists h t,
     head_impl (LineSource.two_files "f" "hello" "" "") "f" 10 2 = Ok h /\
     tail_impl (LineSource.two_files "f" "hello" "" "") "f" 10
       (Z.of_nat (String.length "hello") - 2) = Ok t /\
     h +:+ t = "hello") /\
  ((Z.of_nat (String.length "hello") <= 2)%Z ->
   head_impl (LineSource.two_files "f" "hello" "" "") "f" 10 2 = Ok "hello" /\
   tail_impl (LineSource.two_files "f" "hello" "" "") "f" 10 2 = Ok "hello").
Proof.
  apply (head_tail_bytes_split (LineSource.two_files "f" "hello" "" "") "f" "hello" 10 10 2).
  - reflexivity.
  - lia.
Defined.

Lemma getline_all_nil (d : ascii) (s : string) : getline_all d s = [] -> s = EmptyString.
Proof.
  destruct s as [|c r]; [reflexivity|]. simpl.
  destruct (Ascii.eqb c d); [discriminate|].
  destruct (getline_all d r); discriminate.
Qed.

Lemma closed_cons (c : ascii) (r : string) :
  r <> EmptyString \/ c = newline ->
  closed (String c r) = String c (closed r).
Proof.
  intros H. unfold closed. destruct r as [|c' r'].
  - destruct H as [H | ->]; [contradiction|]. reflexivity.
  - change (ends_with_newline (String c (String c' r')))
      with (ends_with_newline (String c' r')).
    now destruct (ends_with_newline (String c' r')).
Qed.

(** The lines of a text, written again, are the text with its last line
    closed. *)
Lemma put_lines_getline_all (content : string) :
  LineSource.put_lines (getline_all newline content) = closed content.
Proof.
  induction content as [|c r IH]; [reflexivity|].
  simpl getline_all. destruct (Ascii.eqb c newline) eqn:E.
  - apply Ascii.eqb_eq in E. subst c.
    rewrite put_lines_cons, IH. rewrite closed_cons by now right. reflexivity.
  - destruct (getline_all newline r) as [|tok toks] eqn:Hr.
    + apply getline_all_nil in Hr. subst r.
      unfold closed. simpl. now rewrite E.
    + rewrite put_lines_cons. rewrite put_lines_cons in IH.
      rewrite closed_cons by (left; intros ->; discriminate).
      rewrite <- IH. reflexivity.
Qed.

(** X4. Without its flags, [cat_impl] returns the content of the file
    byte for byte when it is empty or ends with a newline, and the content
    followed by one newline otherwise. *)
Theorem cat_closes_last_line :
  forall (fs : LineSource.filesystem) (path content : string),
    LineSource.open fs path = Some content ->
    cat_impl fs path false false = Ok (closed content) /\
    (content = EmptyString \/ ends_with_newline content = true ->
     closed content = content) /\
    (content <> EmptyString -> ends_with_newline content = false ->
     closed content = content +:+ String newline EmptyString).
Proof.
  intros fs path content Hopen. split; [|split].
  - unfold cat_impl. rewrite (open_read_lines _ _ _ Hopen). simpl.
    now rewrite cat_lines_plain, put_lines_getline_all.
  - intros [->|H]; [reflexivity|]. unfold closed. rewrite H. now destruct content.
  - intros Hne H. unfold closed. rewrite H. destruct content; [contradiction|reflexivity].
Qed.

Lemma cat_closes_last_line_witness :
  cat_impl (LineSource.two_files "f" "a
b" "" "") "f" false false = Ok (closed "a
b") /\
  ("a
b" = EmptyString \/ ends_with_newline "a
b" = true -> closed "a
b" = "a
b") /\
  ("a
b" <> EmptyString -> ends_with_newline "a
b" = false ->
   closed "a
b" = "a
b" +:+ String newline EmptyString).
Proof.
  apply (cat_closes_last_line (LineSource.two_files "f" "a
b" "" "") "f" "a
b").
  reflexivity.
Defined.

(** With [squeeze_blank] the loop does to the lines what it does without
    it to the lines it keeps. *)
Lemma cat_step_squeeze (number_lines : bool) (lines : list string) :
  forall st,
    fold_left (cat_step number_lines true) lines st =
    fold_left (cat_step number_lines false) (squeeze (prev_blank st) lines) st.
Proof.
  induction lines as [|x lines IH]; intros st; [reflexivity|].
  assert (cat_step number_lines true st x =
          if is_blank x && prev_blank st then st else cat_step number_lines false st x) as Hstep
    by (unfold cat_step; simpl; reflexivity).
  simpl. rewrite Hstep. destruct (is_blank x && prev_blank st).
  - apply IH.
  - simpl fold_left. rewrite IH. reflexivity.
Qed.

Lemma squeeze_no_newline (lines : list string) :
  forall prev,
    Forall (fun x => no_newline x = true) lines ->
    Forall (fun x => no_newline x = true) (squeeze prev lines).
Proof.
  induction lines as [|x lines IH]; intros prev H; simpl; [constructor|].
  inversion H; subst.
  destruct (is_blank x && prev); [now apply IH|]. constructor; [assumption | now apply IH].
Qed.





(** X6. Numbering and squeezing at once is numbering what squeezing
    returns: the numbers count the lines written, not the lines read. *)
Theorem cat_number_after_squeeze :
  forall (lines : list string),
    Forall (fun x => no_newline x = true) lines ->
    cat_lines true true lines =
    cat_lines true false (getline_all newline (cat_lines false true lines)).
Proof.
  intros lines Hlines. unfold cat_lines at 1 3.
  rewrite !cat_step_squeeze. simpl.
  fold (cat_lines false false (squeeze false lines)).
  rewrite cat_lines_plain, getline_all_put_lines by now apply squeeze_no_newline.
  reflexivity.
Qed.

Lemma cat_number_after_squeeze_witness :
  cat_lines true true ["a"; ""; " "; "b"] =
  cat_lines true false (getline_all newline (cat_lines false true ["a"; ""; " "; "b"])).
Proof.
  apply (cat_number_after_squeeze ["a"; ""; " "; "b"]).
  repeat constructor.
Defined.

End TextProps.

(** ** wc *)

Module WcProps.

Import StringFacts Text Wc.

Lemma count_loop_totals (content : string) :
  forall st,
    byte_count (count_loop content st) = (byte_count st + Z.of_nat (String.length content))%Z /\
    char_count (count_loop content st) = (char_count st + Z.of_nat (String.length content))%Z /\
    line_count (count_loop content st) = (line_count st + Cmp.newlines content)%Z.
Proof.
  induction content as [|c r IH]; intros st.
  - simpl. repeat split; lia.
  - cbn [count_loop]. destruct (IH (count_byte st c)) as (Hb & Hc & Hl).
    rewrite Hb, Hc, Hl. cbn [count_byte byte_count char_count line_count String.length
                              Cmp.newlines].
    destruct (Ascii.eqb c newline); repeat split; lia.
Qed.

(** The words counted are the words [words_from] lists, the pending one
    having been counted when it began. *)
Lemma count_loop_words (content : string) :
  forall st pending,
    (in_word st = true <-> pending <> None) ->
    (word_count (count_loop content st) + (if in_word st then 1 else 0)
     = word_count st + Z.of_nat (length (words_from pending content)))%Z.
Proof.
  induction content as [|c r IH]; intros st pending Hpending.
  - simpl. destruct (in_word st) eqn:Hin; destruct pending as [w|]; simpl; try lia.
    + exfalso. now apply (proj1 Hpending).
    + assert (false = true) by (apply Hpending; discriminate). discriminate.
  - cbn [count_loop words_from]. destruct (isspace c) eqn:Hc.
    + pose proof (IH (count_byte st c) None) as H.
      unfold count_byte in *. cbn [in_word word_count] in *. rewrite Hc in *.
      specialize (H ltac:(intuition discriminate)).
      destruct (in_word st) eqn:Hin; destruct pending as [w|]; simpl length; try lia.
      * exfalso. now apply (proj1 Hpending).
      * assert (false = true) by (apply Hpending; discriminate). discriminate.
    + match goal with
      | |- context [words_from (Some ?p) r] =>
          pose proof (IH (count_byte st c) (Some p)) as H
      end.
      unfold count_byte in *. cbn [in_word word_count] in *. rewrite Hc in *.
      specialize (H ltac:(intuition discriminate)).
      destruct (in_word st) eqn:Hin; cbn [negb] in *; lia.
Qed.

Lemma word_count_words (content : string) :
  word_count (count_bytes content) = Z.of_nat (length (words_of content)).
Proof.
  unfold count_bytes, words_of.
  pose proof (count_loop_words content
                {| line_count := 0; word_count := 0; char_count := 0; byte_count := 0;
                   in_word := false |} None) as H.
  cbn [in_word word_count] in H. specialize (H ltac:(intuition discriminate)). lia.
Qed.

(** The number of lines [getline] finds in a text. *)
Lemma getline_all_count (content : string) :
  Z.of_nat (length (getline_all newline content)) =
  (Cmp.newlines content
   + match content with
     | EmptyString => 0
     | _ => if ends_with_newline content then 0 else 1
     end)%Z.
Proof.
  induction content as [|c r IH]; [reflexivity|].
  cbn [getline_all Cmp.newlines]. destruct (Ascii.eqb c newline) eqn:E.
  - cbn [length]. rewrite Nat2Z.inj_succ, IH.
    destruct r as [|c' r']; [simpl; rewrite E; lia|].
    change (ends_with_newline (String c (String c' r')))
      with (ends_with_newline (String c' r')). lia.
  - destruct r as [|c' r'].
    + simpl. rewrite E. lia.
    + change (ends_with_newline (String c (String c' r')))
        with (ends_with_newline (String c' r')).
      destruct (getline_all newline (String c' r')) as [|tok toks] eqn:Hr.
      * apply TextProps.getline_all_nil in Hr. discriminate.
      * cbn [length] in *. lia.
Qed.

(** X7. [wc_impl] counts as many bytes and characters as the file has,
    and as many lines as it has newlines: the number of lines [read_lines]
    gives to the other commands is that count when the file is empty or ends
    with a newline, and one more when it does not. *)
Theorem wc_lines_and_read_lines :
  forall (fs : LineSource.filesystem) (path content : string),
    LineSource.open fs path = Some content ->
    exists lines,
      LineSource.read_lines fs path = Ok lines /\
      wc_impl fs path false false false false =
        Ok {| file := path;
              lines := Some (line_count (count_bytes content));
              words := Some (word_count (count_bytes content));
              chars := Some (Z.of_nat (String.length content));
              bytes := Some (Z.of_nat (String.length content)) |} /\
      Z.of_nat (length lines) =
        (line_count (count_bytes content)
         + match content with
           | EmptyString => 0
           | _ => if ends_with_newline content then 0 else 1
           end)%Z.
Proof.
  intros fs path content Hopen.
  exists (getline_all newline content).
  unfold LineSource.read_lines, wc_impl. rewrite (LineFacts.open_ifstream _ _ _ Hopen).
  destruct (count_loop_totals content
              {| line_count := 0; word_count := 0; char_count := 0; byte_count := 0;
                 in_word := false |}) as (Hb & Hc & Hl).
  fold (count_bytes content) in Hb, Hc, Hl. cbn [byte_count char_count line_count] in *.
  split; [reflexivity|]. split.
  - unfold make_report. rewrite Hb, Hc. reflexivity.
  - rewrite Hl. apply getline_all_count.
Qed.

Lemma wc_lines_and_read_lines_witness :
  exists lines,
    LineSource.read_lines (LineSource.two_files "f" "a b
c" "" "") "f" = Ok lines /\
    wc_impl (LineSource.two_files "f" "a b
c" "" "") "f" false false false false =
      Ok {| file := "f";
            lines := Some (line_count (count_bytes "a b
c"));
            words := Some (word_count (count_bytes "a b
c"));
            chars := Some (Z.of_nat (String.length "a b
c"));
            bytes := Some (Z.of_nat (String.length "a b
c")) |} /\
    Z.of_nat (length lines) =
      (line_count (count_bytes "a b
c")
       + match "a b
c" with
         | EmptyString => 0
         | _ => if ends_with_newline "a b
c" then 0 else 1
         end)%Z.
Proof.
  apply (wc_lines_and_read_lines (LineSource.two_files "f" "a b
c" "" "") "f" "a b
c").
  reflexivity.
Defined.

(** What [stream >> token] reads is the first word, and leaves the others. *)
Lemma words_from_read_word (s : string) :
  forall p,
    words_from (Some p) s =
    (p +:+ fst (read_word s)) :: words_from None (snd (read_word s)).
Proof.
  induction s as [|c r IH]; intros p.
  - simpl. now rewrite append_empty_r.
  - cbn [words_from read_word]. destruct (isspace c) eqn:Hc.
    + cbn [fst snd words_from]. rewrite Hc, append_empty_r. reflexivity.
    + rewrite IH. destruct (read_word r) as [w rest]. cbn [fst snd].
      now rewrite append_assoc.
Qed.

Lemma words_of_skipws (s : string) : words_of (skipws s) = words_of s.
Proof.
  unfold words_of. induction s as [|c r IH]; [reflexivity|].
  cbn [skipws]. destruct (isspace c) eqn:Hc; [|reflexivity].
  rewrite IH. cbn [words_from]. now rewrite Hc.
Qed.

Lemma extract_words (s : string) :
  match extract s with
  | None => words_of s = []
  | Some (w, rest) => words_of s = w :: words_of rest /\ w <> EmptyString
  end.
Proof.
  unfold extract. rewrite <- (words_of_skipws s).
  assert (match skipws s with
          | EmptyString => True
          | String c _ => isspace c = false
          end) as Hhead.
  { induction s as [|c r IH]; [exact I|]. simpl. destruct (isspace c) eqn:Hc; assumption. }
  destruct (skipws s) as [|c r]; [reflexivity|].
  unfold words_of. cbn [words_from read_word]. rewrite Hhead.
  rewrite words_from_read_word. destruct (read_word r) as [w rest]. cbn [fst snd].
  split; [reflexivity | discriminate].
Qed.

Lemma words_of_nonempty (s : string) : Forall (fun w => w <> EmptyString) (words_of s).
Proof.
  remember (String.length s) as n eqn:Hn.
  revert s Hn. induction n as [n IH] using lt_wf_ind. intros s Hn.
  pose proof (extract_words s) as H.
  destruct (extract s) as [[w rest]|] eqn:E.
  - destruct H as [-> Hw]. constructor; [assumption|].
    apply (IH (String.length rest)); [|reflexivity].
    subst n. clear IH Hw.
    unfold extract in E.
    assert (String.length (skipws s) <= String.length s) as Hskip.
    { clear E. induction s as [|c r IHs]; simpl; [lia|].
      destruct (isspace c); simpl; lia. }
    destruct (skipws s) as [|c r] eqn:Hs; [discriminate|].
    inversion E as [Hrw]. clear E.
    assert (forall t, String.length (snd (read_word t)) <= String.length t) as Hread.
    { induction t as [|d t IHt]; simpl; [lia|].
      destruct (isspace d); simpl; [lia|].
      destruct (read_word t); simpl in *. lia. }
    simpl in Hrw. destruct (isspace c) eqn:Hc.
    + inversion Hrw; subst. exfalso.
      assert (match skipws s with
              | EmptyString => True
              | String c _ => isspace c = false
              end) as Hhead.
      { clear. induction s as [|c r IH]; [exact I|]. simpl.
        destruct (isspace c) eqn:Hc; assumption. }
      rewrite Hs in Hhead. congruence.
    + specialize (Hread r). destruct (read_word r) as [w' rest'].
      inversion Hrw; subst. simpl in *. lia.
  - rewrite H. constructor.
Qed.

(** The loop of [get_key] and [get_field] in white-space mode returns
    the word of that rank, or the empty text. *)
Lemma nth_word_words (k : nat) :
  forall s tok, nth_word (S k) s tok = nth k (words_of s) EmptyString.
Proof.
  induction k as [|k IH]; intros s tok; cbn [nth_word];
    pose proof (extract_words s) as H; destruct (extract s) as [[w rest]|].
  - destruct H as [-> _]. reflexivity.
  - now rewrite H.
  - destruct H as [-> _]. cbn [nth]. rewrite <- (IH rest w). reflexivity.
  - now rewrite H.
Qed.

(** X8. In white-space mode the key that [sort_impl] takes for a field
    [k >= 1], which is also the field [join_impl] takes, is empty exactly
    when [k] is above the number of words [wc_impl] counts in the line. *)
Theorem whitespace_key_and_word_count :
  forall (line : string) (k : Z),
    (1 <= k)%Z ->
    Sort.get_key k EmptyString line = Join.get_field " "%char line k /\
    (Sort.get_key k EmptyString line = EmptyString <->
     (word_count (count_bytes line) < k)%Z).
Proof.
  intros line k Hk.
  assert (Sort.get_key k EmptyString line = nth (Z.to_nat k - 1) (words_of line) EmptyString)
    as Hkey.
  { unfold Sort.get_key. assert ((k <=? 0)%Z = false) as -> by (apply Z.leb_gt; lia).
    destruct (Z.to_nat k) as [|k'] eqn:Ek; [lia|].
    rewrite nth_word_words. f_equal. lia. }
  split.
  - rewrite Hkey. unfold Join.get_field. simpl.
    destruct (Z.to_nat k) as [|k'] eqn:Ek; [lia|].
    rewrite nth_word_words. f_equal. lia.
  - rewrite Hkey, word_count_words. split.
    + intros Hempty.
      destruct (Nat.lt_ge_cases (Z.to_nat k - 1) (length (words_of line))) as [Hlt|Hge]; [|lia].
      exfalso.
      pose proof (words_of_nonempty line) as Hne. rewrite Forall_forall in Hne.
      apply (Hne (nth (Z.to_nat k - 1) (words_of line) EmptyString)); [|assumption].
      now apply nth_In.
    + intros Hlt. apply nth_overflow. lia.
Qed.

Lemma whitespace_key_and_word_count_witness :
  Sort.get_key 3 EmptyString "  one two " = Join.get_field " "%char "  one two " 3 /\
  (Sort.get_key 3 EmptyString "  one two " = EmptyString <->
   (word_count (count_bytes "  one two ") < 3)%Z).
Proof.
  apply (whitespace_key_and_word_count "  one two " 3). lia.
Defined.

End WcProps.


(** ** Fields: sort and join keys, cut, paste *)

Module FieldProps.

Import StringFacts Text Paste.

(** The text up to the first separator is the first token of [getline]. *)
Lemma first_field (sep : ascii) (s : string) :
  match find sep s with
  | Some pos => substr_to pos s
  | None => s
  end = hd EmptyString (getline_all sep s).
Proof.
  induction s as [|c r IH]; [reflexivity|].
  cbn [find getline_all]. destruct (Ascii.eqb c sep); [reflexivity|].
  destruct (find sep r) as [pos|]; cbn [substr_to];
    destruct (getline_all sep r) as [|tok toks]; cbn [hd] in *; congruence.
Qed.

(** The text after the first separator holds the other tokens. *)
Lemma other_fields (sep : ascii) (s : string) :
  match find sep s with
  | Some pos => getline_all sep (substr_from (S pos) s)
  | None => []
  end = tl (getline_all sep s).
Proof.
  induction s as [|c r IH]; [reflexivity|].
  cbn [find getline_all]. destruct (Ascii.eqb c sep); [reflexivity|].
  destruct (find sep r) as [pos|]; cbn [substr_from] in *;
    destruct (getline_all sep r) as [|tok toks]; cbn [tl] in *; congruence.
Qed.

Lemma nth_field_token (sep : ascii) (n : nat) :
  forall s,
    match skip_fields n sep s with
    | None => EmptyString
    | Some temp =>
        match find sep temp with
        | Some pos => substr_to pos temp
        | None => temp
        end
    end = nth n (getline_all sep s) EmptyString.
Proof.
  induction n as [|n IH]; intros s.
  - cbn [skip_fields]. rewrite first_field. now destruct (getline_all sep s).
  - cbn [skip_fields]. pose proof (other_fields sep s) as Hrest.
    destruct (find sep s) as [pos|].
    + rewrite IH, Hrest. now destruct (getline_all sep s) as [|tok [|tok' toks]]; destruct n.
    + destruct (getline_all sep s) as [|tok toks]; [now destruct n|].
      cbn [tl] in Hrest. subst toks. now destruct n.
Qed.

(** X9. With a separator, the key [sort_impl] takes for a field
    [k >= 1] is the token [cut_impl] selects for the index [k] in the same
    line, empty when the line has no such field; [join_impl] takes the same
    field whenever its separator is not a space. *)
Theorem separator_key_is_cut_token :
  forall (sep : ascii) (rest line : string) (k : Z),
    (1 <= k)%Z ->
    Sort.get_key k (String sep rest) line = Cut.token (getline_all sep line) k /\
    (sep <> " "%char ->
     Join.get_field sep line k = Cut.token (getline_all sep line) k) /\
    ((Z.of_nat (length (getline_all sep line)) < k)%Z ->
     Sort.get_key k (String sep rest) line = EmptyString).
Proof.
  intros sep rest line k Hk.
  assert (nth_field k sep line = Cut.token (getline_all sep line) k) as Hfield
    by (unfold nth_field, Cut.token; apply nth_field_token).
  assert (Sort.get_key k (String sep rest) line = Cut.token (getline_all sep line) k) as Hkey.
  { unfold Sort.get_key. assert ((k <=? 0)%Z = false) as -> by (apply Z.leb_gt; lia).
    exact Hfield. }
  split; [assumption|]. split.
  - intros Hsep. unfold Join.get_field. apply Ascii.eqb_neq in Hsep. now rewrite Hsep.
  - intros Hlen. rewrite Hkey. unfold Cut.token. apply nth_overflow. lia.
Qed.

Lemma separator_key_is_cut_token_witness :
  Sort.get_key 2 (String ":"%char EmptyString) "a:b:c" = Cut.token (getline_all ":" "a:b:c") 2 /\
  (":"%char <> " "%char ->
   Join.get_field ":" "a:b:c" 2 = Cut.token (getline_all ":" "a:b:c") 2) /\
  ((Z.of_nat (length (getline_all ":" "a:b:c")) < 2)%Z ->
   Sort.get_key 2 (String ":"%char EmptyString) "a:b:c" = EmptyString).
Proof.
  apply (separator_key_is_cut_token ":" EmptyString "a:b:c" 2). lia.
Defined.

(** *** paste *)

Lemma concat_empty_cons (x : string) (l : list string) :
  String.concat EmptyString (x :: l) = x +:+ String.concat EmptyString l.
Proof.
  destruct l as [|y l]; simpl; [now rewrite append_empty_r | reflexivity].
Qed.

Lemma concat_sep_cons (sep t : string) (ts : list string) :
  String.concat sep (t :: ts) =
  t +:+ String.concat EmptyString (map (fun x => sep +:+ x) ts).
Proof.
  revert t. induction ts as [|u ts IH]; intros t.
  - simpl. now rewrite append_empty_r.
  - change (String.concat sep (t :: u :: ts))
      with (t +:+ sep +:+ String.concat sep (u :: ts)).
    rewrite IH. cbn [map]. rewrite concat_empty_cons. now rewrite append_assoc.
Qed.

Lemma put_cell_cell (all_lines : list (list string)) (sep oss : string) (i f : nat) :
  put_cell all_lines sep i oss f =
  (if (0 <? f)%nat then oss +:+ sep else oss) +:+ cell all_lines i f.
Proof.
  unfold put_cell, cell. destruct (i <? length (nth f all_lines []))%nat eqn:E.
  - reflexivity.
  - apply Nat.ltb_ge in E. rewrite (nth_overflow _ _ E). now rewrite append_empty_r.
Qed.

(** The cells after the first, each behind the delimiter. *)
Lemma put_cells_rest (all_lines : list (list string)) (sep : string) (i : nat) (n : nat) :
  forall first oss,
    0 < first ->
    fold_left (put_cell all_lines sep i) (seq first n) oss =
    oss +:+ String.concat EmptyString
              (map (fun x => sep +:+ x) (map (cell all_lines i) (seq first n))).
Proof.
  induction n as [|n IH]; intros first oss Hfirst.
  - simpl. now rewrite append_empty_r.
  - cbn [seq fold_left map]. rewrite IH by lia. rewrite put_cell_cell.
    assert ((0 <? first)%nat = true) as -> by now apply Nat.ltb_lt.
    rewrite concat_empty_cons. now rewrite !append_assoc.
Qed.

Lemma put_row_concat (all_lines : list (list string)) (sep oss : string) (i : nat) :
  put_row all_lines sep oss i =
  oss +:+ String.concat sep (map (cell all_lines i) (seq 0 (length all_lines)))
      +:+ String newline EmptyString.
Proof.
  unfold put_row. destruct (length all_lines) as [|n].
  - simpl. reflexivity.
  - cbn [seq fold_left map]. rewrite put_cells_rest by lia.
    rewrite put_cell_cell. simpl Nat.ltb. cbv iota.
    rewrite concat_sep_cons. now rewrite !append_assoc.
Qed.

Lemma paste_lines_rows (all_lines : list (list string)) (max_lines : nat) (delimiter : string) :
  paste_lines all_lines max_lines delimiter =
  LineSource.put_lines
    (map (fun i => String.concat (separator_of delimiter)
                     (map (cell all_lines i) (seq 0 (length all_lines))))
       (seq 0 max_lines)).
Proof.
  assert (forall n first oss,
            fold_left (put_row all_lines (separator_of delimiter)) (seq first n) oss =
            oss +:+ LineSource.put_lines
                      (map (fun i => String.concat (separator_of delimiter)
                                       (map (cell all_lines i) (seq 0 (length all_lines))))
                         (seq first n))) as H.
  { induction n as [|n IH]; intros first oss.
    - simpl. now rewrite append_empty_r.
    - cbn [seq fold_left map]. rewrite IH, put_row_concat, LineFacts.put_lines_cons.
      now rewrite !append_assoc. }
  unfold paste_lines. now rewrite H.
Qed.

Lemma read_all_ok (fs : LineSource.filesystem) (files : list string)
    (lines : list (list string)) :
  Forall2 (fun f ls => LineSource.read_lines fs f = Ok ls) files lines ->
  forall all_lines max_lines,
    read_all fs files all_lines max_lines =
    Ok (all_lines ++ lines, Nat.max max_lines (list_max (map (@length string) lines))).
Proof.
  induction 1 as [|f ls files lines Hf Hrest IH]; intros all_lines max_lines.
  - simpl. now rewrite app_nil_r, Nat.max_0_r.
  - cbn [read_all]. rewrite Hf. cbn [bind]. rewrite IH, <- app_assoc.
    cbn [map list_max fold_right app]. now rewrite Nat.max_assoc.
Qed.

(** X10. When every file can be read, [paste_impl] returns as many rows
    as the longest file has lines; row [i] is made of line [i] of every file
    in the order of the files, a file that has no such line giving an empty
    cell, joined by the delimiter (a tab when the delimiter is empty). *)
Theorem paste_rows :
  forall (fs : LineSource.filesystem) (files : list string) (delimiter : string)
    (all_lines : list (list string)),
    Forall2 (fun f ls => LineSource.read_lines fs f = Ok ls) files all_lines ->
    paste_impl fs files delimiter =
    Ok (LineSource.put_lines
          (map (fun i => String.concat (separator_of delimiter)
                           (map (cell all_lines i) (seq 0 (length all_lines))))
             (seq 0 (list_max (map (@length string) all_lines))))).
Proof.
  intros fs files delimiter all_lines Hread.
  unfold paste_impl. rewrite (read_all_ok _ _ _ Hread). cbn [bind fst snd app Nat.max].
  now rewrite paste_lines_rows.
Qed.

Lemma paste_rows_witness :
  paste_impl (LineSource.two_files "one" "a
b
" "two" "1
") ["one"; "two"] ":" =
  Ok (LineSource.put_lines
        (map (fun i => String.concat (separator_of ":")
                         (map (cell [["a"; "b"]; ["1"]] i) (seq 0 (length [["a"; "b"]; ["1"]]))))
           (seq 0 (list_max (map (@length string) [["a"; "b"]; ["1"]]))))).
Proof.
  apply (paste_rows (LineSource.two_files "one" "a
b
" "two" "1
") ["one"; "two"] ":" [["a"; "b"]; ["1"]]).
  repeat constructor.
Defined.




(** A field without the delimiter, written with the delimiter in front of
    other text, is read back in front of the fields of that text. *)
Lemma getline_all_field (d : ascii) (x rest : string) :
  free_of d x = true ->
  getline_all d (x +:+ String d rest) = x :: getline_all d rest.
Proof.
  induction x as [|c x IH]; intros Hx; simpl in *.
  - now rewrite Ascii.eqb_refl.
  - apply andb_prop in Hx. destruct Hx as [Hc Hx]. apply negb_true_iff in Hc.
    rewrite Hc, (IH Hx). reflexivity.
Qed.

Lemma getline_all_free (d : ascii) (x : string) :
  free_of d x = true ->
  getline_all d x = match x with EmptyString => [] | _ => [x] end.
Proof.
  induction x as [|c x IH]; intros Hx; [reflexivity|].
  simpl in *. apply andb_prop in Hx. destruct Hx as [Hc Hx]. apply negb_true_iff in Hc.
  rewrite Hc, (IH Hx). now destruct x.
Qed.

(** The fields of a row are read back, but for an empty last one. *)
Lemma getline_all_concat (d : ascii) (cells : list string) :
  Forall (fun x => free_of d x = true) cells ->
  forall k,
    nth k (getline_all d (String.concat (String d EmptyString) cells)) EmptyString =
    nth k cells EmptyString.
Proof.
  induction 1 as [|x cells Hx Hcells IH]; intros k.
  - reflexivity.
  - destruct cells as [|y cells].
    + simpl String.concat. rewrite getline_all_free by assumption.
      destruct x; destruct k as [|[|k]]; reflexivity.
    + change (String.concat (String d EmptyString) (x :: y :: cells))
        with (x +:+ String d (String.concat (String d EmptyString) (y :: cells))).
      rewrite getline_all_field by assumption.
      destruct k as [|k]; [reflexivity|]. cbn [nth]. apply IH.
Qed.

(** X12. Cutting a pasted row gives back the pasted line: when no cell of
    row [i] holds the delimiter [d], the step of [cut_impl] on that row,
    for the field set that holds [f + 1] alone, writes line [i] of the file
    of rank [f], or the empty line when that file has no line [i]. *)
Theorem cut_of_pasted_row :
  forall (all_lines : list (list string)) (d : ascii) (i f : nat) (oss : string),
    f < length all_lines ->
    (forall g, free_of d (cell all_lines i g) = true) ->
    Cut.cut_line d [Z.of_nat (S f)] oss
      (String.concat (separator_of (String d EmptyString))
         (map (cell all_lines i) (seq 0 (length all_lines)))) =
    oss +:+ cell all_lines i f +:+ String newline EmptyString.
Proof.
  intros all_lines d i f oss Hf Hfree.
  unfold Cut.cut_line. rewrite CutClaims.put_field_first. rewrite append_assoc.
  f_equal. f_equal. cbn [separator_of].
  set (row := String.concat (String d EmptyString)
                (map (cell all_lines i) (seq 0 (length all_lines)))).
  assert (Cut.token (getline_all d row) (Z.of_nat (S f)) = cell all_lines i f) as Htoken.
  { unfold Cut.token, row. replace (Z.to_nat (Z.of_nat (S f) - 1)) with f by lia.
    rewrite getline_all_concat.
    - rewrite (nth_indep _ EmptyString (cell all_lines i 0)) by (rewrite length_map, length_seq; lia).
      rewrite map_nth. now rewrite seq_nth by assumption.
    - apply Forall_forall. intros x Hx. apply in_map_iff in Hx.
      destruct Hx as (g & <- & _). apply Hfree. }
  cbn [filter]. destruct (Cut.in_range (getline_all d row) (Z.of_nat (S f))) eqn:Hrange.
  - simpl. exact Htoken.
  - simpl. rewrite <- Htoken. unfold Cut.token. symmetry. apply nth_overflow.
    unfold Cut.in_range in Hrange. apply andb_false_iff in Hrange.
    destruct Hrange as [H|H]; [apply Z.leb_gt in H; lia | apply Z.leb_gt in H; lia].
Qed.

Lemma cut_of_pasted_row_witness :
  Cut.cut_line ":" [Z.of_nat 2] EmptyString
    (String.concat (separator_of (String ":"%char EmptyString))
       (map (cell [["a"; "b"]; ["1"]] 1) (seq 0 (length [["a"; "b"]; ["1"]])))) =
  EmptyString +:+ cell [["a"; "b"]; ["1"]] 1 1 +:+ String newline EmptyString.
Proof.
  apply (cut_of_pasted_row [["a"; "b"]; ["1"]] ":" 1 1 EmptyString).
  - simpl. lia.
  - intros [|[|g]]; try reflexivity. simpl. now destruct g.
Defined.

End FieldProps.


(** ** cmp: the verdict *)

Module CmpProps.

Import Cmp StringFacts.

(** X14. For two files that open, [cmp_impl] answers [identical]
    exactly when the files hold the same bytes or the first file is the
    second followed by one more byte. *)
Theorem cmp_identical_exactly :
  forall (fs : LineSource.filesystem) (file1 file2 bytes1 bytes2 : string)
    (silent : bool),
    LineSource.open fs file1 = Some bytes1 ->
    LineSource.open fs file2 = Some bytes2 ->
    exists r,
      cmp_impl fs file1 file2 silent = Ok r /\
      (identical r = true <->
       bytes1 = bytes2 \/ exists c, bytes1 = bytes2 +:+ String c EmptyString).
Proof.
  intros fs file1 file2 bytes1 bytes2 silent H1 H2.
  unfold cmp_impl.
  rewrite (LineFacts.open_ifstream _ _ _ H1), (LineFacts.open_ifstream _ _ _ H2).
  eexists. split; [reflexivity|].
  rewrite <- CmpClaims.compare_bytes_same. unfold make_report.
  destruct (negb (same (compare_bytes bytes1 bytes2)) && negb silent); reflexivity.
Qed.

Lemma cmp_identical_exactly_witness :
  exists r,
    cmp_impl (LineSource.two_files "first" "ab" "second" "ab") "first" "second" false = Ok r /\
    (identical r = true <->
     "ab" = "ab" \/ exists c, "ab" = "ab" +:+ String c EmptyString).
Proof.
  apply (cmp_identical_exactly (LineSource.two_files "first" "ab" "second" "ab")
           "first" "second" "ab" "ab" false); reflexivity.
Defined.

(** X15. When the two files agree on the bytes [p] and differ at the
    byte that follows, [cmp_impl] reports the 1-based position of that byte
    and a line number that counts the newlines of [p], and one more when the
    differing byte of the first file is itself a newline. *)
Theorem cmp_first_difference :
  forall (fs : LineSource.filesystem) (file1 file2 p r1 r2 : string) (c1 c2 : ascii),
    LineSource.open fs file1 = Some (p +:+ String c1 r1) ->
    LineSource.open fs file2 = Some (p +:+ String c2 r2) ->
    c1 <> c2 ->
    let byte := (Z.of_nat (String.length p) + 1)%Z in
    let line := (1 + newlines p + (if Ascii.eqb c1 newline then 1 else 0))%Z in
    cmp_impl fs file1 file2 false =
      Ok {| identical := false;
            byte_offset := Some byte;
            line_number := Some line;
            message := Some (file1 +:+ " " +:+ file2 +:+ " differ: byte " +:+
                             to_string byte +:+ ", line " +:+ to_string line) |} /\
    cmp_impl fs file1 file2 true =
      Ok {| identical := false; byte_offset := None; line_number := None;
            message := None |}.
Proof.
  intros fs file1 file2 p r1 r2 c1 c2 H1 H2 Hne byte line.
  unfold cmp_impl.
  rewrite (LineFacts.open_ifstream _ _ _ H1), (LineFacts.open_ifstream _ _ _ H2).
  rewrite (CmpClaims.compare_bytes_mismatch p r1 r2 c1 c2 Hne).
  split; reflexivity.
Qed.

Lemma cmp_first_difference_witness :
  let fs := LineSource.two_files "first" ("a" +:+ String newline "x")
                                 "second" ("a" +:+ String "b" "x") in
  let byte := (Z.of_nat (String.length "a") + 1)%Z in
  let line := (1 + newlines "a" + (if Ascii.eqb newline newline then 1 else 0))%Z in
  cmp_impl fs "first" "second" false =
    Ok {| identical := false;
          byte_offset := Some byte;
          line_number := Some line;
          message := Some ("first" +:+ " " +:+ "second" +:+ " differ: byte " +:+
                           to_string byte +:+ ", line " +:+ to_string line) |} /\
  cmp_impl fs "first" "second" true =
    Ok {| identical := false; byte_offset := None; line_number := None;
          message := None |}.
Proof.
  intros fs.
  apply (cmp_first_difference fs "first" "second" "a" "x" "x" newline "b"%char);
    [reflexivity | reflexivity | discriminate].
Defined.

End CmpProps.

(** ** diff: what the output tells *)

Module DiffProps.

Import Diff DiffScript DiffLcs DiffBacktrack StringFacts.

(** The lines that are not insertions are the lines of the first file,
    and a script that applies holds no other type than the three. *)
Lemma apply_script_source (s : list DiffLine) :
  forall a b,
    apply_script s a = Some b ->
    map text (filter (fun d => negb (Ascii.eqb (type d) plus)) s) = a /\
    Forall (fun d => type d = space \/ type d = plus \/ type d = minus) s.
Proof.
  induction s as [|d s IH]; intros a b Happly; cbn [apply_script] in Happly.
  - destruct a; [split; [reflexivity|constructor]|discriminate].
  - cbn [filter map]. destruct (Ascii.eqb (type d) plus) eqn:Eplus.
    + destruct (apply_script s a) as [b'|] eqn:Erest; [|discriminate].
      destruct (IH _ _ Erest) as [Htext Htypes]. cbn [negb]. split; [assumption|].
      constructor; [|assumption]. apply Ascii.eqb_eq in Eplus. auto.
    + destruct a as [|x a']; [discriminate|].
      destruct (String.eqb x (text d)) eqn:Ex; [|discriminate].
      apply String.eqb_eq in Ex. subst x.
      destruct (Ascii.eqb (type d) space) eqn:Espace.
      * destruct (apply_script s a') as [b'|] eqn:Erest; [|discriminate].
        destruct (IH _ _ Erest) as [Htext Htypes]. cbn [negb map]. split.
        -- now rewrite Htext.
        -- constructor; [|assumption]. apply Ascii.eqb_eq in Espace. auto.
      * destruct (Ascii.eqb (type d) minus) eqn:Eminus; [|discriminate].
        destruct (IH _ _ Happly) as [Htext Htypes]. cbn [negb map]. split.
        -- now rewrite Htext.
        -- constructor; [|assumption]. apply Ascii.eqb_eq in Eminus. auto.
Qed.

(** X16. The output of [diff_impl] can be read backwards: the texts of
    the lines of the script that are not insertions are the lines of the
    first file, in order, and every line of the script is of type [' '],
    ['+'] or ['-']. *)
Theorem diff_first_file_recovered :
  forall lines1 lines2 : list string,
    map text (filter (fun d => negb (Ascii.eqb (type d) plus)) (diff_lines lines1 lines2))
      = lines1 /\
    Forall (fun d => type d = space \/ type d = plus \/ type d = minus)
      (diff_lines lines1 lines2).
Proof.
  intros lines1 lines2.
  destruct (diff_lines_spec lines1 lines2) as [Happly _].
  exact (apply_script_source _ _ _ Happly).
Qed.

(** A script without insertion or deletion leaves the file as it is. *)
Lemma apply_script_no_change (s : list DiffLine) :
  forall a b, apply_script s a = Some b -> cost s = 0 -> a = b.
Proof.
  induction s as [|d s IH]; intros a b Happly Hcost; cbn [apply_script] in Happly.
  - destruct a; [now injection Happly|discriminate].
  - unfold cost in Hcost. cbn [filter] in Hcost.
    destruct (Ascii.eqb (type d) space) eqn:Espace; [|discriminate].
    cbn [negb] in Hcost. fold (cost s) in Hcost.
    destruct (Ascii.eqb (type d) plus) eqn:Eplus.
    { apply Ascii.eqb_eq in Espace, Eplus. rewrite Espace in Eplus. discriminate. }
    destruct a as [|x a']; [discriminate|].
    destruct (String.eqb x (text d)); [|discriminate].
    destruct (apply_script s a') as [b'|] eqn:Erest; [|discriminate].
    injection Happly as <-. f_equal. now apply (IH _ _ Erest).
Qed.

(** The script that keeps every line. *)
Lemma keep_all_applies (lines : list string) :
  apply_script (map (fun l => {| type := space; text := l; line1 := 0; line2 := 0 |}) lines)
    lines = Some lines /\
  cost (map (fun l => {| type := space; text := l; line1 := 0; line2 := 0 |}) lines) = 0.
Proof.
  induction lines as [|l lines [IH1 IH2]]; [split; reflexivity|].
  split.
  - cbn [map apply_script type text]. change (Ascii.eqb space plus) with false.
    cbv iota. rewrite String.eqb_refl. change (Ascii.eqb space space) with true.
    cbv iota. now rewrite IH1.
  - exact IH2.
Qed.

(** What the output loop writes without [unified]. *)
Lemma put_diff_plain (script : list DiffLine) :
  forall oss,
    fold_left (put_diff false) script oss =
    oss +:+ fold_left (put_diff false) script EmptyString.
Proof.
  induction script as [|d script IH]; intros oss; cbn [fold_left].
  - now rewrite append_empty_r.
  - rewrite IH. rewrite (IH (put_diff false EmptyString d)).
    rewrite <- append_assoc. f_equal.
    unfold put_diff. destruct (negb (Ascii.eqb (type d) space) || false).
    + reflexivity.
    + now rewrite append_empty_r.
Qed.

Lemma put_diff_empty (script : list DiffLine) :
  fold_left (put_diff false) script EmptyString = EmptyString <-> cost script = 0.
Proof.
  induction script as [|d script IH]; [split; reflexivity|].
  cbn [fold_left]. rewrite put_diff_plain. unfold cost. cbn [filter].
  unfold put_diff at 1. rewrite orb_false_r.
  destruct (negb (Ascii.eqb (type d) space)).
  - split; discriminate.
  - exact IH.
Qed.

(** X17. Without [unified], [diff_impl] on two files that can be read
    returns the empty text exactly when the two files have the same lines. *)
Theorem diff_empty_iff_same_lines :
  forall (fs : LineSource.filesystem) (file1 file2 : string) (lines1 lines2 : list string)
    (context_lines : Z),
    LineSource.read_lines fs file1 = Ok lines1 ->
    LineSource.read_lines fs file2 = Ok lines2 ->
    exists out,
      diff_impl fs file1 file2 false context_lines = Ok out /\
      (out = EmptyString <-> lines1 = lines2).
Proof.
  intros fs file1 file2 lines1 lines2 context_lines H1 H2.
  unfold diff_impl. rewrite H1, H2. cbn [bind]. eexists. split; [reflexivity|].
  rewrite put_diff_empty.
  destruct (diff_lines_spec lines1 lines2) as [Happly _]. split.
  - intros Hcost. exact (apply_script_no_change _ _ _ Happly Hcost).
  - intros <-. destruct (keep_all_applies lines1) as [Hkeep Hzero].
    pose proof (DiffClaims.diff_lines_minimal _ _ _ Hkeep) as Hle. lia.
Qed.

Lemma diff_empty_iff_same_lines_witness :
  exists out,
    diff_impl (LineSource.two_files "old" "a
b
" "new" "a
b") "old" "new" false 3 = Ok out /\
    (out = EmptyString <-> ["a"; "b"] = ["a"; "b"]).
Proof.
  apply (diff_empty_iff_same_lines
           (LineSource.two_files "old" "a
b
" "new" "a
b") "old" "new" ["a"; "b"] ["a"; "b"] 3); reflexivity.
Defined.

End DiffProps.

(** ** grep: the three answers on one file *)

Module GrepProps.

Import Grep.

Lemma filter_complement {A : Type} (p : A -> bool) (l : list A) :
  length (filter p l) + length (filter (fun x => negb (p x)) l) = length l.
Proof.
  induction l as [|x l IH]; [reflexivity|].
  cbn [filter]. destruct (p x); cbn [negb length]; lia.
Qed.

Lemma existsb_filter {A : Type} (p : A -> bool) (l : list A) :
  existsb p l = (0 <? length (filter p l))%nat.
Proof.
  induction l as [|x l IH]; [reflexivity|].
  cbn [existsb filter]. destruct (p x); [reflexivity|exact IH].
Qed.

Section OneFile.

Context `{RegexEngine}.

Variable fs : LineSource.filesystem.
Variables (pattern path content : string) (re : regex).
Variables ignore_case whole_word : bool.

Hypothesis regular_file : fs path = Some (LineSource.RegularFile content).
Hypothesis compiles : regex_compile (regex_pattern pattern whole_word) ignore_case = inl re.

(** The search of a regular file comes down to its only loop. *)
Lemma grep_regular_file (recursive line_numbers count_only invert files_only : bool)
    (log : list event) :
  fst (grep_impl fs pattern path ignore_case recursive line_numbers count_only invert
         files_only whole_word log) =
  let lines := getline_all newline content in
  if count_only then
    Ok (Counts [(path, Z.of_nat (length (filter (matching re invert) lines)))])
  else if files_only then
    Ok (Files (if existsb (matching re invert) lines then [path] else []))
  else
    Ok (Entries (entries_of re invert false line_numbers path 0%Z lines)).
Proof.
  unfold grep_impl, iobind. rewrite GrepClaims.collect_files_spec, regular_file, compiles.
  cbn [length Nat.ltb Nat.leb].
  destruct count_only; [|destruct files_only];
    cbn [count_loop files_loop entries_loop]; unfold iobind, read_lines, access,
    LineSource.read_lines, LineSource.ifstream; rewrite regular_file; reflexivity.
Qed.

End OneFile.

(** The entries of the lines from index [i] on. *)
Lemma entries_of_spec `{RegexEngine} (re : regex) (invert multi_file line_numbers : bool)
    (f : string) (lines : list string) :
  forall i : Z,
    map line (entries_of re invert multi_file line_numbers f i lines) =
      filter (matching re invert) lines /\
    Forall (fun e => file e = if multi_file then Some f else None)
      (entries_of re invert multi_file line_numbers f i lines) /\
    exists ns,
      map number (entries_of re invert multi_file line_numbers f i lines) =
        map (fun n => if line_numbers then Some n else None) ns /\
      StronglySorted Z.lt ns /\
      Forall (fun n => (i < n <= i + Z.of_nat (length lines))%Z) ns /\
      map (fun n => nth (Z.to_nat (n - i - 1)) lines EmptyString) ns =
        filter (matching re invert) lines.
Proof.
  induction lines as [|l lines IH]; intros i.
  - split; [reflexivity|]. split; [constructor|]. exists [].
    repeat split; constructor.
  - destruct (IH (i + 1)%Z) as (Hlines & Hfile & ns & Hnumber & Hsorted & Hbound & Hnth).
    assert (map (fun n => nth (Z.to_nat (n - i - 1)) (l :: lines) EmptyString) ns =
            filter (matching re invert) lines) as Hnth'.
    { rewrite <- Hnth. apply map_ext_in. intros n Hn.
      rewrite Forall_forall in Hbound. specialize (Hbound n Hn).
      replace (Z.to_nat (n - i - 1)) with (S (Z.to_nat (n - (i + 1) - 1))) by lia.
      reflexivity. }
    assert (Forall (fun n => (i < n <= i + Z.of_nat (length (l :: lines)))%Z) ns) as Hbound'.
    { eapply Forall_impl; [|exact Hbound]. cbn beta. intros n Hn.
      rewrite length_cons, Nat2Z.inj_succ. lia. }
    cbn [entries_of filter]. destruct (matching re invert l).
    + cbn [map line file number]. split; [now rewrite Hlines|].
      split; [now constructor|]. exists ((i + 1)%Z :: ns). cbn [map].
      split; [now rewrite Hnumber|]. split.
      * constructor; [assumption|]. eapply Forall_impl; [|exact Hbound].
        cbn beta. intros n Hn. lia.
      * split.
        -- constructor; [|assumption]. rewrite length_cons, Nat2Z.inj_succ. lia.
        -- replace (Z.to_nat (i + 1 - i - 1)) with 0%nat by lia.
           rewrite Hnth'. reflexivity.
    + split; [assumption|]. split; [assumption|]. exists ns. auto.
Qed.

(** X18. On a regular file and with a pattern that compiles, the count
    of [grep_impl] and the count with [invert] add up to the number of lines
    of the file, whatever [files_only] is; and the answer with [files_only]
    names the file exactly when the count is not zero. *)
Theorem grep_count_invert :
  forall (E : RegexEngine) (fs : LineSource.filesystem) (pattern path content : string)
    (re : regex) (ignore_case recursive line_numbers files_only whole_word : bool)
    (log : list event),
    fs path = Some (LineSource.RegularFile content) ->
    regex_compile (regex_pattern pattern whole_word) ignore_case = inl re ->
    exists hits misses : Z,
      fst (grep_impl fs pattern path ignore_case recursive line_numbers true false
             files_only whole_word log) = Ok (Counts [(path, hits)]) /\
      fst (grep_impl fs pattern path ignore_case recursive line_numbers true true
             files_only whole_word log) = Ok (Counts [(path, misses)]) /\
      (hits + misses)%Z = Z.of_nat (length (getline_all newline content)) /\
      fst (grep_impl fs pattern path ignore_case recursive line_numbers false false
             true whole_word log) =
        Ok (Files (if (0 <? hits)%Z then [path] else [])).
Proof.
  intros E fs pattern path content re ignore_case recursive line_numbers files_only
    whole_word log Hfile Hre.
  rewrite !(grep_regular_file fs pattern path content re ignore_case whole_word Hfile Hre).
  cbv zeta. do 2 eexists. split; [reflexivity|]. split; [reflexivity|]. split.
  - rewrite <- (filter_complement (matching re false) (getline_all newline content)).
    rewrite Nat2Z.inj_add. reflexivity.
  - rewrite existsb_filter. f_equal. f_equal.
    destruct (length (filter (matching re false) (getline_all newline content)));
      reflexivity.
Qed.

Lemma grep_count_invert_witness :
  exists hits misses : Z,
    fst (grep_impl (H := Reference.plain_text_engine)
           (LineSource.two_files "log" "error
ok
" "" "") "err" "log" false false false true false false false []) =
      Ok (Counts [("log", hits)]) /\
    fst (grep_impl (H := Reference.plain_text_engine)
           (LineSource.two_files "log" "error
ok
" "" "") "err" "log" false false false true true false false []) =
      Ok (Counts [("log", misses)]) /\
    (hits + misses)%Z = Z.of_nat (length (getline_all newline "error
ok
")) /\
    fst (grep_impl (H := Reference.plain_text_engine)
           (LineSource.two_files "log" "error
ok
" "" "") "err" "log" false false false false false true false []) =
      Ok (Files (if (0 <? hits)%Z then ["log"] else [])).
Proof.
  apply (grep_count_invert Reference.plain_text_engine
           (LineSource.two_files "log" "error
ok
" "" "") "err" "log" "error
ok
" "err" false false false false false []); reflexivity.
Defined.

(** X19. On a regular file and with a pattern that compiles, the default
    answer of [grep_impl] lists the lines for which the search, negated by
    [invert], succeeds, in the order of the file and without the key
    ["file"].  With [line_numbers] every entry carries the 1-based index of
    its line, and the indices increase; without, no entry carries a
    number. *)
Theorem grep_matching_lines :
  forall (E : RegexEngine) (fs : LineSource.filesystem) (pattern path content : string)
    (re : regex) (ignore_case recursive line_numbers invert whole_word : bool)
    (log : list event),
    fs path = Some (LineSource.RegularFile content) ->
    regex_compile (regex_pattern pattern whole_word) ignore_case = inl re ->
    let lines := getline_all newline content in
    exists results ns,
      fst (grep_impl fs pattern path ignore_case recursive line_numbers false invert
             false whole_word log) = Ok (Entries results) /\
      map line results =
        filter (fun l => if invert then negb (regex_search l re) else regex_search l re)
          lines /\
      Forall (fun e => file e = None) results /\
      map number results = map (fun n => if line_numbers then Some n else None) ns /\
      StronglySorted Z.lt ns /\
      Forall (fun n => (1 <= n <= Z.of_nat (length lines))%Z) ns /\
      map (fun n => nth (Z.to_nat (n - 1)) lines EmptyString) ns = map line results.
Proof.
  intros E fs pattern path content re ignore_case recursive line_numbers invert
    whole_word log Hfile Hre lines.
  rewrite (grep_regular_file fs pattern path content re ignore_case whole_word Hfile Hre).
  cbv zeta. fold lines.
  destruct (entries_of_spec re invert false line_numbers path lines 0%Z)
    as (Hlines & Hnone & ns & Hnumber & Hsorted & Hbound & Hnth).
  exists (entries_of re invert false line_numbers path 0%Z lines), ns.
  split; [reflexivity|]. split; [exact Hlines|]. split; [exact Hnone|].
  split; [exact Hnumber|]. split; [exact Hsorted|]. split.
  - eapply Forall_impl; [|exact Hbound]. cbn beta. intros n Hn. lia.
  - rewrite Hlines, <- Hnth. apply map_ext. intros n. now rewrite Z.sub_0_r.
Qed.

Lemma grep_matching_lines_witness :
  let lines := getline_all newline "error
ok
" in
  exists results ns,
    fst (grep_impl (H := Reference.plain_text_engine)
           (LineSource.two_files "log" "error
ok
" "" "") "err" "log" false false true false true false false []) = Ok (Entries results) /\
    map line results =
      filter (fun l => if true then negb (regex_search (RegexEngine := Reference.plain_text_engine) l "err")
                       else regex_search (RegexEngine := Reference.plain_text_engine) l "err")
        lines /\
    Forall (fun e => file e = None) results /\
    map number results = map (fun n => if true then Some n else None) ns /\
    StronglySorted Z.lt ns /\
    Forall (fun n => (1 <= n <= Z.of_nat (length lines))%Z) ns /\
    map (fun n => nth (Z.to_nat (n - 1)) lines EmptyString) ns = map line results.
Proof.
  apply (grep_matching_lines Reference.plain_text_engine
           (LineSource.two_files "log" "error
ok
" "" "") "err" "log" "error
ok
" "err" false false true true false []); reflexivity.
Defined.

End GrepProps.

(** ** sort: whole lines, with [unique] *)

Module SortProps.

Import Sort StringFacts.

Section Unique.

(** An order in which the lines come: [below a b] when [a] may stand
    before [b]. *)
Variable below : string -> string -> Prop.

Hypothesis below_antisym : forall a b, below a b -> below b a -> a = b.

Lemma std_unique_In (l : list string) (x : string) : In x (std_unique l) <-> In x l.
Proof.
  induction l as [|a l IH]; [reflexivity|].
  cbn [std_unique]. destruct l as [|b l]; [reflexivity|].
  destruct (String.eqb a b) eqn:Eab.
  - apply String.eqb_eq in Eab. subst b. rewrite IH. cbn [In]. tauto.
  - cbn [In] in *. rewrite IH. tauto.
Qed.

Lemma std_unique_strict (l : list string) :
  StronglySorted below l ->
  StronglySorted (fun a b => below a b /\ a <> b) (std_unique l).
Proof.
  induction l as [|a l IH]; intros Hsorted; [constructor|].
  apply StronglySorted_inv in Hsorted. destruct Hsorted as [Hl Ha].
  specialize (IH Hl). cbn [std_unique]. destruct l as [|b l]; [repeat constructor|].
  destruct (String.eqb a b) eqn:Eab; [exact IH|].
  constructor; [exact IH|]. apply Forall_forall. intros x Hx.
  rewrite std_unique_In in Hx. rewrite Forall_forall in Ha. split; [now apply Ha|].
  intros <-. apply String.eqb_neq in Eab. apply Eab.
  destruct Hx as [Hx|Hx]; [now symmetry|].
  apply below_antisym; [apply Ha; now left|].
  apply StronglySorted_inv in Hl. destruct Hl as [_ Hb].
  rewrite Forall_forall in Hb. now apply Hb.
Qed.

End Unique.

Lemma StronglySorted_snoc {A : Type} (R : A -> A -> Prop) (l : list A) (a : A) :
  StronglySorted R l -> Forall (fun b => R b a) l -> StronglySorted R (l ++ [a]).
Proof.
  induction 1 as [|b l Hl IH Hb]; intros Ha; [repeat constructor|].
  apply Forall_cons_iff in Ha. destruct Ha as [Hba Ha]. cbn [app]. constructor.
  - now apply IH.
  - apply Forall_app. split; [assumption|]. now repeat constructor.
Qed.

Lemma StronglySorted_rev {A : Type} (R : A -> A -> Prop) (l : list A) :
  StronglySorted R l -> StronglySorted (fun a b => R b a) (rev l).
Proof.
  induction 1 as [|a l Hl IH Ha]; [constructor|].
  cbn [rev]. apply StronglySorted_snoc; [assumption|].
  apply Forall_forall. intros b Hb. apply in_rev in Hb.
  rewrite Forall_forall in Ha. now apply Ha.
Qed.

(** X20. Sorting whole lines with [unique], outside of the numeric and
    case-insensitive modes: whatever [std::sort] does with equal lines,
    [sort_impl] returns one text, which holds every line of the file once,
    in strictly ascending order, or strictly descending with [reverse]. *)
Theorem sort_unique_whole_lines :
  forall (P : FloatParser) (fs : LineSource.filesystem) (path : string) (f : flags)
    (lines : list string) (out : result string),
    LineSource.read_lines fs path = Ok lines ->
    numeric f = false -> ignore_case f = false -> (key f <= 0)%Z -> unique f = true ->
    sort_impl fs path f out ->
    exists unique_lines,
      out = Ok (LineSource.put_lines unique_lines) /\
      (forall x, In x unique_lines <-> In x lines) /\
      StronglySorted
        (fun a b => (if reverse f then String.ltb b a else String.ltb a b) = true) unique_lines /\
      forall out', sort_impl fs path f out' -> out' = out.
Proof.
  intros P fs path f lines out Hread Hnum Hcase Hkey Huniq Hout.
  assert (forall a b, comparator f a b = String.ltb a b) as Hcomp.
  { intros a b. unfold comparator, plain_less, key_of, get_key.
    rewrite Hnum, Hcase. now apply Z.leb_le in Hkey as ->. }
  assert (forall sorted, std_sort (comparator f) lines sorted ->
            Permutation lines sorted /\
            StronglySorted (fun a b => String.ltb b a = false) sorted) as Hsort.
  { intros sorted Hsorted.
    destruct (Hsorted (SortClaims.comparator_strict_weak f lines Hnum)) as [Hperm Hnd].
    split; [assumption|]. unfold nondescending in Hnd.
    eapply StronglySorted_ind with (P := StronglySorted (fun a b => String.ltb b a = false));
      [constructor| |exact Hnd].
    intros a l Hl IH Ha. constructor; [assumption|].
    eapply Forall_impl; [|exact Ha]. cbn beta. intros b. now rewrite Hcomp. }
  unfold sort_impl in *. rewrite Hread in *.
  destruct Hout as (s & (sorted & Hsorted & ->) & ->).
  destruct (Hsort sorted Hsorted) as [Hperm Hord].
  exists (arrange f sorted). split; [reflexivity|].
  unfold arrange. rewrite Huniq. split; [|split].
  - intros x. rewrite std_unique_In. destruct (reverse f).
    + rewrite <- in_rev. split; intros Hx.
      * eapply Permutation_in; [symmetry; exact Hperm|exact Hx].
      * eapply Permutation_in; [exact Hperm|exact Hx].
    + split; intros Hx.
      * eapply Permutation_in; [symmetry; exact Hperm|exact Hx].
      * eapply Permutation_in; [exact Hperm|exact Hx].
  - destruct (reverse f).
    + apply StronglySorted_rev in Hord.
      apply (std_unique_strict (fun a b => String.ltb a b = false)) in Hord.
      * eapply StronglySorted_ind
          with (P := StronglySorted (fun a b => String.ltb b a = true));
          [constructor| |exact Hord].
        intros a l Hl IH Ha. constructor; [assumption|].
        eapply Forall_impl; [|exact Ha]. cbn beta. intros b [Hab Hne].
        destruct (String.ltb b a) eqn:Hba; [reflexivity|].
        exfalso. apply Hne. now apply ltb_tie.
      * intros a b Hab Hba. now apply ltb_tie.
    + apply (std_unique_strict (fun a b => String.ltb b a = false)) in Hord.
      * eapply StronglySorted_ind
          with (P := StronglySorted (fun a b => String.ltb a b = true));
          [constructor| |exact Hord].
        intros a l Hl IH Ha. constructor; [assumption|].
        eapply Forall_impl; [|exact Ha]. cbn beta. intros b [Hab Hne].
        destruct (String.ltb a b) eqn:Hba; [reflexivity|].
        exfalso. apply Hne. now apply ltb_tie.
      * intros a b Hab Hba. now apply ltb_tie.
  - intros out' (s' & (sorted' & Hsorted' & ->) & ->).
    destruct (Hsort sorted' Hsorted') as [Hperm' Hord'].
    rewrite (SortClaims.ordered_rearrangement_unique sorted' sorted Hord' Hord);
      [unfold arrange; now rewrite Huniq|].
    now rewrite <- Hperm, <- Hperm'.
Qed.

Lemma sort_unique_whole_lines_witness :
  let f := {| reverse := false; numeric := false; unique := true; key := 0%Z;
              separator := ""; ignore_case := false |} in
  exists unique_lines,
    Ok (LineSource.put_lines ["a"; "b"]) = Ok (LineSource.put_lines unique_lines) /\
    (forall x, In x unique_lines <-> In x ["b"; "a"; "b"]) /\
    StronglySorted
      (fun a b => (if reverse f then String.ltb b a else String.ltb a b) = true) unique_lines /\
    forall out',
      sort_impl (H := Reference.decimal_parser)
        (LineSource.two_files "data" (LineSource.put_lines ["b"; "a"; "b"]) "" "")
        "data" f out' ->
      out' = Ok (LineSource.put_lines ["a"; "b"]).
Proof.
  intros f.
  apply (sort_unique_whole_lines Reference.decimal_parser
           (LineSource.two_files "data" (LineSource.put_lines ["b"; "a"; "b"]) "" "")
           "data" f ["b"; "a"; "b"] (Ok (LineSource.put_lines ["a"; "b"])));
    try reflexivity.
  unfold sort_impl. change (LineSource.read_lines _ "data") with (Ok ["b"; "a"; "b"]).
  exists (LineSource.put_lines ["a"; "b"]). split; [|reflexivity].
  exists ["a"; "b"; "b"]. split; [|reflexivity].
  intros _. split.
  - apply perm_swap.
  - repeat constructor.
Defined.

End SortProps.

(** ** find: the name filter *)

Module FindProps.

Import Find StringFacts.

Lemma length_append (a b : string) :
  String.length (a +:+ b) = String.length a + String.length b.
Proof. induction a as [|c a IH]; [reflexivity|]. simpl. now rewrite IH. Qed.

Lemma starts_with_spec (p s : string) :
  starts_with p s = true <-> exists b, s = p +:+ b.
Proof.
  revert s. induction p as [|a p IH]; intros s.
  - split; [intros _; now exists s|reflexivity].
  - destruct s as [|c s]; cbn [starts_with].
    + split; [discriminate|]. intros [b Hb]. discriminate.
    + rewrite andb_true_iff, Ascii.eqb_eq, IH. split.
      * intros [-> [b ->]]. now exists b.
      * intros [b Hb]. injection Hb as -> ->. split; [reflexivity|now exists b].
Qed.

Lemma contains_spec (p s : string) :
  contains p s = true <-> exists a b, s = a +:+ p +:+ b.
Proof.
  split.
  - induction s as [|c s IH]; cbn [contains].
    + intros Hp. apply starts_with_spec in Hp. destruct Hp as [b Hb].
      now exists EmptyString, b.
    + intros Hp. apply orb_prop in Hp. destruct Hp as [Hp|Hp].
      * apply starts_with_spec in Hp. destruct Hp as [b Hb]. now exists EmptyString, b.
      * destruct (IH Hp) as (a & b & ->). now exists (String c a), b.
  - intros (a & b & ->). induction a as [|c a IH].
    + assert (starts_with p (p +:+ b) = true) as Hp by (apply starts_with_spec; now exists b).
      cbn [String.append]. destruct (p +:+ b); cbn [contains]; rewrite Hp; reflexivity.
    + cbn [String.append contains]. rewrite IH. apply orb_true_r.
Qed.

Lemma take_all (s : string) :
  forall count, (size s <= count)%N -> take count s = s.
Proof.
  unfold size. induction s as [|c s IH]; intros count Hcount; [reflexivity|].
  cbn [take String.length] in *.
  destruct (N.eqb_spec count 0) as [->|Hne]; [lia|].
  rewrite IH by lia. reflexivity.
Qed.

Lemma take_prefix (p b : string) : take (size p) (p +:+ b) = p.
Proof.
  unfold size. induction p as [|c p IH]; cbn [String.append String.length].
  - destruct b; [reflexivity|]. reflexivity.
  - cbn [take]. destruct (N.eqb_spec (N.of_nat (S (String.length p))) 0) as [H0|_]; [lia|].
    replace (N.pred (N.of_nat (S (String.length p)))) with (N.of_nat (String.length p))
      by lia.
    now rewrite IH.
Qed.

Lemma take_split (count : N) (s : string) : exists b, s = take count s +:+ b.
Proof.
  revert count. induction s as [|c s IH]; intros count; [now exists EmptyString|].
  cbn [take]. destruct (count =? 0)%N.
  - now exists (String c s).
  - destruct (IH (N.pred count)) as [b Hb]. exists b.
    cbn [String.append]. now rewrite <- Hb.
Qed.

Lemma substr_from_append (a s : string) : substr_from (String.length a) (a +:+ s) = s.
Proof. induction a as [|c a IH]; [reflexivity|exact IH]. Qed.

Lemma back_star (r : string) : forall c, back c (r +:+ String star EmptyString) = star.
Proof. induction r as [|d r IH]; intros c; [reflexivity|apply IH]. Qed.

Lemma back_no_star (r : string) :
  forall c,
    (forall r', String c r <> r' +:+ String star EmptyString) -> back c r <> star.
Proof.
  induction r as [|d r IH]; intros c Hno; cbn [back].
  - intros ->. now apply (Hno EmptyString).
  - apply IH. intros r' Hr'. apply (Hno (String c r')). cbn [String.append]. now rewrite Hr'.
Qed.

(** The test of the suffix. *)
Lemma ends_with_spec (suffix fname : string) :
  (size suffix <=? size fname)%N &&
  String.eqb (substr (String.length fname - String.length suffix) (size suffix) fname) suffix
    = true <->
  exists a, fname = a +:+ suffix.
Proof.
  rewrite andb_true_iff, N.leb_le, String.eqb_eq. unfold size, substr. split.
  - intros [Hlen Heq]. exists (substr_to (String.length fname - String.length suffix) fname).
    rewrite take_all in Heq.
    + rewrite <- Heq at 2. symmetry. apply TextProps.substr_split.
    + unfold size. rewrite TextProps.substr_from_length. lia.
  - intros [a ->]. rewrite length_append. split; [lia|].
    replace (String.length a + String.length suffix - String.length suffix)
      with (String.length a) by lia.
    rewrite substr_from_append. apply take_all. reflexivity.
Qed.

(** The test of the prefix. *)
Lemma begins_with_spec (prefix fname : string) :
  String.eqb (substr 0 (size prefix) fname) prefix = true <->
  exists b, fname = prefix +:+ b.
Proof.
  rewrite String.eqb_eq. unfold substr. cbn [substr_from]. split.
  - intros Heq. destruct (take_split (size prefix) fname) as [b Hb].
    exists b. now rewrite Heq in Hb.
  - intros [b ->]. apply take_prefix.
Qed.

(** X21. The name filter of [find_impl] knows a star only at the two
    ends of the pattern.  An empty pattern accepts every name; [*x*] accepts
    the names that hold [x]; [*x] those that end with [x]; [x*] those that
    begin with [x]; a pattern without a star at either end accepts the name
    equal to it, and a star inside of [x] stands for itself. *)
Theorem find_name_glob :
  forall (x fname : string),
    matches_name EmptyString fname = true /\
    (matches_name (String star (x +:+ String star EmptyString)) fname = true <->
     exists a b, fname = a +:+ x +:+ b) /\
    ((forall r, x <> r +:+ String star EmptyString) ->
     (matches_name (String star x) fname = true <-> exists a, fname = a +:+ x)) /\
    ((forall r, x <> String star r) -> x <> EmptyString ->
     (matches_name (x +:+ String star EmptyString) fname = true <->
      exists b, fname = x +:+ b)) /\
    ((forall r, x <> String star r) -> (forall r, x <> r +:+ String star EmptyString) ->
     x <> EmptyString ->
     (matches_name x fname = true <-> fname = x)).
Proof.
  intros x fname. split; [reflexivity|]. split; [|split; [|split]].
  - unfold matches_name. rewrite Ascii.eqb_refl, back_star, Ascii.eqb_refl. cbn [andb].
    replace (substr 1 (size_sub (size (String star (x +:+ String star EmptyString))) 2)
               (String star (x +:+ String star EmptyString))) with x; [apply contains_spec|].
    unfold substr, size, size_sub. cbn [substr_from String.length].
    rewrite length_append. cbn [String.length].
    destruct (N.leb_spec 2 (N.of_nat (S (String.length x + 1)))) as [_|Hlt]; [|lia].
    replace (N.of_nat (S (String.length x + 1)) - 2)%N with (size x) by (unfold size; lia).
    now rewrite take_prefix.
  - intros Hend. destruct x as [|c r].
    + cbn. split; [intros _; exists fname; now rewrite append_empty_r|].
      intros _. apply contains_spec. now exists EmptyString, fname.
    + unfold matches_name. rewrite Ascii.eqb_refl. cbn [andb back].
      destruct (Ascii.eqb_spec (back c r) star) as [Hback|_].
      * now apply back_no_star in Hback.
      * cbn [substr_from]. apply ends_with_spec.
  - intros Hfront Hne. destruct x as [|c r]; [contradiction|].
    cbn [String.append]. unfold matches_name.
    destruct (Ascii.eqb_spec c star) as [->|_]; [now elim (Hfront r)|].
    cbn [andb]. rewrite back_star, Ascii.eqb_refl.
    replace (substr 0 (size_sub (size (String c (r +:+ String star EmptyString))) 1)
               (String c (r +:+ String star EmptyString))) with (String c r);
      [apply begins_with_spec|].
    unfold substr, size, size_sub. cbn [substr_from String.length].
    rewrite length_append. cbn [String.length].
    destruct (N.leb_spec 1 (N.of_nat (S (String.length r + 1)))) as [_|Hlt]; [|lia].
    replace (N.of_nat (S (String.length r + 1)) - 1)%N with (size (String c r))
      by (unfold size; cbn [String.length]; lia).
    change (String c (r +:+ String star EmptyString))
      with (String c r +:+ String star EmptyString).
    now rewrite take_prefix.
  - intros Hfront Hend Hne. destruct x as [|c r]; [contradiction|].
    unfold matches_name.
    destruct (Ascii.eqb_spec c star) as [->|_]; [now elim (Hfront r)|].
    cbn [andb].
    destruct (Ascii.eqb_spec (back c r) star) as [Hback|_].
    + now apply back_no_star in Hback.
    + apply String.eqb_eq.
Qed.

Lemma find_name_glob_witness :
  matches_name EmptyString "notes.txt" = true /\
  (matches_name (String star (".txt" +:+ String star EmptyString)) "notes.txt" = true <->
   exists a b, "notes.txt" = a +:+ ".txt" +:+ b) /\
  (matches_name (String star ".txt") "notes.txt" = true <->
   exists a, "notes.txt" = a +:+ ".txt") /\
  (matches_name (".txt" +:+ String star EmptyString) "notes.txt" = true <->
   exists b, "notes.txt" = ".txt" +:+ b) /\
  (matches_name ".txt" "notes.txt" = true <-> "notes.txt" = ".txt").
Proof.
  destruct (find_name_glob ".txt" "notes.txt") as (H0 & H1 & H2 & H3 & H4).
  split; [exact H0|]. split; [exact H1|].
  assert (forall r, ".txt" <> r +:+ String star EmptyString) as Hend.
  { intros [|c1 [|c2 [|c3 [|c4 [|c5 r]]]]]; cbn; discriminate. }
  assert (forall r, ".txt" <> String star r) as Hfront by (intros r; discriminate).
  split; [exact (H2 Hend)|]. split; [apply (H3 Hfront); discriminate|].
  apply (H4 Hfront Hend). discriminate.
Defined.

End FindProps.

(** ** ls: the permission column *)

Module PermsProps.

Import Perms.

Lemma flag_bit (p : Z) (k : Z) (yes : string) :
  (0 <= k)%Z ->
  flag p (2 ^ k) yes = if Z.testbit p k then yes else "-".
Proof.
  intros Hk. unfold flag, none. destruct (Z.testbit p k) eqn:Hbit.
  - destruct (Z.eqb_spec (Z.land p (2 ^ k)) 0) as [H0|_]; [|reflexivity].
    assert (Z.testbit (Z.land p (2 ^ k)) k = true) as Hk'.
    { rewrite Z.land_spec, Hbit, Z.pow2_bits_true by assumption. reflexivity. }
    rewrite H0, Z.bits_0 in Hk'. discriminate.
  - replace (Z.land p (2 ^ k)) with 0%Z; [reflexivity|].
    symmetry. apply Z.bits_inj'. intros n Hn.
    rewrite Z.land_spec, Z.bits_0, Z.pow2_bits_eqb by assumption.
    destruct (Z.eqb_spec k n) as [<-|_]; [now rewrite Hbit|apply andb_false_r].
Qed.

(** The column, bit by bit. *)
Lemma permissions_string_bits (p : Z) :
  permissions_string p =
  String (if Z.testbit p 8 then "r" else "-")
    (String (if Z.testbit p 7 then "w" else "-")
       (String (if Z.testbit p 6 then "x" else "-")
          (String (if Z.testbit p 5 then "r" else "-")
             (String (if Z.testbit p 4 then "w" else "-")
                (String (if Z.testbit p 3 then "x" else "-")
                   (String (if Z.testbit p 2 then "r" else "-")
                      (String (if Z.testbit p 1 then "w" else "-")
                         (String (if Z.testbit p 0 then "x" else "-")
                            EmptyString))))))))%char.
Proof.
  unfold permissions_string.
  change owner_read with (2 ^ 8)%Z. change owner_write with (2 ^ 7)%Z.
  change owner_exec with (2 ^ 6)%Z. change group_read with (2 ^ 5)%Z.
  change group_write with (2 ^ 4)%Z. change group_exec with (2 ^ 3)%Z.
  change others_read with (2 ^ 2)%Z. change others_write with (2 ^ 1)%Z.
  change others_exec with (2 ^ 0)%Z.
  rewrite !flag_bit by lia.
  destruct (Z.testbit p 8), (Z.testbit p 7), (Z.testbit p 6); cbn [String.append];
    destruct (Z.testbit p 5), (Z.testbit p 4), (Z.testbit p 3); cbn [String.append];
    destruct (Z.testbit p 2), (Z.testbit p 1), (Z.testbit p 0); reflexivity.
Qed.

Lemma mark_inj (yes : ascii) (a b : bool) :
  yes <> "-"%char ->
  (if a then yes else "-"%char) = (if b then yes else "-"%char) -> a = b.
Proof. intros Hyes. destruct a, b; intros Heq; congruence. Qed.

Lemma string_cons_inj (a b : ascii) (s t : string) :
  String a s = String b t -> a = b /\ s = t.
Proof. intros Heq. now injection Heq. Qed.

(** X22. The permission column of [ls_impl] has nine characters and
    shows the nine permission bits and nothing else: two permission sets
    give the same column exactly when they agree on these bits. *)
Theorem permissions_string_low_bits :
  forall p q : Z,
    String.length (permissions_string p) = 9 /\
    (permissions_string p = permissions_string q <-> Z.land p 511 = Z.land q 511).
Proof.
  intros p q. rewrite !permissions_string_bits. split; [reflexivity|].
  change 511%Z with (Z.ones 9). split.
  - intros Heq.
    apply string_cons_inj in Heq as [H8 Heq]. apply string_cons_inj in Heq as [H7 Heq].
    apply string_cons_inj in Heq as [H6 Heq]. apply string_cons_inj in Heq as [H5 Heq].
    apply string_cons_inj in Heq as [H4 Heq]. apply string_cons_inj in Heq as [H3 Heq].
    apply string_cons_inj in Heq as [H2 Heq]. apply string_cons_inj in Heq as [H1 Heq].
    apply string_cons_inj in Heq as [H0 _].
    assert (forall n yes,
              yes <> "-"%char ->
              (if Z.testbit p n then yes else "-"%char) =
              (if Z.testbit q n then yes else "-"%char) ->
              Z.testbit p n = Z.testbit q n) as Hbit
      by (intros n yes; apply mark_inj).
    apply Hbit in H8, H7, H6, H5, H4, H3, H2, H1, H0; try discriminate.
    apply Z.bits_inj'. intros n Hn. rewrite !Z.land_spec.
    destruct (Z.lt_ge_cases n 9) as [Hlow|Hhigh].
    + assert (n = 0 \/ n = 1 \/ n = 2 \/ n = 3 \/ n = 4 \/ n = 5 \/ n = 6 \/ n = 7 \/ n = 8)%Z
        as Hcases by lia.
      destruct Hcases as [->|[->|[->|[->|[->|[->|[->|[->| ->]]]]]]]]; congruence.
    + rewrite Z.ones_spec_high by lia. now rewrite !andb_false_r.
  - intros Heq.
    assert (forall n, (0 <= n < 9)%Z -> Z.testbit p n = Z.testbit q n) as Hbits.
    { intros n Hn.
      assert (Z.testbit (Z.land p (Z.ones 9)) n = Z.testbit (Z.land q (Z.ones 9)) n) as H
        by now rewrite Heq.
      rewrite !Z.land_spec, Z.ones_spec_low, !andb_true_r in H by lia. exact H. }
    rewrite !(Hbits 0%Z), !(Hbits 1%Z), !(Hbits 2%Z), !(Hbits 3%Z), !(Hbits 4%Z),
      !(Hbits 5%Z), !(Hbits 6%Z), !(Hbits 7%Z), !(Hbits 8%Z) by lia.
    reflexivity.
Qed.

End PermsProps.

(** ** Lines: what is written can be read back *)

Module RoundTrip.

Import Text.

(** X23. The tools write their lines with [put_lines] and read them with
    [read_lines]: a line that was read holds no newline, and lines without
    a newline that were written to a file are read back as they were. *)
Theorem lines_round_trip :
  forall (fs : LineSource.filesystem) (path : string) (lines : list string),
    (forall read, LineSource.read_lines fs path = Ok read ->
                  Forall (fun x => no_newline x = true) read) /\
    (Forall (fun x => no_newline x = true) lines ->
     LineSource.open fs path = Some (LineSource.put_lines lines) ->
     LineSource.read_lines fs path = Ok lines).
Proof.
  intros fs path lines. split.
  - intros read. apply LineFacts.read_lines_no_newline.
  - intros Hlines Hopen. rewrite (LineFacts.open_read_lines _ _ _ Hopen).
    now rewrite LineFacts.getline_all_put_lines.
Qed.

Lemma lines_round_trip_witness :
  (forall read,
     LineSource.read_lines
       (LineSource.two_files "f" (LineSource.put_lines ["a"; ""; "b c"]) "" "") "f" = Ok read ->
     Forall (fun x => no_newline x = true) read) /\
  LineSource.read_lines
    (LineSource.two_files "f" (LineSource.put_lines ["a"; ""; "b c"]) "" "") "f"
    = Ok ["a"; ""; "b c"].
Proof.
  destruct (lines_round_trip
              (LineSource.two_files "f" (LineSource.put_lines ["a"; ""; "b c"]) "" "")
              "f" ["a"; ""; "b c"]) as [Hread Hback].
  split; [exact Hread|]. apply Hback; [repeat constructor|reflexivity].
Defined.

End RoundTrip.

(** ** grep: a directory *)

Module GrepWalk.

Import Grep.

Section Walk.

Context `{RegexEngine}.

Variable fs : LineSource.filesystem.



End Walk.





End GrepWalk.
